(** * sheriff: patrol orchestration, retry executor, issue tracker and chunking

    A shallow embedding of the Go sources of [elementsinteractive/sheriff]
    and the properties of its specification.

    Conventions of the embedding:
    - a Go [int] / [time.Duration] is a [Z]; where the source does 64-bit
      arithmetic the wrap-around is written out with [wrap64];
    - a Go [string] used as an identifier or message is a [string]; the text
      handled byte by byte in [splitMessage] is a [list byte];
    - a Go [error] is an [option error] ([None] is [nil]);
    - collaborators behind interfaces (chat client, issue-tracker client,
      git, scanner) are records of functions over an explicit state;
    - loops whose exit depends on a collaborator's answers take fuel and
      report [Timeout] when it runs out; a panic is [Panic]. *)

From Stdlib Require Import ZArith Lia.
From Stdlib.Strings Require Import Byte Ascii.
From stdpp Require Import gmap strings list sorting pretty.

#[local] Open Scope Z_scope.

(** ** Outcomes of a run *)

Inductive outcome (A : Type) : Type :=
| Ret (a : A)
| Panic
| Timeout.

Arguments Ret {A} a.
Arguments Panic {A}.
Arguments Timeout {A}.

#[global] Instance byte_eq_decision : EqDecision byte := byte_eq_dec.

(** [len(s)] of a Go string or slice. *)
Definition len {A : Type} (s : list A) : Z := Z.of_nat (length s).

(** ** Package publish: message chunking (slack.go, [splitMessage]) *)

Module publish.

Definition newline : byte := x0a.

(** [strings.LastIndex(s, "\n")]: the index of the last newline of [s],
    or [-1] when there is none. *)
Fixpoint LastIndex (s : list byte) : Z :=
  match s with
  | [] => -1
  | b :: t =>
      let r := LastIndex t in
      if 0 <=? r then r + 1
      else if decide (b = newline) then 0 else -1
  end.

(** One iteration of the [for len(s) > maxLen] loop: the cut index. *)
Definition cutIndex (s : list byte) (maxLen : Z) : Z :=
  let idx := LastIndex (take (Z.to_nat maxLen) s) in
  if idx =? -1 then maxLen else idx + 1.

(** The loop of [splitMessage]; [chunks] is the slice built so far. *)
Fixpoint splitLoop (fuel : nat) (chunks : list (list byte))
    (s : list byte) (maxLen : Z) : outcome (list (list byte)) :=
  if maxLen <? len s then
    match fuel with
    | O => Timeout
    | S fuel' =>
        let idx := cutIndex s maxLen in
        splitLoop fuel' (chunks ++ [take (Z.to_nat idx) s])
          (drop (Z.to_nat idx) s) maxLen
    end
  else Ret (chunks ++ [s]).

(** [splitMessage(s, maxLen)]. [len(s)/maxLen] panics for [maxLen = 0];
    for [maxLen < 0] either [make] or the slice [s[:maxLen]] panics. *)
Definition splitMessage (s : list byte) (maxLen : Z)
    : outcome (list (list byte)) :=
  if maxLen <=? 0 then Panic
  else splitLoop (length s) [] s maxLen.

(** The boundary rule of one cut, as the loop body computes it: the chunk
    [c] cut from the remaining text [s] ends right after the last newline
    among the first [maxLen] bytes of [s] when there is one, and is
    exactly [maxLen] bytes long otherwise. *)
Definition cutAfterLastNewline (maxLen : Z) (s c : list byte) : Prop :=
  let window := take (Z.to_nat maxLen) s in
  (newline ∈ window →
     ∃ tail, window = c ++ tail ∧ last c = Some newline ∧ newline ∉ tail)
  ∧ (newline ∉ window → c = window ∧ len c = maxLen).

(** The boundary rule read literally from the specification: a newline
    "within the last [maxLen] characters of the remaining text". *)
Definition cutByLastWindow (maxLen : Z) (s c : list byte) : Prop :=
  let window := drop (length s - Z.to_nat maxLen) s in
  (newline ∈ window → last c = Some newline)
  ∧ (newline ∉ window → len c = maxLen).

(** A rule [P] holds at every chunk boundary: every chunk but the last is
    cut from the text that remained when it was produced. *)
Fixpoint boundaries (P : list byte → list byte → Prop)
    (s : list byte) (chunks : list (list byte)) : Prop :=
  match chunks with
  | [] => True
  | c :: rest =>
      match rest with
      | [] => True
      | _ :: _ => P s c ∧ boundaries P (drop (length c) s) rest
      end
  end.

(** *** Statements read from the specification, and concrete inputs *)

(** The chunking property with the boundary rule read literally from the
    specification. *)
Definition chunking_as_stated (s : list byte) (maxLen : Z) : Prop :=
  ∃ chunks, splitMessage s maxLen = Ret chunks
            ∧ concat chunks = s
            ∧ Forall (λ c, len c <= maxLen) chunks
            ∧ boundaries (cutByLastWindow maxLen) s chunks.

End publish.

(** ** Go errors *)

(** The error values the sources build: [errors.New] and [fmt.Errorf]
    without [%w] give an [errorString]; [fmt.Errorf(prefix + "%w", cause)]
    gives a [wrapError] that unwraps to [cause]; [errors.Join] gives a
    [joinError]; [RateLimitedError] is the chat library's rate-limit signal
    with its [RetryAfter] duration in nanoseconds. *)
#[warnings="-register-all"]
Inductive error : Type :=
| errorString (msg : string)
| wrapError (prefix : string) (cause : error)
| joinError (errs : list error)
| RateLimitedError (RetryAfter : Z).

Module errors.

Definition New (msg : string) : error := errorString msg.

(** [errors.Join(errs...)]: nil operands are discarded; the result is nil
    when every operand is nil. *)
Definition Join (errs : list (option error)) : option error :=
  match omap id errs with
  | [] => None
  | es => Some (joinError es)
  end.

(** [errors.As(err, &rateLimitErr)] for a target of type
    [*slack.RateLimitedError]: the first rate-limit error of the tree of
    [err] in pre-order, following [Unwrap() error] and
    [Unwrap() []error]. The result is its [RetryAfter]. *)
Fixpoint AsRateLimited (e : error) : option Z :=
  match e with
  | errorString _ => None
  | wrapError _ cause => AsRateLimited cause
  | joinError es =>
      (fix first (l : list error) : option Z :=
         match l with
         | [] => None
         | x :: t =>
             match AsRateLimited x with
             | Some d => Some d
             | None => first t
             end
         end) es
  | RateLimitedError d => Some d
  end.

End errors.

(** 64-bit two's complement wrap-around of [int], [int64] and
    [time.Duration]. *)
Definition wrap64 (z : Z) : Z := (z + 2 ^ 63) mod 2 ^ 64 - 2 ^ 63.

(** [x << k] on a 64-bit signed integer, for a shift count [k >= 0]. *)
Definition shl64 (x k : Z) : Z := wrap64 (x * 2 ^ k).

(** ** Package slack: retry executor and channel resolution (slack.go) *)

Module slack.

(** What a run of [runWithRetries] does, in order. *)
Inductive retryEvent : Type :=
| Invoked
| Slept (d : Z).

#[global] Instance retryEvent_eq_dec : EqDecision retryEvent.
Proof. solve_decision. Defined.

Section runWithRetries.
(** The type parameter [T] with its zero value, and the operation: a Go
    closure, here a function over the state [St] it acts on. *)
Context {T St : Type}.
Variable zero : T.
Variable operation : St → (T * option error) * St.

Record retryRun : Type := mkRetryRun {
  result : T;
  err : option error;
  final : St;
  trace : list retryEvent
}.

(** [backoff * time.Duration(1<<(attempt-1))]. *)
Definition exponentialBackoff (backoff attempt : Z) : Z :=
  wrap64 (backoff * shl64 1 (attempt - 1)).

(** The duration handed to [time.Sleep] after the failed attempt
    [attempt] with error [e] (lines 119-141). *)
Definition sleepDuration (backoff attempt : Z) (e : error) : Z :=
  match errors.AsRateLimited e with
  | Some retryAfter =>
      if 0 <? retryAfter then retryAfter
      else exponentialBackoff backoff attempt
  | None => exponentialBackoff backoff attempt
  end.

(** [fmt.Errorf("operation failed after %d attempts: %w", maxAttempts, err)];
    with a nil [err] the verb prints [%!w(<nil>)] and nothing is
    wrapped. *)
Definition exhausted (maxAttempts : Z) (e : option error) : error :=
  let prefix :=
    "operation failed after " +:+ pretty maxAttempts +:+ " attempts: " in
  match e with
  | Some cause => wrapError prefix cause
  | None => errorString (prefix +:+ "%!w(<nil>)")
  end.

(** The [for attempt := 1; attempt <= maxAttempts; attempt++] loop.
    [remaining] counts the iterations left, [maxAttempts - attempt + 1]:
    it is [0] exactly when the loop condition fails. [result] and [err]
    are the named results, assigned by every invocation. *)
Fixpoint retryLoop (maxAttempts backoff : Z) (remaining : nat)
    (attempt : Z) (result0 : T) (err0 : option error) (s : St)
    (tr : list retryEvent) : retryRun :=
  match remaining with
  | O => mkRetryRun result0 (Some (exhausted maxAttempts err0)) s tr
  | S remaining' =>
      let '((r, e), s') := operation s in
      let tr' := tr ++ [Invoked] in
      match e with
      | None => mkRetryRun r None s' tr'
      | Some cause =>
          if attempt =? maxAttempts
          then mkRetryRun r (Some (exhausted maxAttempts e)) s' tr'
          else
            let d := sleepDuration backoff attempt cause in
            retryLoop maxAttempts backoff remaining' (attempt + 1)
              r e s' (tr' ++ [Slept d])
      end
  end.

Definition runWithRetries (maxAttempts backoff : Z) (s : St) : retryRun :=
  let maxAttempts := if maxAttempts <=? 0 then 1 else maxAttempts in
  retryLoop maxAttempts backoff (Z.to_nat maxAttempts) 1 zero None s [].

(** The number of times a run invoked the operation. *)
Definition invocations (r : retryRun) : nat :=
  length (filter (λ ev, ev = Invoked) (trace r)).

(** The state before invocation number [i] (counted from 0), and that
    invocation's answer. *)
Fixpoint stateBefore (i : nat) (s : St) : St :=
  match i with
  | O => s
  | S i' => stateBefore i' (snd (operation s))
  end.

Definition answer (i : nat) (s : St) : T * option error :=
  fst (operation (stateBefore i s)).

(** The events of [j] failed attempts in a row, the first of them being
    attempt number [attempt], none of them the last one allowed. *)
Fixpoint failedAttempts (backoff attempt : Z) (j : nat) (s : St)
    : list retryEvent :=
  match j with
  | O => []
  | S j' =>
      match snd (fst (operation s)) with
      | Some e =>
          Invoked :: Slept (sleepDuration backoff attempt e)
            :: failedAttempts backoff (attempt + 1) j' (snd (operation s))
      | None => []
      end
  end.

End runWithRetries.

Arguments retryRun : clear implicits.
Arguments mkRetryRun {T St}.

(** *** The service *)

Record Channel : Type := mkChannel { ID : string; Name : string }.

Record GetConversationsParameters : Type := mkParams {
  ExcludeArchived : bool;
  Cursor : string;
  Types : list string;
  Limit : Z
}.

Record conversationsResult : Type := mkConversations {
  Channels : list Channel;
  NextCursor : string
}.

(** The calls a service makes on its client. *)
Inductive clientCall : Type :=
| GetConversationsCalled (params : GetConversationsParameters)
| PostMessageCalled (channelID : string).

Section service.
(** The [iclient] interface over the state [C] of the chat platform (or
    of a mock), and the opaque type of message options. *)
Context {C MsgOption : Type}.

Record iclient : Type := mkClient {
  GetConversations :
    GetConversationsParameters → C →
    (list Channel * string * option error) * C;
  PostMessage :
    string → list MsgOption → C → (string * string * option error) * C
}.

(** [type service struct { client; maxAttempts; initialBackoff }]: the
    struct has no other field. *)
Record service : Type := mkService {
  client : iclient;
  maxAttempts : Z;
  initialBackoff : Z
}.

(** The world a service acts on: its client's state and the log of the
    calls made on the client. *)
Record world : Type := mkWorld { remote : C; calls : list clientCall }.

Definition callGetConversations (s : service)
    (params : GetConversationsParameters) (w : world)
    : (list Channel * string * option error) * world :=
  let '(r, c') := GetConversations (client s) params (remote w) in
  (r, mkWorld c' (calls w ++ [GetConversationsCalled params])).

(** [pie.FindFirstUsing]: the index of the first element satisfying the
    predicate, or [-1]. *)
Fixpoint FindFirstUsing {A : Type} (l : list A) (f : A → bool) : Z :=
  match l with
  | [] => -1
  | x :: t =>
      if f x then 0
      else let r := FindFirstUsing t f in if r =? -1 then -1 else r + 1
  end.

(** The closure retried for one page of the listing (lines 72-83). *)
Definition listPage (s : service) (nextCursor : string) (w : world)
    : (conversationsResult * option error) * world :=
  let '((convChannels, convCursor, convErr), w') :=
    callGetConversations s
      (mkParams true nextCursor ["private_channel"; "public_channel"] 1000)
      w in
  match convErr with
  | Some e => ((mkConversations [] "", Some e), w')
  | None => ((mkConversations convChannels convCursor, None), w')
  end.

(** The [for] loop of [findSlackChannel]; one unit of fuel per page. *)
Fixpoint findLoop (s : service) (channelName : string) (fuel : nat)
    (nextCursor : string) (w : world)
    : outcome ((option Channel * option error) * world) :=
  match fuel with
  | O => Timeout
  | S fuel' =>
      let run :=
        runWithRetries (mkConversations [] "") (listPage s nextCursor)
          (maxAttempts s) (initialBackoff s) w in
      match err run with
      | Some opErr =>
          Ret ((None,
                errors.Join
                  [Some (errors.New "failed to get slack channel list");
                   Some opErr]),
               final run)
      | None =>
          let channels := Channels (result run) in
          let nextCursor := NextCursor (result run) in
          let idx :=
            FindFirstUsing channels
              (λ c, bool_decide (Name c = channelName)) in
          if -1 <? idx then
            match channels !! Z.to_nat idx with
            | Some c => Ret ((Some c, None), final run)
            | None => Panic
            end
          else if decide (nextCursor = "") then
            Ret ((None,
                  Some (errorString
                          ("channel " +:+ channelName +:+ " not found"))),
                 final run)
          else findLoop s channelName fuel' nextCursor (final run)
      end
  end.

Definition findSlackChannel (s : service) (channelName : string)
    (fuel : nat) (w : world)
    : outcome ((option Channel * option error) * world) :=
  findLoop s channelName fuel "" w.

End service.

(** The channel-listing calls in a log. *)
Definition isListing (c : clientCall) : bool :=
  match c with
  | GetConversationsCalled _ => true
  | PostMessageCalled _ => false
  end.

Definition listingCalls (log : list clientCall) : nat :=
  length (filter (λ c, isListing c) log).

Arguments iclient : clear implicits.
Arguments service : clear implicits.
Arguments world : clear implicits.

(** *** Statements read from the specification, and concrete inputs *)

(** The sleep rule read literally from the specification: a rate-limit
    error's duration whatever it is, the exact product otherwise. *)
Definition sleepAsStated (backoff : Z) (n : nat) (e : error) : Z :=
  match errors.AsRateLimited e with
  | Some d => d
  | None => backoff * 2 ^ (Z.of_nat n - 1)
  end.

(** An operation that counts its invocations in its state, fails with a
    plain error on the first [k] of them and then returns [v]. *)
Definition flaky (k : nat) (v : Z) (i : nat) : (Z * option error) * nat :=
  if decide (i < k)%nat
  then ((0, Some (errorString "error: rate limit")), S i)
  else ((v, None), S i).

(** An operation that fails on every invocation. *)
Definition failing (e : error) (i : nat) : (Z * option error) * nat :=
  ((0, Some e), S i).

(** The client and the service of the repository's cache test: one page of
    listing that holds the channel. *)
Definition cacheTestClient : iclient unit unit :=
  mkClient
    (λ _ c, (([mkChannel "1234" "random channel"], "", None), c))
    (λ _ _ c, (("", "", None), c)).

Definition cacheTestService : service unit unit :=
  mkService cacheTestClient 3 2000000000.

End slack.

(** ** Package repository: projects and issues *)

Module repository.

Inductive RepositoryType : Type := Gitlab | Github.

Record Project : Type := mkProject {
  ID : Z;
  Name : string;
  Slug : string;
  Path : string;
  GroupOrOwner : string;
  WebURL : string;
  RepoUrl : string;
  Repository : RepositoryType
}.

Record Issue : Type := mkIssue { Title : string; IssueWebURL : string }.

#[global] Instance RepositoryType_eq_dec : EqDecision RepositoryType.
Proof. solve_decision. Defined.

#[global] Instance Project_eq_dec : EqDecision Project.
Proof. solve_decision. Defined.

End repository.

(** ** Package github: the vulnerability issue of a project (github.go) *)

Module github.

(** [github.Issue], with the fields the service reads through the nil-safe
    getters [GetNumber], [GetTitle], [GetState] and [GetHTMLURL]. *)
Record Issue : Type := mkIssue {
  Number : Z;
  Title : string;
  State : string;
  HTMLURL : string
}.

(** [github.IssueRequest]: every field is a pointer, nil when not sent. *)
Record IssueRequest : Type := mkRequest {
  reqTitle : option string;
  reqBody : option string;
  reqState : option string
}.

(** The calls a service makes on its client. *)
Inductive clientCall : Type :=
| ListRepositoryIssuesCalled (owner repo : string) (page : Z)
| CreateIssueCalled (owner repo : string) (issue : IssueRequest)
| UpdateIssueCalled (owner repo : string) (number : Z) (issue : IssueRequest).

#[global] Instance IssueRequest_eq_dec : EqDecision IssueRequest.
Proof. solve_decision. Defined.

#[global] Instance clientCall_eq_dec : EqDecision clientCall.
Proof. solve_decision. Defined.

(** The calls that create an issue or change one. *)
Definition isMutation (c : clientCall) : bool :=
  match c with
  | ListRepositoryIssuesCalled _ _ _ => false
  | CreateIssueCalled _ _ _ | UpdateIssueCalled _ _ _ _ => true
  end.

Definition mutations (log : list clientCall) : list clientCall :=
  filter (λ c, isMutation c) log.

Section service.
(** The [iGithubClient] interface over the state [C] of the tracker, and
    the constant [repository.VulnerabilityIssueTitle]. A listing answers
    with an error, or with a page of issues (a nil pointer is [None]) and
    the number of the next page ([0] on the last one). *)
Context {C : Type}.
Variable VulnerabilityIssueTitle : string.

Record iGithubClient : Type := mkClient {
  ListRepositoryIssues :
    string → string → Z → C → (error + list (option Issue) * Z) * C;
  CreateIssue :
    string → string → IssueRequest → C → (option Issue * option error) * C;
  UpdateIssue :
    string → string → Z → IssueRequest → C →
    (option Issue * option error) * C
}.

Variable client : iGithubClient.

Record world : Type := mkWorld { remote : C; calls : list clientCall }.

Definition callList (owner repo : string) (page : Z) (w : world)
    : (error + list (option Issue) * Z) * world :=
  let '(r, c') := ListRepositoryIssues client owner repo page (remote w) in
  (r, mkWorld c' (calls w ++ [ListRepositoryIssuesCalled owner repo page])).

Definition callCreate (owner repo : string) (req : IssueRequest) (w : world)
    : (option Issue * option error) * world :=
  let '(r, c') := CreateIssue client owner repo req (remote w) in
  (r, mkWorld c' (calls w ++ [CreateIssueCalled owner repo req])).

Definition callUpdate (owner repo : string) (number : Z) (req : IssueRequest)
    (w : world) : (option Issue * option error) * world :=
  let '(r, c') := UpdateIssue client owner repo number req (remote w) in
  (r, mkWorld c' (calls w ++ [UpdateIssueCalled owner repo number req])).

(** The nil-safe getters on a [*github.Issue]. *)
Definition GetState (i : option Issue) : string :=
  match i with Some i => State i | None => "" end.

(** The inner [for _, issue := range issues] of [getVulnerabilityIssue]:
    the first issue of the page that is not nil and carries the title. *)
Fixpoint firstTracked (issues : list (option Issue)) : option Issue :=
  match issues with
  | [] => None
  | Some i :: rest =>
      if decide (Title i = VulnerabilityIssueTitle) then Some i
      else firstTracked rest
  | None :: rest => firstTracked rest
  end.

(** [getVulnerabilityIssue(owner, repo)]; one unit of fuel per page. *)
Fixpoint getVulnerabilityIssueFrom (fuel : nat) (owner repo : string)
    (page : Z) (w : world)
    : outcome ((option Issue * option error) * world) :=
  match fuel with
  | O => Timeout
  | S fuel' =>
      let '(resp, w') := callList owner repo page w in
      match resp with
      | inl e => Ret ((None, Some e), w')
      | inr (issues, nextPage) =>
          match firstTracked issues with
          | Some issue => Ret ((Some issue, None), w')
          | None =>
              if nextPage =? 0 then Ret ((None, None), w')
              else getVulnerabilityIssueFrom fuel' owner repo nextPage w'
          end
      end
  end.

Definition getVulnerabilityIssue (fuel : nat) (owner repo : string)
    (w : world) : outcome ((option Issue * option error) * world) :=
  getVulnerabilityIssueFrom fuel owner repo 0 w.

Definition mapGithubIssuePtr (i : option Issue) : option repository.Issue :=
  match i with
  | Some i => Some (repository.mkIssue (Title i) (HTMLURL i))
  | None => None
  end.

(** [CloseVulnerabilityIssue(project)] (lines 77-99). *)
Definition CloseVulnerabilityIssue (fuel : nat) (project : repository.Project)
    (w : world) : outcome (option error * world) :=
  match getVulnerabilityIssue fuel (repository.GroupOrOwner project)
          (repository.Name project) w with
  | Timeout => Timeout
  | Panic => Panic
  | Ret ((_, Some e), w1) =>
      Ret (Some (wrapError "failed to fetch current list of issues: " e), w1)
  | Ret ((None, None), w1) => Ret (None, w1)
  | Ret ((Some issue, None), w1) =>
      if decide (State issue = "closed") then Ret (None, w1)
      else
        let '((_, e), w2) :=
          callUpdate (repository.GroupOrOwner project)
            (repository.GroupOrOwner project) (Number issue)
            (mkRequest None None (Some "closed")) w1 in
        match e with
        | Some e => Ret (Some (wrapError "failed to update issue: " e), w2)
        | None => Ret (None, w2)
        end
  end.

(** [OpenVulnerabilityIssue(project, report)] (lines 102-134). *)
Definition OpenVulnerabilityIssue (fuel : nat) (project : repository.Project)
    (report : string) (w : world)
    : outcome ((option repository.Issue * option error) * world) :=
  let tag := "[" +:+ repository.Path project +:+ "] " in
  match getVulnerabilityIssue fuel (repository.GroupOrOwner project)
          (repository.Name project) w with
  | Timeout => Timeout
  | Panic => Panic
  | Ret ((_, Some e), w1) =>
      Ret ((None,
            Some (wrapError
                    (tag +:+ "Failed to fetch current list of issues: ") e)),
           w1)
  | Ret ((None, None), w1) =>
      let '((created, e), w2) :=
        callCreate (repository.GroupOrOwner project) (repository.Name project)
          (mkRequest (Some VulnerabilityIssueTitle) (Some report) None) w1 in
      match e with
      | Some e =>
          Ret ((None,
                Some (wrapError (tag +:+ "failed to create new issue: ") e)),
               w2)
      | None => Ret ((mapGithubIssuePtr created, None), w2)
      end
  | Ret ((Some ghIssue, None), w1) =>
      let '((edited, e), w2) :=
        callUpdate (repository.GroupOrOwner project) (repository.Name project)
          (Number ghIssue) (mkRequest None (Some report) (Some "open")) w1 in
      match e with
      | Some e =>
          Ret ((None, Some (wrapError (tag +:+ "Failed to update issue: ") e)),
               w2)
      | None =>
          if decide (GetState edited = "open")
          then Ret ((mapGithubIssuePtr edited, None), w2)
          else Ret ((None, Some (errors.New "failed to reopen issue")), w2)
      end
  end.

(** What the publisher does with one report (publisher.go, lines 26-36):
    open or update the issue of a vulnerable project, close the issue of
    any other. [body] is the formatted report. The result is the error the
    publisher logs, if any. *)
Definition publishIssue (fuel : nat) (IsVulnerable : bool)
    (project : repository.Project) (body : string) (w : world)
    : outcome (option error * world) :=
  if IsVulnerable then
    match OpenVulnerabilityIssue fuel project body w with
    | Ret ((_, e), w') => Ret (e, w')
    | Panic => Panic
    | Timeout => Timeout
    end
  else CloseVulnerabilityIssue fuel project w.

End service.

Arguments iGithubClient : clear implicits.
Arguments world : clear implicits.

(** *** Statements read from the specification, and concrete inputs *)

(** A tracker that holds, for every repository, one open issue number 7
    with the well-known title, and that closes what it is asked to close. *)
Definition openIssueTracker (title : string) : iGithubClient unit :=
  mkClient
    (λ _ _ _ c, (inr ([Some (mkIssue 7 title "open" "")], 0), c))
    (λ _ _ _ c, ((Some (mkIssue 8 title "open" ""), None), c))
    (λ _ _ number req c,
       ((Some (mkIssue number title (default "open" (reqState req)) ""), None),
        c)).

Definition widget : repository.Project :=
  repository.mkProject 1 "widget" "widget" "acme/widget" "acme"
    "https://github.com/acme/widget" "https://github.com/acme/widget"
    repository.Github.

End github.

(** ** Package config: what the patrol reads of it *)

Module config.

Inductive PlatformType : Type := Gitlab | Github.

#[global] Instance PlatformType_eq_dec : EqDecision PlatformType.
Proof. solve_decision. Defined.

Record ProjectLocation : Type := mkLocation {
  Type_ : PlatformType;
  Path : string
}.

Record AcknowledgedVuln : Type := mkAck { Code : string; Reason : string }.

Record ProjectConfig : Type := mkProjectConfig {
  ReportToSlackChannel : string;
  Acknowledged : list AcknowledgedVuln
}.

(** The zero value of [ProjectConfig]. *)
Definition noConfig : ProjectConfig := mkProjectConfig "" [].

Record PatrolConfig : Type := mkPatrolConfig {
  Locations : list ProjectLocation;
  ReportToIssue : bool;
  ReportToSlackChannels : list string;
  EnableProjectReportTo : bool;
  SilentReport : bool
}.

End config.

(** ** Package scanner: vulnerabilities and reports (vulnscanner.go) *)

Module scanner.

Inductive SeverityScoreKind : Type :=
| Critical | High | Moderate | Low | Unknown | Acknowledged.

#[global] Instance SeverityScoreKind_eq_dec : EqDecision SeverityScoreKind.
Proof. solve_decision. Defined.

Record Vulnerability : Type := mkVulnerability {
  Id : string;
  PackageName : string;
  PackageVersion : string;
  PackageUrl : string;
  PackageEcosystem : string;
  Source : string;
  Severity : string;
  SeverityScoreKind_ : SeverityScoreKind;
  Summary : string;
  Details : string;
  FixAvailable : bool;
  AckReason : string
}.

(** [Report], over the type [P] of projects: [repository.Project] in
    vulnscanner.go, the GitLab client's project in patrol.go. *)
Record Report {P : Type} : Type := mkReport {
  Project : P;
  ProjectConfig : config.ProjectConfig;
  IsVulnerable : bool;
  Vulnerabilities : list Vulnerability;
  IssueUrl : string;
  Error : bool;
  OutdatedAcks : list string
}.

Arguments Report : clear implicits.
Arguments mkReport {P}.

(** [v.SeverityScoreKind = kind]. *)
Definition withKind (kind : SeverityScoreKind) (v : Vulnerability)
    : Vulnerability :=
  mkVulnerability (Id v) (PackageName v) (PackageVersion v) (PackageUrl v)
    (PackageEcosystem v) (Source v) (Severity v) kind (Summary v) (Details v)
    (FixAvailable v) (AckReason v).

(** [v.AckReason = reason]. *)
Definition withAckReason (reason : string) (v : Vulnerability)
    : Vulnerability :=
  mkVulnerability (Id v) (PackageName v) (PackageVersion v) (PackageUrl v)
    (PackageEcosystem v) (Source v) (Severity v) (SeverityScoreKind_ v)
    (Summary v) (Details v) (FixAvailable v) reason.

End scanner.

(** ** The GitLab client's project, as patrol.go uses it *)

Module gogitlab.

Record Project : Type := mkProject {
  ID : Z;
  Name : string;
  NameWithNamespace : string;
  PathWithNamespace : string;
  WebURL : string;
  HTTPURLToRepo : string
}.

End gogitlab.

(** ** Package patrol (patrol.go, lines 161-371) *)

Module patrol.
Import scanner.

Definition tempScanDir : string := "tmp_scans".

Abbreviation Report := (scanner.Report gogitlab.Project).

(** [markVulnsAsAcknowledgedInReport]: the two maps built by the first
    loop. A later entry of [config.Acknowledged] overwrites an earlier one
    with the same code. *)
Definition ackMaps (acks : list config.AcknowledgedVuln)
    : gmap string bool * gmap string string :=
  foldl
    (λ maps ack,
       (<[config.Code ack := true]> (fst maps),
        <[config.Code ack := config.Reason ack]> (snd maps)))
    (∅, ∅) acks.

(** The body of the second loop, on the element [v] at the index visited. *)
Definition markVuln (ackCodes : gmap string bool)
    (AckReasons : gmap string string) (v : Vulnerability) : Vulnerability :=
  match ackCodes !! Id v with
  | Some _ =>
      let v' := withKind Acknowledged v in
      match AckReasons !! Id v with
      | Some reason => withAckReason reason v'
      | None => v'
      end
  | None => v
  end.

(** [markVulnsAsAcknowledgedInReport(&report, config)]: the report after
    the call. Only [report.Vulnerabilities[i]] is assigned to. *)
Definition markVulnsAsAcknowledgedInReport (report : Report)
    (cfg : config.ProjectConfig) : Report :=
  let '(ackCodes, AckReasons) := ackMaps (config.Acknowledged cfg) in
  mkReport (Project report) (ProjectConfig report) (IsVulnerable report)
    (map (markVuln ackCodes AckReasons) (Vulnerabilities report))
    (IssueUrl report) (Error report) (OutdatedAcks report).

(** The acknowledgement rule in the words of the specification: a finding
    whose identifier matches a code of the configuration gets the kind
    [Acknowledged] and the configured reason (of the last entry with that
    code when there are several); every other finding is left as it is. *)
Definition acknowledge (acks : list config.AcknowledgedVuln)
    (v : Vulnerability) : Vulnerability :=
  match last (filter (λ ack, config.Code ack = Id v) acks) with
  | Some ack => withAckReason (config.Reason ack) (withKind Acknowledged v)
  | None => v
  end.

Definition acknowledgedReport (report : Report) (cfg : config.ProjectConfig)
    : Report :=
  mkReport (Project report) (ProjectConfig report) (IsVulnerable report)
    (map (acknowledge (config.Acknowledged cfg)) (Vulnerabilities report))
    (IssueUrl report) (Error report) (OutdatedAcks report).

(** The stale acknowledgements in the words of the specification: the
    codes of the configuration that no finding of the scan matches. *)
Definition staleAcks (cfg : config.ProjectConfig)
    (found : list Vulnerability) : list string :=
  filter (λ code, code ∉ map Id found)
    (map config.Code (config.Acknowledged cfg)).

Section sheriffService.
(** The collaborators of a run. [OsvReport] is the scanner's raw output.
    For one scan task the answers of the operating system, of git, of the
    configuration loader and of the scanner are functions of the task's
    arguments. *)
Context {OsvReport : Type}.

Record sheriffService : Type := mkSheriff {
  (** [os.MkdirAll(tempScanDir, os.ModePerm)] *)
  MkdirAll : string → option error;
  (** [gitlabService.GetProjectList(paths)] *)
  GetProjectList : list string → list gogitlab.Project * option error;
  (** [os.MkdirTemp(dir, pattern)] *)
  MkdirTemp : string → string → error + string;
  (** [gitService.Clone(dir, url)] *)
  Clone : string → string → option error;
  (** [config.GetProjectConfiguration(nameWithNamespace, dir)] *)
  GetProjectConfiguration : string → string → config.ProjectConfig;
  (** [osvService.Scan(dir)] *)
  Scan : string → error + OsvReport;
  (** [osvService.GenerateReport(project, report)] *)
  GenerateReport : gogitlab.Project → OsvReport → Report
}.

Variable s : sheriffService.

(** [r.ProjectConfig = config]. *)
Definition withProjectConfig (cfg : config.ProjectConfig) (r : Report)
    : Report :=
  mkReport (Project r) cfg (IsVulnerable r) (Vulnerabilities r) (IssueUrl r)
    (Error r) (OutdatedAcks r).

(** [scanProject(project)] (lines 319-349). Every [return] of the source
    gives either a report or an error, never both and never neither. *)
Definition scanProject (project : gogitlab.Project) : error + Report :=
  match MkdirTemp s tempScanDir (gogitlab.Name project +:+ "-") with
  | inl e =>
      inl (joinError
             [errors.New "failed to create project temporary directory"; e])
  | inr dir =>
      match Clone s dir (gogitlab.HTTPURLToRepo project) with
      | Some e => inl (joinError [errors.New "failed to clone project"; e])
      | None =>
          let cfg :=
            GetProjectConfiguration s (gogitlab.NameWithNamespace project)
              dir in
          match Scan s dir with
          | inl e =>
              inl (joinError [errors.New "failed to run osv-scanner"; e])
          | inr osvReport =>
              let r := GenerateReport s project osvReport in
              let r := withProjectConfig cfg r in
              inr (markVulnsAsAcknowledgedInReport r cfg)
          end
      end
  end.

(** [scanner.Report{Project: project, Error: true}]. *)
Definition errorReport (project : gogitlab.Project) : Report :=
  mkReport project config.noConfig false [] "" true [].


(** One goroutine run to its end: it sends its report and, when the scan
    failed, joins its error in front of the shared [warn]. The goroutines
    are taken to run one after the other. *)
Definition runTask (project : gogitlab.Project)
    (st : list Report * option error) : list Report * option error :=
  let '(reportsChan, warn) := st in
  match scanProject project with
  | inl e =>
      let e' :=
        joinError
          [errorString
             ("failed to scan project " +:+ gogitlab.Name project); e] in
      (reportsChan ++ [errorReport project], errors.Join [Some e'; warn])
  | inr report => (reportsChan ++ [report], warn)
  end.

(** The goroutines between their launch and [wg.Wait()], one per project
    (each closure has the [project] of its own iteration). The order in
    which they finish is not fixed by the program: [schedule] picks, at
    every step, which of the pending goroutines finishes next; when it is
    used up the rest finish in launch order. *)
Fixpoint fanOut (schedule : list nat) (pending : list gogitlab.Project)
    (st : list Report * option error) : list Report * option error :=
  match schedule with
  | [] => foldl (λ st project, runTask project st) st pending
  | i :: schedule' =>
      match pending !! i with
      | Some project =>
          fanOut schedule' (delete i pending) (runTask project st)
      | None => fanOut schedule' pending st
      end
  end.

(** The order of [slices.SortFunc] with
    [cmp.Compare(len(b.Vulnerabilities), len(a.Vulnerabilities))]: most
    vulnerabilities first. *)
Definition moreVulnerable (a b : Report) : Prop :=
  (length (Vulnerabilities b) ≤ length (Vulnerabilities a))%nat.

#[global] Instance moreVulnerable_dec : RelDecision moreVulnerable.
Proof. intros a b. unfold moreVulnerable. apply _. Defined.

(** The paths of the GitLab locations (lines 273-276). *)
Definition gitlabLocs (locations : list config.ProjectLocation)
    : list string :=
  map config.Path (filter (λ v, config.Type_ v = config.Gitlab) locations).

(** [scanAndGetReports(locations)] (lines 264-316): the reports, the
    warning and the error. [slices.SortFunc] is not stable; the sort used
    here is one of the orders it may produce. *)
Definition scanAndGetReports (schedule : list nat)
    (locations : list config.ProjectLocation)
    : list Report * option error * option error :=
  match MkdirAll s tempScanDir with
  | Some _ =>
      ([], None, Some (errors.New "could not create temporary directory"))
  | None =>
      let '(projects, pwarn) := GetProjectList s (gitlabLocs locations) in
      let warn :=
        match pwarn with
        | Some _ =>
            errors.Join
              [errors.Join
                 [Some (errors.New "errors occured when getting project list");
                  pwarn];
               None]
        | None => None
        end in
      let '(reports, warn) := fanOut schedule projects ([], warn) in
      (merge_sort moreVulnerable reports, warn, None)
  end.

(** The sinks of package publish, each answering with its warning, and the
    publications of a run in order. *)
Record publishers : Type := mkPublishers {
  PublishAsGitlabIssues : list Report → option error;
  PublishAsGeneralSlackMessage :
    string → list Report → list string → option error;
  PublishAsSpecificChannelSlackMessage : list Report → option error
}.

Inductive publication : Type :=
| IssuesPublished (reports : list Report)
| GeneralSlackPublished (channel : string) (reports : list Report)
    (paths : list string)
| SpecificSlackPublished (reports : list Report)
| ConsolePublished (reports : list Report) (silent : bool).

(** [warn = errors.Join(errors.Join(errors.New(msg), w), warn)] when the
    sink answered with the warning [w]. *)
Definition addWarning (msg : string) (w warn : option error) : option error :=
  match w with
  | Some _ => errors.Join [errors.Join [Some (errors.New msg); w]; warn]
  | None => warn
  end.

(** [Patrol(args)] (lines 212-262): the warning, the error and what was
    published. [hasSlack] is [s.slackService != nil]. *)
Definition Patrol (pub : publishers) (hasSlack : bool) (schedule : list nat)
    (args : config.PatrolConfig)
    : option error * option error * list publication :=
  let '(scanReports, swarn, err) :=
    scanAndGetReports schedule (config.Locations args) in
  match err with
  | Some e =>
      (None, Some (joinError [errors.New "failed to scan projects"; e]), [])
  | None =>
      let swarn :=
        match swarn with
        | Some _ =>
            errors.Join
              [Some (errors.New "errors occured when scanning projects"); swarn]
        | None => None
        end in
      let warn :=
        match swarn with
        | Some _ => errors.Join [swarn; None]
        | None => None
        end in
      if len scanReports =? 0 then (swarn, None, [])
      else
        let '(warn, log) :=
          if config.ReportToIssue args then
            (addWarning "errors occured when creating issues"
               (PublishAsGitlabIssues pub scanReports) warn,
             [IssuesPublished scanReports])
          else (warn, []) in
        let '(warn, log) :=
          if hasSlack then
            let '(warn, log) :=
              match config.ReportToSlackChannels args with
              | channel :: _ =>
                  let paths := map config.Path (config.Locations args) in
                  (addWarning "failed to post slack report"
                     (PublishAsGeneralSlackMessage pub channel scanReports
                        paths) warn,
                   log ++ [GeneralSlackPublished channel scanReports paths])
              | [] => (warn, log)
              end in
            if config.EnableProjectReportTo args then
              (addWarning
                 "errors occured when posting to project slack channel"
                 (PublishAsSpecificChannelSlackMessage pub scanReports) warn,
               log ++ [SpecificSlackPublished scanReports])
            else (warn, log)
          else (warn, log) in
        (warn, None,
         log ++ [ConsolePublished scanReports (config.SilentReport args)])
  end.

End sheriffService.

Arguments sheriffService : clear implicits.

(** *** Statements read from the specification, and concrete inputs *)

(** The flag rule read literally from the specification: a report is
    vulnerable exactly when one of its findings is not acknowledged. *)
Definition vulnerableIffLiveFinding (r : Report) : Prop :=
  IsVulnerable r = true
  ↔ Exists (λ v, SeverityScoreKind_ v ≠ Acknowledged) (Vulnerabilities r).

(** The run ends with a hard error. *)
Definition fatal (run : option error * option error * list publication)
    : Prop :=
  snd (fst run) ≠ None.

(** Modelled from the spec: the scanner's [GenerateReport], whose source
    (the osv scanner) is not among the files. The raw output is the list of
    classified findings; the report is vulnerable when a finding's kind is
    not [Acknowledged]; the scanner does not see the configuration and
    leaves [ProjectConfig] and [OutdatedAcks] at their zero values. *)
Definition specGenerateReport (project : gogitlab.Project)
    (raw : list Vulnerability) : Report :=
  mkReport project config.noConfig
    (bool_decide (Exists (λ v, SeverityScoreKind_ v ≠ Acknowledged) raw))
    raw "" false [].

(** A service over fixed answers: [projects] are listed, a project whose
    clone URL is ["unreachable"] cannot be cloned, every project has the
    configuration [cfg] and the scanner finds [raw] everywhere. *)
Definition fixedService (projects : list gogitlab.Project)
    (pwarn : option error) (cfg : config.ProjectConfig)
    (raw : list Vulnerability) : sheriffService (list Vulnerability) :=
  mkSheriff
    (λ _, None)
    (λ _, (projects, pwarn))
    (λ dir pattern, inr (dir +:+ "/" +:+ pattern +:+ "1"))
    (λ _ url,
       if decide (url = "unreachable")
       then Some (errorString "repository not found") else None)
    (λ _ _, cfg)
    (λ _, inr raw)
    specGenerateReport.

Definition finding (id : string) (kind : SeverityScoreKind) : Vulnerability :=
  mkVulnerability id "lodash" "4.17.0" "" "npm" "OSV" "7.5" kind "" "" true "".

Definition project (name url : string) : gogitlab.Project :=
  gogitlab.mkProject 1 name ("acme / " +:+ name) ("acme/" +:+ name)
    ("https://gitlab.com/acme/" +:+ name) url.

(** Three listed projects, the second of which cannot be cloned. *)
Definition threeProjects : list gogitlab.Project :=
  [project "api" "https://gitlab.com/acme/api.git";
   project "legacy" "unreachable";
   project "web" "https://gitlab.com/acme/web.git"].

Definition isolationService : sheriffService (list Vulnerability) :=
  fixedService threeProjects None config.noConfig [finding "CVE-1" High].

(** A run in which the only scan target does not resolve to any project,
    and sinks that never warn. *)
Definition nothingResolved : sheriffService (list Vulnerability) :=
  fixedService [] (Some (errorString "group acme/none not found"))
    config.noConfig [].

Definition quietPublishers : publishers :=
  mkPublishers (λ _, None) (λ _ _ _, None) (λ _, None).

Definition everythingOn : config.PatrolConfig :=
  config.mkPatrolConfig [config.mkLocation config.Gitlab "acme/none"] true
    ["security"] true false.

End patrol.

(** ** Package slack, continued: measures of a run and [PostMessage] *)

Module slack_service.
Import slack.

Definition isSleep (ev : retryEvent) : bool :=
  match ev with
  | Slept _ => true
  | Invoked => false
  end.

(** The number of times a run slept, and the time it slept in all. *)
Definition sleeps {T St : Type} (r : retryRun T St) : nat :=
  length (filter (λ ev, isSleep ev) (trace r)).

Definition slept (tr : list retryEvent) : Z :=
  foldr (λ ev acc, match ev with Slept d => d + acc | Invoked => acc end) 0 tr.

(** The listing call of [findSlackChannel] for the page at [cursor]
    (slack.go, lines 73-78). *)
Definition listingFrom (cursor : string) : clientCall :=
  GetConversationsCalled
    (mkParams true cursor ["private_channel"; "public_channel"] 1000).

(** The calls of a log are listing calls of [findSlackChannel]. *)
Definition listedOnly (extra : list clientCall) : Prop :=
  Forall (λ c, ∃ cursor, c = listingFrom cursor) extra.

(** Why a call did not return. *)
Inductive abort : Type := Panicked | TimedOut.

Section postMessage.
Context {C MsgOption : Type}.
Variable s : service C MsgOption.

(** Between two states of the resolution attempts, the log grew by listing
    calls only. *)
Definition grewByListing (st st' : world C * option abort) : Prop :=
  ∃ extra, calls (fst st') = calls (fst st) ++ extra ∧ listedOnly extra.

(** The closure [func() { return s.findSlackChannel(channelName) }] that
    [PostMessage] retries. A resolution that does not return ends the whole
    call: the state records why, the closure answers with a nil error, on
    which the retry loop stops at once, and [PostMessage] below reports the
    abort instead of a result. *)
Definition resolveOnce (channelName : string) (fuel : nat)
    (st : world C * option abort)
    : (option Channel * option error) * (world C * option abort) :=
  match st with
  | (_, Some _) => ((None, None), st)
  | (w, None) =>
      match findSlackChannel s channelName fuel w with
      | Ret (r, w') => (r, (w', None))
      | Panic => ((None, None), (w, Some Panicked))
      | Timeout => ((None, None), (w, Some TimedOut))
      end
  end.

Definition callPostMessage (channelID : string) (options : list MsgOption)
    (w : world C) : (string * string * option error) * world C :=
  let '(r, c') := slack.PostMessage (client s) channelID options (remote w) in
  (r, mkWorld c' (calls w ++ [PostMessageCalled channelID])).

(** The closure retried for the post (lines 51-54). *)
Definition postOnce (channelID : string) (options : list MsgOption)
    (w : world C) : (string * option error) * world C :=
  let '((_, msgTs, e), w') := callPostMessage channelID options w in
  ((msgTs, e), w').

(** [PostMessage(channelName, options...)] of the service (lines 45-62):
    the timestamp, the error and the world after the call. [fuel] bounds
    the pages of every resolution. *)
Definition PostMessage (channelName : string) (options : list MsgOption)
    (fuel : nat) (w : world C)
    : outcome ((string * option error) * world C) :=
  let resolved :=
    runWithRetries None (resolveOnce channelName fuel) (maxAttempts s)
      (initialBackoff s) (w, None) in
  match snd (final resolved) with
  | Some Panicked => Panic
  | Some TimedOut => Timeout
  | None =>
      match err resolved with
      | Some e => Ret (("", Some e), fst (final resolved))
      | None =>
          match result resolved with
          | None => Panic
          | Some channel =>
              let posted :=
                runWithRetries "" (postOnce (ID channel) options)
                  (maxAttempts s) (initialBackoff s) (fst (final resolved)) in
              match err posted with
              | Some e =>
                  Ret ((result posted,
                        errors.Join
                          [Some (errors.New "failed to post slack message");
                           Some e]),
                       final posted)
              | None => Ret ((result posted, None), final posted)
              end
          end
      end
  end.

(** [c] is the first channel named [channelName] on a page that the
    client answered, without an error, to the listing call [call]. *)
Definition firstNamedOn (channelName : string) (call : clientCall)
    (c : Channel) : Prop :=
  ∃ cursor st chans next st' before after,
    call = listingFrom cursor
    ∧ GetConversations (client s)
        (mkParams true cursor ["private_channel"; "public_channel"] 1000) st
      = ((chans, next, None), st')
    ∧ chans = before ++ c :: after
    ∧ Forall (λ x, Name x ≠ channelName) before
    ∧ Name c = channelName.

End postMessage.

End slack_service.

(** ** Go package strings, for a one-byte separator *)

Module gostrings.

(** [strings.Split(s, sep)] where [sep] is the one byte [sep]: the pieces
    of [s] between the separators, an empty piece included; never an empty
    slice. *)
Fixpoint Split (s : string) (sep : Ascii.ascii) : list string :=
  match s with
  | EmptyString => [EmptyString]
  | String c t =>
      if decide (c = sep) then EmptyString :: Split t sep
      else
        match Split t sep with
        | [] => [String c EmptyString]
        | piece :: pieces => String c piece :: pieces
        end
  end.

(** [strings.Join(elems, sep)]. *)
Fixpoint Join (elems : list string) (sep : string) : string :=
  match elems with
  | [] => ""
  | x :: rest =>
      match rest with
      | [] => x
      | _ :: _ => x +:+ sep +:+ Join rest sep
      end
  end.

(** The number of bytes of [s] equal to [sep]. *)
Fixpoint Count (s : string) (sep : Ascii.ascii) : nat :=
  match s with
  | EmptyString => O
  | String c t => if decide (c = sep) then S (Count t sep) else Count t sep
  end.

End gostrings.

(** ** Package github, continued: listing the repositories (github.go) *)

Module github_listing.

(** [github.Repository], with the pointer fields the service reads; [Owner]
    is nil, or a user whose [Login] is itself a pointer. *)
Record Repository : Type := mkRepository {
  ID : option Z;
  Name : option string;
  FullName : option string;
  HTMLURL : option string;
  Owner : option (option string)
}.

(** [github.ListOptions]. *)
Record ListOptions : Type := mkListOptions { Page : Z; PerPage : Z }.

(** The calls the listing makes on its client; the second argument of a
    user listing is the [Type] of [RepositoryListByUserOptions]. *)
Inductive clientCall : Type :=
| GetRepositoryCalled (owner repo : string)
| GetOrganizationRepositoriesCalled (org : string) (opts : ListOptions)
| GetUserRepositoriesCalled (user type : string) (opts : ListOptions).

Section pagination.
(** [getGithubPaginatedResults] (lines 265-285), over the state [St] the
    paginated function acts on. The function answers with an error, or
    with the results of the page and the number of the next page. *)
Context {T St : Type}.
Variable paginatedFunc : ListOptions → St → (error + list T * Z) * St.

Fixpoint paginate (fuel : nat) (opts : ListOptions) (results : list T)
    (st : St) : outcome ((list T * option error) * St) :=
  match fuel with
  | O => Timeout
  | S fuel' =>
      let '(r, st') := paginatedFunc opts st in
      match r with
      | inl e => Ret (([], Some e), st')
      | inr (pageResults, nextPage) =>
          let results := results ++ pageResults in
          if nextPage =? 0 then Ret ((results, None), st')
          else paginate fuel' (mkListOptions nextPage (PerPage opts)) results st'
      end
  end.

Definition getGithubPaginatedResults (fuel : nat) (st : St)
    : outcome ((list T * option error) * St) :=
  paginate fuel (mkListOptions 1 100) [] st.

End pagination.

(** The state after the paginated function has served, one after the
    other, the [k] pages that follow page [i]. *)
Fixpoint served {T St : Type}
    (f : ListOptions → St → (error + list T * Z) * St)
    (i k : nat) (st : St) : St :=
  match k with
  | O => st
  | S k' => served f (S i) k' (snd (f (mkListOptions (Z.of_nat i + 1) 100) st))
  end.

(** [valueOrEmpty(val)]: the value pointed to, or the zero value. *)
Definition valueOrEmpty {T : Type} (zero : T) (val : option T) : T :=
  match val with
  | Some v => v
  | None => zero
  end.

(** [mapGithubProject(r)] (lines 313-330). *)
Definition mapGithubProject (r : Repository) : repository.Project :=
  let groupName :=
    match Owner r with
    | Some owner => valueOrEmpty "" owner
    | None => ""
    end in
  repository.mkProject
    (valueOrEmpty 0 (ID r))
    (valueOrEmpty "" (Name r))
    (valueOrEmpty "" (Name r))
    (valueOrEmpty "" (FullName r))
    (valueOrEmpty "" (Some groupName))
    (valueOrEmpty "" (HTMLURL r))
    (valueOrEmpty "" (HTMLURL r))
    repository.Github.

(** [derefRepoPtrs(owner, repoPtrs)] (lines 296-311): the loop keeps the
    repositories and counts the nil pointers it skips. *)
Definition derefStep (acc : list Repository * Z) (repo : option Repository)
    : list Repository * Z :=
  match repo with
  | None => (fst acc, snd acc + 1)
  | Some r => (fst acc ++ [r], snd acc)
  end.

Definition derefRepoPtrs (owner : string)
    (repoPtrs : list (option Repository)) : list Repository :=
  fst (foldl derefStep ([], 0) repoPtrs).

Section service.
Context {C : Type}.

Record iGithubClient : Type := mkClient {
  GetRepository :
    string → string → C → (option Repository * option error) * C;
  GetOrganizationRepositories :
    string → ListOptions → C → (error + list (option Repository) * Z) * C;
  GetUserRepositories :
    string → string → ListOptions → C →
    (error + list (option Repository) * Z) * C
}.

Variable client : iGithubClient.

Record world : Type := mkWorld { remote : C; calls : list clientCall }.

Definition callOrganizationRepositories (org : string) (opts : ListOptions)
    (w : world) : (error + list (option Repository) * Z) * world :=
  let '(r, c') := GetOrganizationRepositories client org opts (remote w) in
  (r, mkWorld c' (calls w ++ [GetOrganizationRepositoriesCalled org opts])).

Definition callUserRepositories (user : string) (opts : ListOptions)
    (w : world) : (error + list (option Repository) * Z) * world :=
  let '(r, c') := GetUserRepositories client user "owner" opts (remote w) in
  (r, mkWorld c' (calls w ++ [GetUserRepositoriesCalled user "owner" opts])).

Definition callRepository (owner name : string) (w : world)
    : (option Repository * option error) * world :=
  let '(r, c') := GetRepository client owner name (remote w) in
  (r, mkWorld c' (calls w ++ [GetRepositoryCalled owner name])).

(** [getOrganizationRepos(org)] and [getUserRepos(user)]. *)
Definition getOrganizationRepos (fuel : nat) (org : string) (w : world)
    : outcome ((list (option Repository) * option error) * world) :=
  getGithubPaginatedResults (callOrganizationRepositories org) fuel w.

Definition getUserRepos (fuel : nat) (user : string) (w : world)
    : outcome ((list (option Repository) * option error) * world) :=
  getGithubPaginatedResults (callUserRepositories user) fuel w.

(** [getOwnerRepos(owner)] (lines 226-240): as an organization first, as a
    user when that fails. *)
Definition getOwnerRepos (fuel : nat) (owner : string) (w : world)
    : outcome ((list Repository * option error) * world) :=
  match getOrganizationRepos fuel owner w with
  | Timeout => Timeout
  | Panic => Panic
  | Ret ((repoPtrs, None), w1) =>
      Ret ((derefRepoPtrs owner repoPtrs, None), w1)
  | Ret ((_, Some _), w1) =>
      match getUserRepos fuel owner w1 with
      | Timeout => Timeout
      | Panic => Panic
      | Ret ((repoPtrs, None), w2) =>
          Ret ((derefRepoPtrs owner repoPtrs, None), w2)
      | Ret ((_, Some e), w2) =>
          Ret (([],
                errors.Join
                  [Some (errorString
                           ("could not fetch repos for owner " +:+ owner));
                   Some e]),
               w2)
      end
  end.

(** [getOwnerRepository(owner, name)] (lines 287-294). *)
Definition getOwnerRepository (owner name : string) (w : world)
    : (option Repository * option error) * world :=
  let '((repo, e), w') := callRepository owner name w in
  match e with
  | Some e => ((None, Some e), w')
  | None => ((repo, None), w')
  end.

(** [getPathRepos(path)] (lines 207-224). *)
Definition getPathRepos (fuel : nat) (path : string) (w : world)
    : outcome ((list Repository * option error) * world) :=
  let parts := gostrings.Split path "/"%char in
  match parts with
  | [owner] => getOwnerRepos fuel owner w
  | [owner; name] =>
      let '((repo, e), w') := getOwnerRepository owner name w in
      match e with
      | Some e =>
          Ret (([],
                errors.Join
                  [Some (errorString ("failed to get repository " +:+ path));
                   Some e]),
               w')
      | None =>
          match repo with
          | None =>
              Ret (([], Some (errors.New "repository unexpectedly nil")), w')
          | Some r => Ret (([r], None), w')
          end
      end
  | _ =>
      Ret (([],
            Some (errorString
                    ("project " +:+ path +:+ " path of unexpected length "
                       +:+ pretty (len parts)))),
           w)
  end.

End service.

Arguments iGithubClient : clear implicits.
Arguments world : clear implicits.

(** *** Concrete inputs *)

(** The options for page [i+1], and the number that follows page [i+1] of
    [n] pages numbered from 1. *)
Definition pageOptions (i : nat) : ListOptions :=
  mkListOptions (Z.of_nat i + 1) 100.

Definition nextOf (n i : nat) : Z :=
  if decide (S i < n)%nat then Z.of_nat i + 2 else 0.

Definition repo (owner name : string) : Repository :=
  mkRepository (Some 1) (Some name) (Some (owner +:+ "/" +:+ name))
    (Some ("https://github.com/" +:+ owner +:+ "/" +:+ name))
    (Some (Some owner)).

(** A client for the user [octocat]: no organization has that name, the
    user's repositories come in two pages, the second of which holds a nil
    pointer. *)
Definition octocatClient : iGithubClient unit :=
  mkClient
    (λ owner name c, ((Some (repo owner name), None), c))
    (λ _ _ c, (inl (errorString "404 Not Found"), c))
    (λ _ _ opts c,
       if Page opts =? 1
       then (inr ([Some (repo "octocat" "hello")], 2), c)
       else (inr ([None; Some (repo "octocat" "spoon")], 0), c)).

(** A client for the organization [acme], whose repositories fit one page;
    no user has that name. *)
Definition acmeClient : iGithubClient unit :=
  mkClient
    (λ owner name c, ((Some (repo owner name), None), c))
    (λ _ _ c, (inr ([Some (repo "acme" "api"); Some (repo "acme" "web")], 0), c))
    (λ _ _ _ c, (inl (errorString "404 Not Found"), c)).

(** Two sources of numbers: one serves two pages, the other serves one page
    and fails on the second. *)
Definition twoPages (opts : ListOptions) (st : unit)
    : (error + list Z * Z) * unit :=
  if Page opts =? 1 then (inr ([1; 2], 2), st) else (inr ([3], 0), st).

Definition breaksOnSecond (opts : ListOptions) (st : unit)
    : (error + list Z * Z) * unit :=
  if Page opts =? 1 then (inr ([1; 2], 2), st)
  else (inl (errorString "502 Bad Gateway"), st).

End github_listing.

(** ** Package patrol, the earlier revision: [parseGroupPaths] *)

Module patrol_paths.

(** [parseGroupPaths(path)] (patrol.go, lines 149-160). *)
Definition parseGroupPaths (path : string) : list string * option error :=
  if decide (path = "") then
    ([], Some (errorString ("gitlab path missing: " +:+ path)))
  else
    let paths := gostrings.Split path "/"%char in
    if len paths =? 0 then
      ([], Some (errorString ("gitlab path incomplete: " +:+ path)))
    else (paths, None).

End patrol_paths.

(** ** Trackers for concrete runs *)

Module github_inputs.
Import github.

(** A tracker without any issue, which creates what it is asked to. *)
Definition emptyTracker : iGithubClient unit :=
  mkClient
    (λ _ _ _ c, (inr ([], 0), c))
    (λ _ _ req c,
       ((Some (mkIssue 1 (default "" (reqTitle req)) "open"
                 "https://github.com/acme/widget/issues/1"), None), c))
    (λ _ _ number req c, ((None, Some (errorString "404 Not Found")), c)).

(** A tracker whose second page holds the tracked issue, closed, and which
    does not reopen it when asked to. *)
Definition stubbornTracker (title : string) : iGithubClient unit :=
  mkClient
    (λ _ _ page c,
       if page =? 0
       then (inr ([None; Some (mkIssue 3 "Other issue" "open" "")], 2), c)
       else (inr ([Some (mkIssue 7 title "closed" "")], 0), c))
    (λ _ _ _ c, ((None, Some (errorString "403 Forbidden")), c))
    (λ _ _ number req c, ((Some (mkIssue number title "closed" ""), None), c)).

(** A tracker that cannot be reached. *)
Definition unreachableTracker : iGithubClient unit :=
  mkClient
    (λ _ _ _ c, (inl (errorString "connection refused"), c))
    (λ _ _ _ c, ((None, Some (errorString "connection refused")), c))
    (λ _ _ _ _ c, ((None, Some (errorString "connection refused")), c)).

End github_inputs.

(** ** Package github, continued: the pages of a lookup *)

Module github_lookup.
Import github.

Section lookup.
Context {C : Type}.
Variable VulnerabilityIssueTitle : string.
Variable client : iGithubClient C.

(** The pages a lookup goes through after [page], asked in the state [c]
    of the tracker: each of [pages] is the next page that the tracker
    named, not 0, in its answer to the listing of the page before, an
    answer without the tracked issue; the tracker is then in the state
    that this answer left. [lastPage] and [cLast] are the page asked last
    and the state of the tracker when it is asked. *)
Fixpoint pagesFollowed (owner repo : string) (page : Z) (c : C)
    (pages : list Z) (lastPage : Z) (cLast : C) : Prop :=
  match pages with
  | [] => page = lastPage ∧ c = cLast
  | nextPage :: pages' =>
      ∃ issues c',
        ListRepositoryIssues client owner repo page c
        = (inr (issues, nextPage), c')
        ∧ firstTracked VulnerabilityIssueTitle issues = None
        ∧ nextPage ≠ 0
        ∧ pagesFollowed owner repo nextPage c' pages' lastPage cLast
  end.

(** What the lookup returns on the answer to its last listing: the error
    of a failed listing; else the first tracked issue of the page, and,
    when there is none, the page was the last one. *)
Definition lookupResult (resp : error + list (option Issue) * Z)
    (found : option Issue) (e : option error) : Prop :=
  match resp with
  | inl err => found = None ∧ e = Some err
  | inr (issues, nextPage) =>
      found = firstTracked VulnerabilityIssueTitle issues
      ∧ e = None
      ∧ (found = None → nextPage = 0)
  end.

End lookup.

End github_lookup.

(** ** Package github, continued: project paths (github_client.go) *)

Module github_paths.

(** [extractOwnerRepo(path)] (lines 288-294). Both indices are in range
    once the length is 2. *)
Definition extractOwnerRepo (path : string)
    : (string * string) * option error :=
  let parts := gostrings.Split path "/" in
  if negb (len parts =? 2) then
    (("", ""),
     Some (errorString
             ("invalid GitHub project path format, expected 'owner/repo', got: "
                +:+ path)))
  else ((default "" (parts !! 0%nat), default "" (parts !! 1%nat)), None).

End github_paths.

(** ** The Slack library's message values *)

Module goslack.

Record TextBlockObject : Type := NewTextBlockObject {
  Type_ : string;
  Text : string;
  Emoji : bool;
  Verbatim : bool
}.

(** The blocks the publisher builds; a section block never gets an
    accessory. *)
Inductive Block : Type :=
| NewHeaderBlock (text : TextBlockObject)
| NewContextBlock (blockID : string) (elements : list TextBlockObject)
| NewSectionBlock (text : option TextBlockObject)
    (fields : list TextBlockObject).

Inductive MsgOption : Type :=
| MsgOptionBlocks (blocks : list Block)
| MsgOptionTS (ts : string).

End goslack.

(** ** Package publish, continued: the Slack messages (slack.go) *)

Module publish_slack.
Import scanner goslack.

Abbreviation Report := (scanner.Report gogitlab.Project).

(** The line feed and the tab of the Go string literals. *)
Definition LF : string := String "010"%char "".
Definition TAB : string := String "009"%char "".

(** A [SeverityScoreKind] printed with [%v]: its string value
    (vulnscanner.go, lines 11-18). *)
Definition kindString (kind : SeverityScoreKind) : string :=
  match kind with
  | Critical => "CRITICAL"
  | High => "HIGH"
  | Moderate => "MODERATE"
  | Low => "LOW"
  | Unknown => "UNKNOWN"
  | Acknowledged => "ACKNOWLEDGED"
  end.

#[global] Instance SeverityScoreKind_countable : Countable SeverityScoreKind.
Proof.
  refine (inj_countable'
            (λ k, match k with
                  | Critical => 0 | High => 1 | Moderate => 2
                  | Low => 3 | Unknown => 4 | Acknowledged => 5
                  end%nat)
            (λ n, match n with
                  | 0 => Critical | 1 => High | 2 => Moderate
                  | 3 => Low | 4 => Unknown | _ => Acknowledged
                  end%nat) _).
  by intros [].
Defined.

(** The lines of one report in the threaded message (lines 405-419). *)
Definition reportLines (r : Report) : string :=
  let projectName :=
    "<" +:+ gogitlab.WebURL (Project r) +:+ "|*"
      +:+ gogitlab.Name (Project r) +:+ "*>" +:+ LF in
  let reportUrl :=
    if decide (IssueUrl r = "")
    then TAB +:+ "_full report unavailable_" +:+ TAB +:+ TAB
    else TAB +:+ "<" +:+ IssueUrl r +:+ "|Full report>" +:+ TAB +:+ TAB in
  let vulnerabilityCount :=
    TAB +:+ "Vulnerability count: *" +:+ pretty (len (Vulnerabilities r))
      +:+ "*" in
  projectName +:+ reportUrl +:+ vulnerabilityCount +:+ LF.

(** What one severity kind adds to the text (lines 399-421). *)
Definition kindSection (reportsBySeverityKind : gmap SeverityScoreKind (list Report))
    (kind : SeverityScoreKind) : string :=
  match reportsBySeverityKind !! kind with
  | Some group =>
      if len group =? 0 then ""
      else
        "Projects with vulnerabilities of *" +:+ kindString kind
          +:+ "* severity" +:+ LF
          +:+ foldl (λ text r, text +:+ reportLines r) "" group +:+ LF
  | None => ""
  end.

(** One message option for a chunk of the text (line 429). *)
Definition chunkOption (chunk : list byte) : MsgOption :=
  MsgOptionBlocks
    [NewSectionBlock
       (Some (NewTextBlockObject "mrkdwn" (String.string_of_list_byte chunk)
                false false))
       []].

Section publisher.
(** The order of the severity kinds, a package variable computed from the
    threshold table; the date [time.Now()] prints; the grouping of the
    reports by their highest severity kind, a function of the package that
    is another file's; and the [IService] of package slack over the state
    [W] of the chat platform. *)
Variable severityScoreOrder : list SeverityScoreKind.
Variable today : string.
Variable groupVulnReportsByMaxSeverityKind :
  list Report → gmap SeverityScoreKind (list Report).
Context {W : Type}.
Variable PostMessage : string → list MsgOption → W → (string * option error) * W.

(** The text that [formatReportMessage] builds before it splits it. *)
Definition reportText
    (reportsBySeverityKind : gmap SeverityScoreKind (list Report)) : string :=
  foldl (λ text kind, text +:+ kindSection reportsBySeverityKind kind) ""
    severityScoreOrder.

(** [formatReportMessage(reportsBySeverityKind)] (lines 396-433). *)
Definition formatReportMessage
    (reportsBySeverityKind : gmap SeverityScoreKind (list Report))
    : outcome (list MsgOption) :=
  match publish.splitMessage
          (String.list_byte_of_string (reportText reportsBySeverityKind)) 3000 with
  | Ret splitText => Ret (map chunkOption splitText)
  | Panic => Panic
  | Timeout => Timeout
  end.

(** [formatSubtitleList(entity, list)] (lines 344-355). *)
Definition formatSubtitleList (entity : string) (list : list string) : Block :=
  let text :=
    match list with
    | [] => "no " +:+ entity +:+ " scanned"
    | [one] => entity +:+ " scanned: " +:+ one
    | _ :: _ :: _ =>
        entity +:+ " scanned:" +:+ LF +:+ TAB +:+ "- "
          +:+ gostrings.Join list (LF +:+ TAB +:+ "- ")
    end in
  NewContextBlock (entity +:+ "-subtitle")
    [NewTextBlockObject "mrkdwn" text false false].

(** [formatSummary(reportsBySeverityKind, totalReports, paths)]
    (lines 358-393). *)
Definition formatSummary
    (reportsBySeverityKind : gmap SeverityScoreKind (list Report))
    (totalReports : Z) (paths : list string) : list MsgOption :=
  let title :=
    NewHeaderBlock
      (NewTextBlockObject "plain_text" ("Security Scan Report " +:+ today)
         true false) in
  let subtitleGroups := formatSubtitleList "targets" paths in
  let subtitleCount :=
    NewContextBlock "subtitleCount"
      [NewTextBlockObject "mrkdwn"
         ("Total projects scanned: " +:+ pretty totalReports) false false] in
  let counts :=
    map (λ kind,
           match reportsBySeverityKind !! kind with
           | Some group =>
               NewTextBlockObject "mrkdwn"
                 (kindString kind +:+ ": *" +:+ pretty (len group) +:+ "*")
                 false false
           | None =>
               NewTextBlockObject "mrkdwn"
                 (kindString kind +:+ ": *" +:+ pretty (0 : Z) +:+ "*") false false
           end)
      severityScoreOrder in
  let countsTitle :=
    NewSectionBlock
      (Some (NewTextBlockObject "mrkdwn" "*Vulnerability Counts*" false false))
      [] in
  let countsBlock := NewSectionBlock None counts in
  [MsgOptionBlocks
     [title; subtitleGroups; subtitleCount; countsTitle; countsBlock]].

(** The world of a publisher: the state of the chat service and the posts
    made, each with its channel and its options. *)
Record world : Type := mkWorld {
  remote : W;
  posts : list (string * list MsgOption)
}.

Definition callPostMessage (channelName : string) (options : list MsgOption)
    (w : world) : (string * option error) * world :=
  let '(r, c') := PostMessage channelName options (remote w) in
  (r, mkWorld c' (posts w ++ [(channelName, options)])).

(** The loop over the message options (lines 253-262). *)
Fixpoint postReplies (channelName ts : string) (msgOptions : list MsgOption)
    (w : world) : option error * world :=
  match msgOptions with
  | [] => (None, w)
  | option :: rest =>
      let '((_, e), w') :=
        callPostMessage channelName [option; MsgOptionTS ts] w in
      match e with
      | Some e =>
          (errors.Join
             [Some (errors.New "failed to message in slack summary thread");
              Some e],
           w')
      | None => postReplies channelName ts rest w'
      end
  end.

(** [PublishAsGeneralSlackMessage(channelName, reports, paths, s)]
    (lines 242-265). *)
Definition PublishAsGeneralSlackMessage (channelName : string)
    (reports : list Report) (paths : list string) (w : world)
    : outcome (option error * world) :=
  let vulnerableReportsBySeverityKind :=
    groupVulnReportsByMaxSeverityKind reports in
  let summary :=
    formatSummary vulnerableReportsBySeverityKind (len reports) paths in
  let '((ts, e), w1) := callPostMessage channelName summary w in
  match e with
  | Some e =>
      Ret (errors.Join
             [Some (errors.New "failed to post slack summary"); Some e],
           w1)
  | None =>
      match formatReportMessage vulnerableReportsBySeverityKind with
      | Ret msgOptions => Ret (postReplies channelName ts msgOptions w1)
      | Panic => Panic
      | Timeout => Timeout
      end
  end.

(** [len(pie.Filter(report.Vulnerabilities, ... == kind))]. *)
Definition countKind (kind : SeverityScoreKind) (report : Report) : Z :=
  len (filter (λ v, SeverityScoreKind_ v = kind) (Vulnerabilities report)).

(** [formatSpecificChannelSlackMessage(report)] (lines 292-342). *)
Definition formatSpecificChannelSlackMessage (report : Report)
    : list MsgOption :=
  let title := "Sheriff Report " +:+ today in
  let subtitle :=
    "Project: <" +:+ gogitlab.WebURL (Project report) +:+ "|*"
      +:+ gogitlab.PathWithNamespace (Project report) +:+ "*>" in
  let subtitleFullReport :=
    if decide (IssueUrl report = "")
    then TAB +:+ "_full report unavailable_" +:+ TAB +:+ TAB
    else "Full report: <" +:+ IssueUrl report +:+ "|*Full report*>" in
  let countsTitle :=
    "*Vulnerability Counts* (total "
      +:+ pretty (len (Vulnerabilities report)) +:+ ")" in
  let count (label : string) (kind : SeverityScoreKind) :=
    NewTextBlockObject "mrkdwn"
      (label +:+ ": *" +:+ pretty (countKind kind report) +:+ "*")
      false false in
  [MsgOptionBlocks
     [NewHeaderBlock (NewTextBlockObject "plain_text" title true false);
      NewContextBlock "subtitle"
        [NewTextBlockObject "mrkdwn" subtitle false false];
      NewContextBlock "subtitleFullReport"
        [NewTextBlockObject "mrkdwn" subtitleFullReport false false];
      NewSectionBlock
        (Some (NewTextBlockObject "mrkdwn" countsTitle false false)) [];
      NewSectionBlock None
        [count "Critical" Critical; count "High" High;
         count "Moderate" Moderate; count "Low" Low;
         count "Unknown" Unknown; count "Acknowledged" Acknowledged]]].

(** The goroutine of one configured report (lines 274-284): it posts, and
    on failure joins its error in front of the shared [warn]. *)
Definition postReport (report : Report) (st : option error * world)
    : option error * world :=
  let '(warn, w) := st in
  let channel := config.ReportToSlackChannel (ProjectConfig report) in
  let '((_, e), w') :=
    callPostMessage channel (formatSpecificChannelSlackMessage report) w in
  match e with
  | Some _ =>
      (errors.Join
         [Some (errorString
                  ("failed to post slack report to channel " +:+ channel));
          warn],
       w')
  | None => (warn, w')
  end.

(** The goroutines between their launch and [wg.Wait()]: [schedule] picks
    which of the pending ones runs next, each running to its end; when it
    is used up the rest run in launch order. *)
Fixpoint postAll (schedule : list nat) (pending : list Report)
    (st : option error * world) : option error * world :=
  match schedule with
  | [] => foldl (λ st report, postReport report st) st pending
  | i :: schedule' =>
      match pending !! i with
      | Some report => postAll schedule' (delete i pending) (postReport report st)
      | None => postAll schedule' pending st
      end
  end.

(** [PublishAsSpecificChannelSlackMessage(reports, s)] (lines 267-290). *)
Definition PublishAsSpecificChannelSlackMessage (schedule : list nat)
    (reports : list Report) (w : world) : option error * world :=
  let configuredReports :=
    filter
      (λ r, config.ReportToSlackChannel (ProjectConfig r) ≠ "") reports in
  postAll schedule configuredReports (None, w).

End publisher.

Arguments world : clear implicits.

(** *** Concrete inputs *)

(** A chat service that stamps every message with the same timestamp and
    refuses the channel [archived]. *)
Definition stampingService (channelName : string) (options : list MsgOption)
    (c : unit) : (string * option error) * unit :=
  if decide (channelName = "archived")
  then (("", Some (errorString "is_archived")), c)
  else (("1700000000.000100", None), c).

Definition displayOrder : list SeverityScoreKind :=
  [Critical; High; Moderate; Low; Unknown; Acknowledged].

(** A grouping that puts every report under [High]. *)
Definition allHigh (reports : list Report)
    : gmap SeverityScoreKind (list Report) :=
  {[ High := reports ]}.

Definition reportOf (name channel : string) : Report :=
  mkReport
    (gogitlab.mkProject 1 name ("acme / " +:+ name) ("acme/" +:+ name)
       ("https://gitlab.com/acme/" +:+ name) "")
    (config.mkProjectConfig channel []) true [] "" false [].

End publish_slack.

(* ================================================================== *)
(** * Properties *)

Module publish_facts.
Import publish.

Lemma LastIndex_range s : -1 <= LastIndex s < len s.
Proof.
  unfold len. induction s as [|b t IH]; simpl; [lia|].
  destruct (0 <=? LastIndex t) eqn:E; [lia|].
  destruct (decide (b = newline)); lia.
Qed.

Lemma LastIndex_none s : LastIndex s = -1 ↔ newline ∉ s.
Proof.
  induction s as [|b t IH]; simpl.
  - split; [intros _; apply not_elem_of_nil | done].
  - pose proof (LastIndex_range t) as R.
    destruct (0 <=? LastIndex t) eqn:E.
    + apply Z.leb_le in E. split; [lia|].
      intros Hn. exfalso. assert (LastIndex t ≠ -1) as Hne by lia.
      apply Hne, IH. intros Hin. apply Hn. by right.
    + apply Z.leb_gt in E. assert (LastIndex t = -1) as Ht by lia.
      apply IH in Ht. destruct (decide (b = newline)) as [->|Hb].
      * split; [lia|]. intros Hn. exfalso. apply Hn. by left.
      * split; [|done]. intros _ Hin.
        apply elem_of_cons in Hin as [Heq|Hin]; [by symmetry in Heq|done].
Qed.

(** When a newline exists, [LastIndex] splits the text right after the
    last one. *)
Lemma LastIndex_split s :
  0 <= LastIndex s →
  ∃ pre tail, s = pre ++ newline :: tail
              ∧ len pre = LastIndex s ∧ newline ∉ tail.
Proof.
  unfold len. induction s as [|b t IH]; simpl; [lia|].
  pose proof (LastIndex_range t) as R.
  destruct (0 <=? LastIndex t) eqn:E.
  - apply Z.leb_le in E. intros _.
    destruct (IH E) as (pre & tail & -> & Hl & Hn).
    exists (b :: pre), tail. simpl. split; [done|]. split; [lia|done].
  - apply Z.leb_gt in E. destruct (decide (b = newline)) as [->|Hb]; [|lia].
    intros _. exists [], t. split; [done|]. split; [done|].
    apply LastIndex_none. lia.
Qed.

Lemma cutIndex_range s maxLen :
  0 < maxLen → 1 <= cutIndex s maxLen <= maxLen.
Proof.
  intros Hpos. unfold cutIndex.
  pose proof (LastIndex_range (take (Z.to_nat maxLen) s)) as R.
  unfold len in R. rewrite length_take in R.
  destruct (LastIndex (take (Z.to_nat maxLen) s) =? -1) eqn:E; lia.
Qed.

Lemma cutIndex_rule s maxLen :
  0 < maxLen → maxLen < len s →
  cutAfterLastNewline maxLen s (take (Z.to_nat (cutIndex s maxLen)) s).
Proof.
  intros Hpos Hlen. unfold cutAfterLastNewline, cutIndex. cbv zeta.
  set (window := take (Z.to_nat maxLen) s).
  pose proof (LastIndex_range window) as R.
  assert (length window = Z.to_nat maxLen) as Hw.
  { unfold window, len in *. rewrite length_take. lia. }
  destruct (LastIndex window =? -1) eqn:E.
  - apply Z.eqb_eq in E. apply LastIndex_none in E. split; [done|].
    intros _. split; [done|]. unfold len. fold window. lia.
  - apply Z.eqb_neq in E. split.
    + intros _. destruct (LastIndex_split window) as (pre & tail & Hs & Hl & Hn);
        [lia|].
      exists tail. unfold len in Hl.
      assert (take (Z.to_nat (LastIndex window + 1)) s = pre ++ [newline]) as ->.
      { replace (Z.to_nat (LastIndex window + 1)) with (length (pre ++ [newline]))
          by (rewrite length_app; simpl; lia).
        assert (length (pre ++ [newline]) ≤ Z.to_nat maxLen)%nat as Hle.
        { rewrite <- Hw, Hs, !length_app. simpl. lia. }
        rewrite <- (Nat.min_l _ _ Hle), <- take_take. fold window.
        rewrite Hs, (cons_middle newline pre tail), app_assoc.
        apply take_app_length. }
      split; [by rewrite Hs, <- app_assoc|]. split; [apply last_snoc|done].
    + intros Hn. apply LastIndex_none in Hn. lia.
Qed.

Lemma boundaries_cons P s c rest :
  rest ≠ [] →
  P s c → boundaries P (drop (length c) s) rest →
  boundaries P s (c :: rest).
Proof. destruct rest; [done|]. intros _ ? ?. by split. Qed.

(** The loop invariant: with fuel for every byte still to cut, the loop
    returns, and the chunks it appends partition the remaining text. *)
Lemma splitLoop_spec maxLen fuel :
  0 < maxLen →
  ∀ chunks s, (length s ≤ fuel)%nat →
  ∃ cs, splitLoop fuel chunks s maxLen = Ret (chunks ++ cs)
        ∧ cs ≠ []
        ∧ concat cs = s
        ∧ Forall (λ c, len c <= maxLen) cs
        ∧ boundaries (cutAfterLastNewline maxLen) s cs.
Proof.
  intros Hpos. induction fuel as [|fuel IH]; intros chunks s Hfuel; simpl.
  - destruct (maxLen <? len s) eqn:E.
    { apply Z.ltb_lt in E. unfold len in E. lia. }
    apply Z.ltb_ge in E. exists [s]. simpl. rewrite app_nil_r.
    repeat split; [done|by constructor].
  - destruct (maxLen <? len s) eqn:E.
    + apply Z.ltb_lt in E.
      pose proof (cutIndex_range s maxLen Hpos) as R.
      set (idx := cutIndex s maxLen) in *.
      assert (length (take (Z.to_nat idx) s) = Z.to_nat idx) as Hc.
      { rewrite length_take. unfold len in E. lia. }
      destruct (IH (chunks ++ [take (Z.to_nat idx) s]) (drop (Z.to_nat idx) s))
        as (cs & Hrun & Hne & Hcat & Hlen & Hb).
      { rewrite length_drop. unfold len in E. lia. }
      exists (take (Z.to_nat idx) s :: cs).
      split; [by rewrite Hrun, <- app_assoc|]. split; [done|].
      split; [simpl; by rewrite Hcat, take_drop|].
      split; [constructor; [unfold len; lia|done]|].
      apply boundaries_cons; [done| |by rewrite Hc].
      by apply cutIndex_rule.
    + apply Z.ltb_ge in E. exists [s]. simpl. rewrite app_nil_r.
      repeat split; [done|by constructor].
Qed.

(** C2, as stated, fails on the text ["abc\n"] with limit 2: the code
    looks for a newline among the first two bytes, finds none and cuts
    ["ab"], although the last two bytes ["c\n"] hold a newline. *)
Lemma splitMessage_last_window_counterexample :
  splitMessage ["a"; "b"; "c"; newline]%byte 2
    = Ret [["a"; "b"]; ["c"; newline]]%byte
  ∧ ¬ chunking_as_stated ["a"; "b"; "c"; newline]%byte 2.
Proof.
  split; [reflexivity|].
  intros (chunks & Hrun & _ & _ & Hb).
  vm_compute in Hrun. injection Hrun as <-.
  destruct Hb as [[Hnl _] _]. simpl in Hnl.
  assert (newline ∈ [x63; newline]) as Hin by (right; left).
  specialize (Hnl Hin). discriminate Hnl.
Qed.

(** C2 (amended): for every text and every limit [maxLen > 0],
    [splitMessage] returns; concatenating its chunks gives the text back;
    every chunk is at most [maxLen] bytes long; and every chunk boundary
    falls right after the last newline among the first [maxLen] bytes of
    the remaining text when there is one, and at exactly [maxLen]
    otherwise. *)
Theorem splitMessage_roundtrip (s : list byte) (maxLen : Z) :
  0 < maxLen →
  ∃ chunks, splitMessage s maxLen = Ret chunks
            ∧ concat chunks = s
            ∧ Forall (λ c, len c <= maxLen) chunks
            ∧ boundaries (cutAfterLastNewline maxLen) s chunks.
Proof.
  intros Hpos. unfold splitMessage.
  destruct (maxLen <=? 0) eqn:E; [apply Z.leb_le in E; lia|].
  destruct (splitLoop_spec maxLen (length s) Hpos [] s) as (cs & Hrun & _ & H);
    [done|].
  exists cs. by split.
Qed.

Lemma splitMessage_roundtrip_witness :
  0 < 3 ∧
  ∃ chunks, splitMessage ["a"; newline; "b"; "c"; "d"; "e"]%byte 3 = Ret chunks
            ∧ concat chunks = ["a"; newline; "b"; "c"; "d"; "e"]%byte
            ∧ Forall (λ c, len c <= 3) chunks
            ∧ boundaries (cutAfterLastNewline 3)
                ["a"; newline; "b"; "c"; "d"; "e"]%byte chunks.
Proof.
  split; [lia|]. apply (splitMessage_roundtrip _ 3). lia.
Defined.

(** Outside the claim's range the function does not return. *)
Lemma splitMessage_nonpositive s maxLen :
  maxLen <= 0 → splitMessage s maxLen = Panic.
Proof.
  intros H. unfold splitMessage.
  destruct (maxLen <=? 0) eqn:E; [done|apply Z.leb_gt in E; lia].
Qed.

End publish_facts.

Module slack_facts.
Import slack.

Section retry.
Context {T St : Type}.
Variable zero : T.
Variable operation : St → (T * option error) * St.

#[local] Abbreviation fails i s := (snd (answer operation i s) ≠ None).

Lemma answer_S i s :
  answer operation (S i) s = answer operation i (snd (operation s)).
Proof. reflexivity. Qed.

Lemma invocations_trace (r : T) e (s : St) tr :
  invocations (mkRetryRun r e s tr)
  = length (filter (λ ev, ev = Invoked) tr).
Proof. reflexivity. Qed.

Lemma count_failedAttempts backoff j : ∀ attempt s,
  (∀ i, (i < j)%nat → fails i s) →
  length (filter (λ ev, ev = Invoked)
            (failedAttempts operation backoff attempt j s)) = j.
Proof.
  induction j as [|j IH]; intros attempt s Hf; [done|]. simpl.
  pose proof (Hf O ltac:(lia)) as H0. unfold answer in H0. simpl in H0.
  destruct (snd (fst (operation s))) as [e|]; [|done].
  rewrite filter_cons_True by done. rewrite filter_cons_False by done.
  simpl. f_equal. apply IH. intros i Hi.
  rewrite <- answer_S. apply Hf. lia.
Qed.

(** Layout of the events of failed attempts: invocation number [n] is
    event [2n-2], and the sleep that follows it is event [2n-1]. *)
Lemma failedAttempts_lookup backoff j : ∀ attempt s (n : nat) e,
  (1 ≤ n ≤ j)%nat →
  (∀ i, (i < j)%nat → fails i s) →
  snd (answer operation (n - 1) s) = Some e →
  failedAttempts operation backoff attempt j s !! (2 * n - 2)%nat
    = Some Invoked
  ∧ failedAttempts operation backoff attempt j s !! (2 * n - 1)%nat
    = Some (Slept (sleepDuration backoff (attempt + Z.of_nat n - 1) e)).
Proof.
  induction j as [|j IH]; intros attempt s n e Hn Hf He; [lia|].
  cbn [failedAttempts].
  pose proof (Hf O ltac:(lia)) as H0. unfold answer in H0. simpl in H0.
  destruct (snd (fst (operation s))) as [e0|] eqn:E0; [|done].
  destruct (decide (n = 1%nat)) as [->|Hne].
  - simpl. unfold answer in He. simpl in He. rewrite E0 in He.
    injection He as ->. split; [done|]. do 3 f_equal. lia.
  - destruct (IH (attempt + 1) (snd (operation s)) (n - 1)%nat e) as [Ha Hb].
    + lia.
    + intros i Hi. rewrite <- answer_S. apply Hf. lia.
    + rewrite <- answer_S. replace (S (n - 1 - 1)) with (n - 1)%nat by lia.
      done.
    + replace (2 * n - 2)%nat with (S (S (2 * (n - 1) - 2))) by lia.
      replace (2 * n - 1)%nat with (S (S (2 * (n - 1) - 1))) by lia.
      split; [exact Ha|]. etrans; [exact Hb|]. do 3 f_equal. lia.
Qed.

(** [j] failed attempts that are not the last one allowed take the loop
    [j] iterations further. *)
Lemma retryLoop_failed_prefix maxAttempts backoff j :
  ∀ remaining attempt r0 e0 s tr,
  Z.of_nat remaining = maxAttempts - attempt + 1 →
  (j < remaining)%nat →
  (∀ i, (i < j)%nat → fails i s) →
  ∃ r1 e1,
    retryLoop operation maxAttempts backoff remaining attempt r0 e0 s tr
    = retryLoop operation maxAttempts backoff (remaining - j)
        (attempt + Z.of_nat j) r1 e1 (stateBefore operation j s)
        (tr ++ failedAttempts operation backoff attempt j s).
Proof.
  induction j as [|j IH]; intros remaining attempt r0 e0 s tr Hrem Hj Hf.
  - exists r0, e0. simpl.
    by rewrite Nat.sub_0_r, Z.add_0_r, app_nil_r.
  - destruct remaining as [|remaining]; [lia|].
    pose proof (Hf O ltac:(lia)) as H0. unfold answer in H0. simpl in H0.
    simpl. destruct (operation s) as [[r e] s'] eqn:Hop. simpl in *.
    destruct e as [cause|]; [|done].
    destruct (attempt =? maxAttempts) eqn:E; [apply Z.eqb_eq in E; lia|].
    destruct (IH remaining (attempt + 1) r (Some cause) s'
                ((tr ++ [Invoked]) ++ [Slept (sleepDuration backoff attempt cause)]))
      as (r1 & e1 & Heq).
    + lia.
    + lia.
    + intros i Hi. specialize (Hf (S i) ltac:(lia)).
      rewrite answer_S, Hop in Hf. exact Hf.
    + exists r1, e1. rewrite Heq. f_equal; [lia|].
      by rewrite <- !app_assoc.
Qed.

(** The loop only ever appends to the events so far. *)
Lemma retryLoop_trace_extends maxAttempts backoff remaining :
  ∀ attempt r0 e0 s tr,
  ∃ more,
    trace (retryLoop operation maxAttempts backoff remaining attempt
             r0 e0 s tr) = tr ++ more.
Proof.
  induction remaining as [|remaining IH]; intros attempt r0 e0 s tr; simpl.
  - exists []. by rewrite app_nil_r.
  - destruct (operation s) as [[r e] s'].
    destruct e as [cause|]; [|by exists [Invoked]].
    destruct (attempt =? maxAttempts); [by exists [Invoked]|].
    destruct (IH (attempt + 1) r (Some cause) s'
                ((tr ++ [Invoked]) ++ [Slept (sleepDuration backoff attempt cause)]))
      as [more ->].
    eexists. by rewrite <- !app_assoc.
Qed.

(** Success at invocation [k+1] after [k] failures, with room for at
    least [k+1] attempts. *)
Lemma runWithRetries_success maxAttempts backoff (k : nat) s v :
  Z.of_nat k + 1 <= maxAttempts →
  (∀ i, (i < k)%nat → fails i s) →
  answer operation k s = (v, None) →
  runWithRetries zero operation maxAttempts backoff s
  = mkRetryRun v None (stateBefore operation (S k) s)
      (failedAttempts operation backoff 1 k s ++ [Invoked]).
Proof.
  intros Hmax Hf Hk. unfold runWithRetries.
  destruct (maxAttempts <=? 0) eqn:E; [apply Z.leb_le in E; lia|].
  destruct (retryLoop_failed_prefix maxAttempts backoff k
              (Z.to_nat maxAttempts) 1 zero None s [])
    as (r1 & e1 & ->); [lia|lia|done|].
  destruct (Z.to_nat maxAttempts - k)%nat as [|rem] eqn:Hrem; [lia|].
  simpl. unfold answer in Hk.
  replace (stateBefore operation k (snd (operation s)))
    with (snd (operation (stateBefore operation k s))).
  2:{ clear. revert s. induction k as [|k IH]; intros s; [done|].
      simpl. apply IH. }
  destruct (operation (stateBefore operation k s)) as [[r e] s'].
  simpl in Hk. injection Hk as -> ->. done.
Qed.

(** Failure of every one of the [k >= 1] attempts allowed. *)
Lemma runWithRetries_exhausted backoff (k : nat) s :
  (1 ≤ k)%nat →
  (∀ i, (i < k)%nat → fails i s) →
  ∃ r e,
    answer operation (k - 1) s = (r, Some e)
    ∧ runWithRetries zero operation (Z.of_nat k) backoff s
      = mkRetryRun r (Some (exhausted (Z.of_nat k) (Some e)))
          (stateBefore operation k s)
          (failedAttempts operation backoff 1 (k - 1) s ++ [Invoked]).
Proof.
  intros Hk Hf. unfold runWithRetries.
  destruct (Z.of_nat k <=? 0) eqn:E; [apply Z.leb_le in E; lia|].
  destruct (retryLoop_failed_prefix (Z.of_nat k) backoff (k - 1)
              (Z.to_nat (Z.of_nat k)) 1 zero None s [])
    as (r1 & e1 & ->); [lia|lia|intros i Hi; apply Hf; lia|].
  destruct (Z.to_nat (Z.of_nat k) - (k - 1))%nat as [|rem] eqn:Hrem; [lia|].
  simpl. pose proof (Hf (k - 1)%nat ltac:(lia)) as Hlast.
  unfold answer in *.
  replace (stateBefore operation k s)
    with (snd (operation (stateBefore operation (k - 1) s))).
  2:{ replace k with (S (k - 1)) at 2 by lia. generalize (k - 1)%nat.
      clear. intros n. revert s. induction n as [|n IH]; intros s; [done|].
      simpl. apply IH. }
  destruct (operation (stateBefore operation (k - 1) s)) as [[r e] s'].
  simpl in *. destruct e as [e|]; [|done].
  exists r, e. split; [done|].
  destruct (1 + Z.of_nat (k - 1) =? Z.of_nat k) eqn:E2;
    [done|apply Z.eqb_neq in E2; lia].
Qed.

Lemma wrap64_small z : - 2 ^ 63 <= z < 2 ^ 63 → wrap64 z = z.
Proof. intros H. unfold wrap64. rewrite Z.mod_small; lia. Qed.

Lemma exponentialBackoff_exact backoff (n : nat) :
  (1 ≤ n ≤ 63)%nat →
  - 2 ^ 63 <= backoff * 2 ^ (Z.of_nat n - 1) < 2 ^ 63 →
  exponentialBackoff backoff (Z.of_nat n)
  = backoff * 2 ^ (Z.of_nat n - 1).
Proof.
  intros Hn Hfit. unfold exponentialBackoff, shl64. rewrite Z.mul_1_l.
  rewrite (wrap64_small (2 ^ _)); [by apply wrap64_small|].
  split; [pose proof (Z.pow_pos_nonneg 2 (Z.of_nat n - 1)); lia|].
  apply Z.pow_lt_mono_r; lia.
Qed.

(** C3: an operation that fails on its first [k] invocations and
    succeeds on invocation [k+1] is, with [maxAttempts = k+2], invoked
    exactly [k+1] times and its success value is returned with a nil
    error; an operation that fails on every invocation is, with
    [maxAttempts = k >= 1], invoked exactly [k] times and the error
    returned wraps the last underlying error under a message that
    states the [k] attempts. *)
Theorem runWithRetries_retry_termination (k : nat) (backoff : Z) (s : St) :
  (∀ v,
     (∀ i, (i < k)%nat → fails i s) →
     answer operation k s = (v, None) →
     let run := runWithRetries zero operation (Z.of_nat k + 2) backoff s in
     result run = v ∧ err run = None ∧ invocations run = S k)
  ∧ ((1 ≤ k)%nat →
     (∀ i, fails i s) →
     let run := runWithRetries zero operation (Z.of_nat k) backoff s in
     invocations run = k
     ∧ ∃ e, snd (answer operation (k - 1) s) = Some e
            ∧ err run
              = Some (wrapError
                        ("operation failed after " +:+ pretty (Z.of_nat k)
                           +:+ " attempts: ") e)).
Proof.
  split.
  - intros v Hf Hk. cbv zeta.
    rewrite (runWithRetries_success (Z.of_nat k + 2) backoff k s v);
      [|lia|done|done].
    split; [done|]. split; [done|].
    rewrite invocations_trace, filter_app, length_app.
    rewrite count_failedAttempts by done. simpl. lia.
  - intros Hk Hf. cbv zeta.
    destruct (runWithRetries_exhausted backoff k s Hk) as (r & e & Ha & ->).
    { intros i _. apply Hf. }
    split.
    + rewrite invocations_trace, filter_app, length_app.
      rewrite count_failedAttempts by (intros i _; apply Hf). simpl. lia.
    + exists e. by rewrite Ha.
Qed.

(** C4 (amended): after the failed attempt [n], when it is not the last
    one allowed, the run sleeps once before attempt [n+1]; the duration
    is the error's [RetryAfter] when the error carries a rate-limit
    signal whose [RetryAfter] is positive; in every other case,
    a rate-limit signal with [RetryAfter <= 0] included, it is
    [initialBackoff * 2^(n-1)] in 64-bit wrap-around arithmetic, which
    is the exact product whenever [n <= 63] and the product fits. *)
Theorem runWithRetries_sleep_between_attempts
    (maxAttempts backoff : Z) (n : nat) (s : St) (e : error) :
  (1 ≤ n)%nat →
  Z.of_nat n < maxAttempts →
  (∀ i, (i < n)%nat → fails i s) →
  snd (answer operation (n - 1) s) = Some e →
  let run := runWithRetries zero operation maxAttempts backoff s in
  ∃ d,
    trace run !! (2 * n - 2)%nat = Some Invoked
    ∧ trace run !! (2 * n - 1)%nat = Some (Slept d)
    ∧ (∀ retryAfter,
         errors.AsRateLimited e = Some retryAfter → 0 < retryAfter →
         d = retryAfter)
    ∧ (errors.AsRateLimited e = None
       ∨ (∃ retryAfter,
            errors.AsRateLimited e = Some retryAfter ∧ retryAfter <= 0) →
       d = wrap64 (backoff * shl64 1 (Z.of_nat n - 1))
       ∧ ((n ≤ 63)%nat →
          - 2 ^ 63 <= backoff * 2 ^ (Z.of_nat n - 1) < 2 ^ 63 →
          d = backoff * 2 ^ (Z.of_nat n - 1))).
Proof.
  intros Hn Hmax Hf He. cbv zeta. unfold runWithRetries.
  destruct (maxAttempts <=? 0) eqn:E; [apply Z.leb_le in E; lia|].
  destruct (retryLoop_failed_prefix maxAttempts backoff n
              (Z.to_nat maxAttempts) 1 zero None s [])
    as (r1 & e1 & ->); [lia|lia|done|].
  destruct (retryLoop_trace_extends maxAttempts backoff
              (Z.to_nat maxAttempts - n) (1 + Z.of_nat n) r1 e1
              (stateBefore operation n s)
              ([] ++ failedAttempts operation backoff 1 n s))
    as [more ->].
  destruct (failedAttempts_lookup backoff n 1 s n e) as [Ha Hb];
    [lia|done|done|].
  exists (sleepDuration backoff (1 + Z.of_nat n - 1) e).
  split; [by apply lookup_app_l_Some|].
  split; [by apply lookup_app_l_Some|].
  replace (1 + Z.of_nat n - 1) with (Z.of_nat n) by lia.
  unfold sleepDuration. split.
  - intros ra -> Hpos.
    destruct (0 <? ra) eqn:E2; [done|apply Z.ltb_ge in E2; lia].
  - intros Hcase.
    assert (match errors.AsRateLimited e with
            | Some retryAfter =>
                if 0 <? retryAfter then retryAfter
                else exponentialBackoff backoff (Z.of_nat n)
            | None => exponentialBackoff backoff (Z.of_nat n)
            end = exponentialBackoff backoff (Z.of_nat n)) as ->.
    { destruct Hcase as [->|(ra & -> & Hra)]; [done|].
      destruct (0 <? ra) eqn:E2; [apply Z.ltb_lt in E2; lia|done]. }
    split; [done|]. intros Hn63 Hfit.
    apply exponentialBackoff_exact; [lia|done].
Qed.

End retry.

(** *** Concrete operations *)

Lemma flaky_fails k v i s :
  (s + i < k)%nat → snd (answer (flaky k v) i s) ≠ None.
Proof.
  revert s. induction i as [|i IH]; intros s Hlt.
  - unfold answer, flaky. simpl. rewrite decide_True by lia. done.
  - rewrite answer_S. unfold flaky at 2.
    destruct (decide (s < k)%nat); simpl; apply IH; lia.
Qed.

Lemma runWithRetries_retry_termination_witness :
  (let run := runWithRetries 0 (flaky 2 7) (Z.of_nat 2 + 2) 2000000000 O in
   result run = 7 ∧ err run = None ∧ invocations run = 3%nat)
  ∧ (let run :=
       runWithRetries 0 (failing (errorString "down")) (Z.of_nat 3)
         2000000000 O in
     invocations run = 3%nat
     ∧ ∃ e, snd (answer (failing (errorString "down")) (3 - 1) O) = Some e
            ∧ err run
              = Some (wrapError
                        ("operation failed after " +:+ pretty (Z.of_nat 3)
                           +:+ " attempts: ") e)).
Proof.
  split.
  - apply (proj1 (runWithRetries_retry_termination 0 (flaky 2 7) 2
                    2000000000 O) 7).
    + intros i Hi. apply flaky_fails. lia.
    + reflexivity.
  - apply (proj2 (runWithRetries_retry_termination 0
                    (failing (errorString "down")) 3 2000000000 O)).
    + lia.
    + intros i. unfold answer, failing. simpl. done.
Defined.

Example runWithRetries_exhausted_message :
  err (runWithRetries 0 (failing (errorString "down")) 3 2000000000 O)
  = Some (wrapError "operation failed after 3 attempts: "
            (errorString "down")).
Proof. reflexivity. Qed.

(** A rate-limit error whose [RetryAfter] is zero: [errors.As] finds it,
    the guard [RetryAfter > 0] rejects it, and the run sleeps the
    exponential backoff (2 s) instead of the zero duration the error
    carries. *)
Lemma runWithRetries_zero_retry_after_counterexample :
  errors.AsRateLimited (RateLimitedError 0) = Some 0
  ∧ trace (runWithRetries 0 (failing (RateLimitedError 0)) 2 2000000000 O)
    = [Invoked; Slept 2000000000; Invoked]
  ∧ sleepAsStated 2000000000 1 (RateLimitedError 0) = 0
  ∧ trace (runWithRetries 0 (failing (RateLimitedError 0)) 2 2000000000 O)
      !! 1%nat
    ≠ Some (Slept (sleepAsStated 2000000000 1 (RateLimitedError 0))).
Proof. repeat split; try reflexivity. vm_compute. discriminate. Qed.

Lemma runWithRetries_sleep_between_attempts_witness :
  ∃ d,
    trace (runWithRetries 0 (failing (RateLimitedError 50000000)) 3
             1000000 O) !! (2 * 1 - 2)%nat = Some Invoked
    ∧ trace (runWithRetries 0 (failing (RateLimitedError 50000000)) 3
               1000000 O) !! (2 * 1 - 1)%nat = Some (Slept d)
    ∧ (∀ retryAfter,
         errors.AsRateLimited (RateLimitedError 50000000) = Some retryAfter →
         0 < retryAfter → d = retryAfter)
    ∧ (errors.AsRateLimited (RateLimitedError 50000000) = None
       ∨ (∃ retryAfter,
            errors.AsRateLimited (RateLimitedError 50000000)
            = Some retryAfter ∧ retryAfter <= 0) →
       d = wrap64 (1000000 * shl64 1 (Z.of_nat 1 - 1))
       ∧ ((1 ≤ 63)%nat →
          - 2 ^ 63 <= 1000000 * 2 ^ (Z.of_nat 1 - 1) < 2 ^ 63 →
          d = 1000000 * 2 ^ (Z.of_nat 1 - 1))).
Proof.
  apply (runWithRetries_sleep_between_attempts 0
           (failing (RateLimitedError 50000000)) 3 1000000 1 O
           (RateLimitedError 50000000)).
  - lia.
  - lia.
  - intros i _. unfold answer, failing. simpl. done.
  - reflexivity.
Defined.

(** *** Channel resolution *)

Section resolution.
Context {C MsgOption : Type}.
Variable svc : service C MsgOption.

Lemma listingCalls_app (l1 l2 : list clientCall) :
  listingCalls (l1 ++ l2) = (listingCalls l1 + listingCalls l2)%nat.
Proof. unfold listingCalls. by rewrite filter_app, length_app. Qed.

(** Every invocation of the retried closure is one listing call. *)
Lemma listPage_logs cursor (w : world C) :
  listingCalls (calls (snd (listPage svc cursor w)))
  = S (listingCalls (calls w)).
Proof.
  unfold listPage, callGetConversations.
  destruct (GetConversations (client svc) _ (remote w)) as [[[chs cur] e] c'].
  destruct e; simpl; rewrite listingCalls_app;
    change (listingCalls [GetConversationsCalled _]) with 1%nat; lia.
Qed.

Lemma retryLoop_listing_mono cursor maxAttempts backoff remaining :
  ∀ attempt r0 e0 (w : world C) tr,
  (listingCalls (calls w)
   ≤ listingCalls
       (calls (final (retryLoop (listPage svc cursor) maxAttempts backoff
                        remaining attempt r0 e0 w tr))))%nat.
Proof.
  induction remaining as [|remaining IH]; intros attempt r0 e0 w tr;
    cbn [retryLoop]; [done|].
  pose proof (listPage_logs cursor w) as Hlog.
  destruct (listPage svc cursor w) as [[r e] w']. simpl in Hlog.
  destruct e as [cause|]; [|simpl; lia].
  destruct (attempt =? maxAttempts); [simpl; lia|].
  etrans; [|apply IH]. lia.
Qed.

Lemma runWithRetries_lists cursor maxAttempts backoff (w : world C) :
  (S (listingCalls (calls w))
   ≤ listingCalls
       (calls (final (runWithRetries (mkConversations [] "")
                        (listPage svc cursor) maxAttempts backoff w))))%nat.
Proof.
  unfold runWithRetries.
  set (m := if maxAttempts <=? 0 then 1 else maxAttempts).
  assert (1 <= m) as Hm by (unfold m; destruct (maxAttempts <=? 0) eqn:E; lia).
  destruct (Z.to_nat m) as [|remaining] eqn:Hrem; [lia|]. cbn [retryLoop].
  pose proof (listPage_logs cursor w) as Hlog.
  destruct (listPage svc cursor w) as [[r e] w']. simpl in Hlog.
  destruct e as [cause|]; [|simpl; lia].
  destruct (1 =? m); [simpl; lia|].
  etrans; [|apply retryLoop_listing_mono]. lia.
Qed.

(** Whatever it returns, a resolution lists the channels at least once:
    nothing is remembered from one call of [findSlackChannel] to the
    next. *)
Lemma findSlackChannel_lists channelName fuel (w w' : world C) r :
  findSlackChannel svc channelName fuel w = Ret (r, w') →
  (S (listingCalls (calls w)) ≤ listingCalls (calls w'))%nat.
Proof.
  unfold findSlackChannel. generalize "" as cursor. revert w.
  induction fuel as [|fuel IH]; intros w cursor; simpl; [done|].
  pose proof (runWithRetries_lists cursor (maxAttempts svc)
                (initialBackoff svc) w) as Hrun.
  destruct (runWithRetries _ _ _ _ w) as [res e wf tr]. simpl in *.
  destruct e as [opErr|].
  - intros [= <- <-]. done.
  - destruct (-1 <? FindFirstUsing (Channels res) _).
    + destruct (Channels res !! _); [|done]. intros [= <- <-]. done.
    + destruct (decide (NextCursor res = "")).
      * intros [= <- <-]. done.
      * intros Hloop. apply IH in Hloop. lia.
Qed.

End resolution.

(** C10 (fails on the code): on one service, the second resolution of a
    name already resolved lists the channels again; after both calls the
    client has served two listing calls, and each call returned the same
    channel. *)
Theorem findSlackChannel_second_resolution_lists_again :
  ∃ w1 w2,
    findSlackChannel cacheTestService "random channel" 1 (mkWorld tt [])
    = Ret ((Some (mkChannel "1234" "random channel"), None), w1)
    ∧ findSlackChannel cacheTestService "random channel" 1 w1
      = Ret ((Some (mkChannel "1234" "random channel"), None), w2)
    ∧ listingCalls (calls w1) = 1%nat
    ∧ listingCalls (calls w2) = 2%nat.
Proof. do 2 eexists. repeat split. Qed.

End slack_facts.

Module github_facts.
Import github.

Section tracker.
Context {C : Type}.
Variable title : string.
Variable client : iGithubClient C.

Lemma mutations_app (l1 l2 : list clientCall) :
  mutations (l1 ++ l2) = mutations l1 ++ mutations l2.
Proof. unfold mutations. apply filter_app. Qed.

(** Looking the tracked issue up only lists. *)
Lemma getVulnerabilityIssueFrom_lists fuel owner repo :
  ∀ page (w w' : world C) r,
  getVulnerabilityIssueFrom title client fuel owner repo page w = Ret (r, w') →
  mutations (calls w') = mutations (calls w).
Proof.
  induction fuel as [|fuel IH]; intros page w w' r; simpl; [done|].
  unfold callList.
  destruct (ListRepositoryIssues client owner repo page (remote w))
    as [[e|[issues nextPage]] c'].
  - intros [= <- <-]. simpl. rewrite mutations_app. apply app_nil_r.
  - destruct (firstTracked title issues).
    + intros [= <- <-]. simpl. rewrite mutations_app. apply app_nil_r.
    + destruct (nextPage =? 0).
      * intros [= <- <-]. simpl. rewrite mutations_app. apply app_nil_r.
      * intros Hloop. apply IH in Hloop. rewrite Hloop. simpl.
        rewrite mutations_app. apply app_nil_r.
Qed.

(** The issue the lookup returns carries the well-known title. *)
Lemma firstTracked_title issues i :
  firstTracked title issues = Some i → Title i = title.
Proof.
  induction issues as [|[j|] rest IH]; simpl; [done| |done].
  destruct (decide (Title j = title)); [|done]. by intros [= <-].
Qed.

(** X15: a vulnerable project without a tracked issue: one create call on
    the project's repository with the title and the body, and no update. *)
Lemma OpenVulnerabilityIssue_creates fuel project body (w w1 : world C) :
  getVulnerabilityIssue title client fuel (repository.GroupOrOwner project)
    (repository.Name project) w = Ret ((None, None), w1) →
  ∃ r w2,
    OpenVulnerabilityIssue title client fuel project body w = Ret (r, w2)
    ∧ mutations (calls w2)
      = mutations (calls w)
          ++ [CreateIssueCalled (repository.GroupOrOwner project)
                (repository.Name project)
                (mkRequest (Some title) (Some body) None)].
Proof.
  intros Hlook. unfold OpenVulnerabilityIssue. rewrite Hlook.
  apply getVulnerabilityIssueFrom_lists in Hlook. unfold callCreate.
  destruct (CreateIssue client _ _ _ (remote w1)) as [[created e] c'].
  destruct e; eexists _, _; (split; [done|]); simpl;
    by rewrite mutations_app, Hlook.
Qed.

(** X16: a vulnerable project with a tracked issue, open or closed: one
    update call on that issue of the project's repository, with the new
    body and the state open, and no create; when the call succeeds and the resulting
    state is not open, an error is returned. *)
Lemma OpenVulnerabilityIssue_updates fuel project body (w w1 : world C) i :
  getVulnerabilityIssue title client fuel (repository.GroupOrOwner project)
    (repository.Name project) w = Ret ((Some i, None), w1) →
  ∃ r e w2,
    OpenVulnerabilityIssue title client fuel project body w = Ret ((r, e), w2)
    ∧ mutations (calls w2)
      = mutations (calls w)
          ++ [UpdateIssueCalled (repository.GroupOrOwner project)
                (repository.Name project) (Number i)
                (mkRequest None (Some body) (Some "open"))]
    ∧ (GetState
         (fst (fst (UpdateIssue client (repository.GroupOrOwner project)
                      (repository.Name project) (Number i)
                      (mkRequest None (Some body) (Some "open")) (remote w1))))
       ≠ "open" → e ≠ None).
Proof.
  intros Hlook. unfold OpenVulnerabilityIssue. rewrite Hlook.
  apply getVulnerabilityIssueFrom_lists in Hlook. unfold callUpdate.
  destruct (UpdateIssue client _ _ _ _ (remote w1)) as [[edited e] c'].
  simpl. destruct e as [e|].
  - eexists _, _, _. split; [done|]. simpl.
    split; [by rewrite mutations_app, Hlook|done].
  - destruct (decide (GetState edited = "open")).
    + eexists _, _, _. split; [done|]. simpl.
      split; [by rewrite mutations_app, Hlook|done].
    + eexists _, _, _. split; [done|]. simpl.
      split; [by rewrite mutations_app, Hlook|done].
Qed.

(** X17: a project that is not vulnerable and has no tracked issue, or a
    closed one: no create and no update. *)
Lemma CloseVulnerabilityIssue_noop fuel project (w w1 : world C) found :
  getVulnerabilityIssue title client fuel (repository.GroupOrOwner project)
    (repository.Name project) w = Ret ((found, None), w1) →
  (∀ i, found = Some i → State i = "closed") →
  CloseVulnerabilityIssue title client fuel project w = Ret (None, w1)
  ∧ mutations (calls w1) = mutations (calls w).
Proof.
  intros Hlook Hclosed. unfold CloseVulnerabilityIssue. rewrite Hlook.
  apply getVulnerabilityIssueFrom_lists in Hlook.
  destruct found as [i|]; [|done].
  rewrite decide_True by by apply Hclosed. done.
Qed.

(** A project that is not vulnerable and has a tracked issue that is not
    closed: one update call with the state closed and nothing else; the
    repository it names is [GroupOrOwner], not [Name]. *)
Lemma CloseVulnerabilityIssue_closes fuel project (w w1 : world C) i :
  getVulnerabilityIssue title client fuel (repository.GroupOrOwner project)
    (repository.Name project) w = Ret ((Some i, None), w1) →
  State i ≠ "closed" →
  ∃ e w2,
    CloseVulnerabilityIssue title client fuel project w = Ret (e, w2)
    ∧ mutations (calls w2)
      = mutations (calls w)
          ++ [UpdateIssueCalled (repository.GroupOrOwner project)
                (repository.GroupOrOwner project) (Number i)
                (mkRequest None None (Some "closed"))].
Proof.
  intros Hlook Hopen. unfold CloseVulnerabilityIssue. rewrite Hlook.
  apply getVulnerabilityIssueFrom_lists in Hlook.
  rewrite decide_False by done. unfold callUpdate.
  destruct (UpdateIssue client _ _ _ _ (remote w1)) as [[edited e] c'].
  destruct e; eexists _, _; (split; [done|]); simpl;
    by rewrite mutations_app, Hlook.
Qed.

End tracker.

(** *** The failing input *)

(** C5 (fails on the code): publishing a report that is not vulnerable for
    the project [acme/widget], whose tracked issue 7 is open, makes one
    closing call, and that call names the repository [acme/acme]: the issue
    of the project, in [acme/widget], is not the one closed. *)
Theorem CloseVulnerabilityIssue_closes_other_repository (title body : string) :
  publishIssue title (openIssueTracker title) 1 false widget body
    (mkWorld tt [])
  = Ret (None,
         mkWorld tt
           [ListRepositoryIssuesCalled "acme" "widget" 0;
            UpdateIssueCalled "acme" "acme" 7
              (mkRequest None None (Some "closed"))])
  ∧ UpdateIssueCalled "acme" "acme" 7 (mkRequest None None (Some "closed"))
    ≠ UpdateIssueCalled (repository.GroupOrOwner widget)
        (repository.Name widget) 7 (mkRequest None None (Some "closed")).
Proof.
  split; [|discriminate].
  unfold publishIssue, CloseVulnerabilityIssue, getVulnerabilityIssue. simpl.
  rewrite decide_True by done. reflexivity.
Qed.

End github_facts.

Module patrol_facts.
Import scanner patrol.

(** *** Acknowledgement merging *)

Lemma ackMaps_snoc acks ack :
  ackMaps (acks ++ [ack])
  = (<[config.Code ack := true]> (fst (ackMaps acks)),
     <[config.Code ack := config.Reason ack]> (snd (ackMaps acks))).
Proof. unfold ackMaps. by rewrite foldl_app. Qed.

(** The maps hold, for every code, what the last entry with that code
    says. *)
Lemma ackMaps_lookup acks (id : string) :
  fst (ackMaps acks) !! id
  = (λ _, true) <$> last (filter (λ ack, config.Code ack = id) acks)
  ∧ snd (ackMaps acks) !! id
    = config.Reason <$> last (filter (λ ack, config.Code ack = id) acks).
Proof.
  induction acks as [|ack acks [IHc IHr]] using rev_ind; [done|].
  rewrite ackMaps_snoc, filter_app. simpl.
  destruct (decide (config.Code ack = id)) as [Heq|Hne].
  - rewrite filter_cons_True, filter_nil by done.
    rewrite last_snoc, Heq, !lookup_insert_eq. done.
  - rewrite filter_cons_False, filter_nil, app_nil_r by done.
    rewrite !lookup_insert_ne by done. done.
Qed.

Lemma markVuln_acknowledge acks v :
  markVuln (fst (ackMaps acks)) (snd (ackMaps acks)) v = acknowledge acks v.
Proof.
  unfold markVuln, acknowledge.
  destruct (ackMaps_lookup acks (Id v)) as [-> ->].
  by destruct (last _).
Qed.

Lemma filter_code_nonempty acks (id : string) :
  id ∈ map config.Code acks ↔
  ∃ ack, last (filter (λ ack, config.Code ack = id) acks) = Some ack.
Proof.
  split.
  - intros Hin. apply list_elem_of_fmap in Hin as (ack & -> & Hin).
    assert (ack ∈ filter (λ a, config.Code a = config.Code ack) acks) as Hf
      by by apply list_elem_of_filter.
    destruct (filter _ acks) as [|a l] using rev_ind.
    + by apply elem_of_nil in Hf.
    + exists a. apply last_snoc.
  - intros [ack Hlast]. apply last_Some in Hlast as [l Hl].
    assert (ack ∈ filter (λ a, config.Code a = id) acks) as Hf.
    { rewrite Hl. apply elem_of_app. right. by left. }
    apply list_elem_of_filter in Hf as [<- Hin].
    apply list_elem_of_fmap. by exists ack.
Qed.

(** The code, which looks the identifiers up in two maps, and the
    reference, which searches the list of acknowledgements, agree. *)
Lemma markVulns_acknowledgedReport (report : Report)
    (cfg : config.ProjectConfig) :
  markVulnsAsAcknowledgedInReport report cfg = acknowledgedReport report cfg.
Proof.
  unfold markVulnsAsAcknowledgedInReport, acknowledgedReport.
  destruct (ackMaps (config.Acknowledged cfg)) as [codes reasons] eqn:Hm.
  f_equal. apply map_ext. intros v.
  rewrite <- (markVuln_acknowledge (config.Acknowledged cfg) v).
  by rewrite Hm.
Qed.

(** C6: [markVulnsAsAcknowledgedInReport] is the reference definition; the
    number and order of the vulnerabilities are kept; a vulnerability whose
    [Id] is among the configured codes gets the kind [Acknowledged] and the
    reason of an entry with that code, whatever its severity, and nothing
    else of it changes; any other vulnerability is unchanged; so is every
    other field of the report. Field by field: the [AckReason] after the
    call is the [Reason] of the last configured entry with that code, and
    the ten fields other than the kind and the reason are those of the
    vulnerability before the call. *)
Theorem markVulnsAsAcknowledgedInReport_reference
    (report : Report) (cfg : config.ProjectConfig) :
  markVulnsAsAcknowledgedInReport report cfg = acknowledgedReport report cfg
  ∧ length (Vulnerabilities (markVulnsAsAcknowledgedInReport report cfg))
    = length (Vulnerabilities report)
  ∧ (∀ (i : nat) v,
       Vulnerabilities report !! i = Some v →
       ∃ v',
         Vulnerabilities (markVulnsAsAcknowledgedInReport report cfg) !! i
         = Some v'
         ∧ (Id v ∈ map config.Code (config.Acknowledged cfg) →
            SeverityScoreKind_ v' = Acknowledged
            ∧ ∃ ack,
                ack ∈ config.Acknowledged cfg
                ∧ config.Code ack = Id v
                ∧ v' = withAckReason (config.Reason ack)
                         (withKind Acknowledged v)
                ∧ last (filter (λ a, config.Code a = Id v)
                          (config.Acknowledged cfg)) = Some ack
                ∧ AckReason v' = config.Reason ack
                ∧ Id v' = Id v
                ∧ PackageName v' = PackageName v
                ∧ PackageVersion v' = PackageVersion v
                ∧ PackageUrl v' = PackageUrl v
                ∧ PackageEcosystem v' = PackageEcosystem v
                ∧ Source v' = Source v
                ∧ Severity v' = Severity v
                ∧ Summary v' = Summary v
                ∧ Details v' = Details v
                ∧ FixAvailable v' = FixAvailable v)
         ∧ (Id v ∉ map config.Code (config.Acknowledged cfg) → v' = v))
  ∧ Project (markVulnsAsAcknowledgedInReport report cfg) = Project report
  ∧ ProjectConfig (markVulnsAsAcknowledgedInReport report cfg)
    = ProjectConfig report
  ∧ IsVulnerable (markVulnsAsAcknowledgedInReport report cfg)
    = IsVulnerable report
  ∧ IssueUrl (markVulnsAsAcknowledgedInReport report cfg) = IssueUrl report
  ∧ Error (markVulnsAsAcknowledgedInReport report cfg) = Error report
  ∧ OutdatedAcks (markVulnsAsAcknowledgedInReport report cfg)
    = OutdatedAcks report.
Proof.
  rewrite markVulns_acknowledgedReport. unfold acknowledgedReport. simpl.
  split; [done|]. split; [apply length_map|].
  split; [|done].
  intros i v Hv. exists (acknowledge (config.Acknowledged cfg) v).
  split; [by rewrite list_lookup_fmap, Hv|].
  unfold acknowledge. split.
  - intros Hin. apply filter_code_nonempty in Hin as [ack Hlast].
    rewrite Hlast. split; [done|]. exists ack.
    pose proof Hlast as Hkept.
    apply last_Some in Hlast as [l Hl].
    assert (ack ∈ filter (λ a, config.Code a = Id v) (config.Acknowledged cfg))
      as Hf.
    { rewrite Hl. apply elem_of_app. right. by left. }
    apply list_elem_of_filter in Hf as [Hcode Hin]. by split_and!.
  - intros Hnin.
    destruct (last _) as [ack|] eqn:Hlast; [|done].
    exfalso. apply Hnin. apply filter_code_nonempty. by exists ack.
Qed.

(** *** scanProject *)

Section scan.
Context {OsvReport : Type}.
Variable s : sheriffService OsvReport.

(** A successful scan went through every step, and its report is the
    scanner's report with the configuration attached and the
    acknowledgements merged. *)
Lemma scanProject_success project (r : Report) :
  scanProject s project = inr r →
  ∃ dir osvReport,
    MkdirTemp s tempScanDir (gogitlab.Name project +:+ "-") = inr dir
    ∧ Clone s dir (gogitlab.HTTPURLToRepo project) = None
    ∧ Scan s dir = inr osvReport
    ∧ r = markVulnsAsAcknowledgedInReport
            (withProjectConfig
               (GetProjectConfiguration s
                  (gogitlab.NameWithNamespace project) dir)
               (GenerateReport s project osvReport))
            (GetProjectConfiguration s (gogitlab.NameWithNamespace project)
               dir).
Proof.
  unfold scanProject.
  destruct (MkdirTemp s _ _) as [e|dir]; [done|].
  destruct (Clone s dir _) as [e|] eqn:Hclone; [done|].
  destruct (Scan s dir) as [e|osvReport] eqn:Hscan; [done|].
  intros [= <-]. by exists dir, osvReport.
Qed.

(** C7 (amended): for every project whose scan succeeds, the report that
    [scanProject] returns carries the [IsVulnerable] flag that the
    scanner's [GenerateReport] computed from the raw scan output;
    acknowledgement merging rewrites the findings and leaves the flag as it
    was. *)
Theorem scanProject_IsVulnerable_from_scanner project (r : Report) :
  scanProject s project = inr r →
  ∃ dir osvReport,
    MkdirTemp s tempScanDir (gogitlab.Name project +:+ "-") = inr dir
    ∧ Scan s dir = inr osvReport
    ∧ IsVulnerable r = IsVulnerable (GenerateReport s project osvReport)
    ∧ Vulnerabilities r
      = map (acknowledge
               (config.Acknowledged
                  (GetProjectConfiguration s
                     (gogitlab.NameWithNamespace project) dir)))
          (Vulnerabilities (GenerateReport s project osvReport)).
Proof.
  intros Hscan.
  apply scanProject_success in Hscan as (dir & osvReport & Hd & _ & Hs & ->).
  exists dir, osvReport. split; [done|]. split; [done|].
  by rewrite markVulns_acknowledgedReport.
Qed.

(** The stale acknowledgements are nowhere computed: the report carries the
    [OutdatedAcks] of the scanner's [GenerateReport], which is not given
    the configuration. *)
Lemma scanProject_OutdatedAcks project (r : Report) :
  scanProject s project = inr r →
  ∃ dir osvReport,
    MkdirTemp s tempScanDir (gogitlab.Name project +:+ "-") = inr dir
    ∧ Scan s dir = inr osvReport
    ∧ OutdatedAcks r = OutdatedAcks (GenerateReport s project osvReport).
Proof.
  intros Hscan.
  apply scanProject_success in Hscan as (dir & osvReport & Hd & _ & Hs & ->).
  exists dir, osvReport. split; [done|]. split; [done|].
  unfold markVulnsAsAcknowledgedInReport. by destruct (ackMaps _).
Qed.

End scan.

(** *** The fan-out and the aggregation *)

Section aggregation.
Context {OsvReport : Type}.
Variable s : sheriffService OsvReport.

#[local] Abbreviation failed p := (∃ e, scanProject s p = inl e).





#[local] Instance moreVulnerable_total : Total moreVulnerable.
Proof. intros a b. unfold moreVulnerable. lia. Qed.


(** *** Patrol *)

Lemma scanAndGetReports_error schedule locations :
  snd (scanAndGetReports s schedule locations) ≠ None
  ↔ MkdirAll s tempScanDir ≠ None.
Proof.
  unfold scanAndGetReports. destruct (MkdirAll s tempScanDir); [done|].
  destruct (GetProjectList s _) as [projects pwarn].
  by destruct (fanOut s schedule projects _).
Qed.

(** C9 (amended): [Patrol] ends with a hard error in exactly one
    situation, when the run's working directory cannot be created; nothing
    is published then and no warning is returned. When no scan target
    resolves to a project, [Patrol] returns no hard error: it publishes
    nothing and returns the warning of the listing, nil when the listing
    reported none. *)
Theorem Patrol_fatal_only_without_working_directory
    (pub : publishers) (hasSlack : bool) (schedule : list nat)
    (args : config.PatrolConfig) :
  (fatal (Patrol s pub hasSlack schedule args)
   ↔ MkdirAll s tempScanDir ≠ None)
  ∧ (MkdirAll s tempScanDir ≠ None →
     ∃ e, Patrol s pub hasSlack schedule args = (None, Some e, []))
  ∧ (MkdirAll s tempScanDir = None →
     fst (GetProjectList s (gitlabLocs (config.Locations args))) = [] →
     ∃ warn,
       Patrol s pub hasSlack schedule args = (warn, None, [])
       ∧ (warn ≠ None
          ↔ snd (GetProjectList s (gitlabLocs (config.Locations args)))
            ≠ None)).
Proof.
  unfold fatal, Patrol.
  pose proof (scanAndGetReports_error schedule (config.Locations args)) as Herr.
  split; [|split].
  - destruct (scanAndGetReports s schedule (config.Locations args))
      as [[reports swarn] err]. simpl in Herr. rewrite <- Herr.
    destruct err as [e|]; [done|].
    destruct (len reports =? 0); [done|].
    destruct (config.ReportToIssue args), hasSlack,
      (config.ReportToSlackChannels args), (config.EnableProjectReportTo args);
      done.
  - intros Hdir. unfold scanAndGetReports.
    destruct (MkdirAll s tempScanDir); [|done]. by eexists.
  - intros Hdir Hnone. unfold scanAndGetReports. rewrite Hdir.
    destruct (GetProjectList s _) as [projects pwarn]. simpl in Hnone.
    subst projects.
    destruct schedule as [|i schedule]; simpl.
    + destruct pwarn; eexists; (split; [reflexivity|done]).
    + assert (∀ sch st, fanOut s sch [] st = st) as Hnil.
      { clear. induction sch as [|j sch IH]; intros st; [done|]. apply IH. }
      rewrite Hnil. simpl.
      destruct pwarn; eexists; (split; [reflexivity|done]).
Qed.

End aggregation.

(** *** Concrete runs *)

(** C7, as stated, fails when every finding is acknowledged: the only
    finding of the project is acknowledged by its configuration, no live
    finding remains in the report, and [IsVulnerable] is still [true]. *)
Lemma scanProject_all_acknowledged_counterexample :
  ∃ r,
    scanProject
      (fixedService [] None
         (config.mkProjectConfig "" [config.mkAck "CVE-1" "not reachable"])
         [finding "CVE-1" High])
      (project "widget" "https://gitlab.com/acme/widget.git") = inr r
    ∧ IsVulnerable r = true
    ∧ Vulnerabilities r
      = [withAckReason "not reachable"
           (withKind Acknowledged (finding "CVE-1" High))]
    ∧ ¬ vulnerableIffLiveFinding r.
Proof.
  eexists. split; [reflexivity|]. split; [reflexivity|].
  split; [reflexivity|].
  intros [Hlive _]. specialize (Hlive eq_refl).
  apply Exists_cons in Hlive as [Hk|Hrest].
  - by apply Hk.
  - by apply Exists_nil in Hrest.
Qed.

Lemma scanProject_IsVulnerable_from_scanner_witness :
  ∃ dir osvReport,
    MkdirTemp (fixedService [] None config.noConfig [finding "CVE-1" High])
      tempScanDir
      (gogitlab.Name (project "widget" "https://gitlab.com/acme/widget.git")
         +:+ "-") = inr dir
    ∧ Scan (fixedService [] None config.noConfig [finding "CVE-1" High]) dir
      = inr osvReport
    ∧ IsVulnerable
        (mkReport (project "widget" "https://gitlab.com/acme/widget.git")
           config.noConfig true [finding "CVE-1" High] "" false [])
      = IsVulnerable
          (GenerateReport
             (fixedService [] None config.noConfig [finding "CVE-1" High])
             (project "widget" "https://gitlab.com/acme/widget.git")
             osvReport)
    ∧ Vulnerabilities
        (mkReport (project "widget" "https://gitlab.com/acme/widget.git")
           config.noConfig true [finding "CVE-1" High] "" false [])
      = map (acknowledge
               (config.Acknowledged
                  (GetProjectConfiguration
                     (fixedService [] None config.noConfig
                        [finding "CVE-1" High])
                     (gogitlab.NameWithNamespace
                        (project "widget"
                           "https://gitlab.com/acme/widget.git")) dir)))
          (Vulnerabilities
             (GenerateReport
                (fixedService [] None config.noConfig [finding "CVE-1" High])
                (project "widget" "https://gitlab.com/acme/widget.git")
                osvReport)).
Proof.
  apply (scanProject_IsVulnerable_from_scanner
           (fixedService [] None config.noConfig [finding "CVE-1" High])
           (project "widget" "https://gitlab.com/acme/widget.git")).
  reflexivity.
Defined.

(** C8 (fails on the code): the configuration acknowledges [CVE-OLD], the
    scan finds nothing, so [CVE-OLD] is a stale acknowledgement; the report
    of [scanProject] has an empty [OutdatedAcks]. *)
Theorem scanProject_leaves_OutdatedAcks_empty :
  ∃ r,
    scanProject
      (fixedService [] None
         (config.mkProjectConfig "" [config.mkAck "CVE-OLD" "fixed upstream"])
         [])
      (project "widget" "https://gitlab.com/acme/widget.git") = inr r
    ∧ OutdatedAcks r = []
    ∧ staleAcks (ProjectConfig r) (Vulnerabilities r) = ["CVE-OLD"].
Proof. eexists. repeat split. Qed.


(** The reports of that run: the two scanned projects first, the
    placeholder of the failed one last. *)
Example scanAndGetReports_isolation_run :
  map (λ r, (gogitlab.Name (Project r), Error r,
             length (Vulnerabilities r)))
    (fst (fst (scanAndGetReports isolationService [2; 0]%nat
                 [config.mkLocation config.Gitlab "acme"])))
  = [("web", false, 1%nat); ("api", false, 1%nat); ("legacy", true, 0%nat)].
Proof. reflexivity. Qed.

(** C9, as stated, fails when no scan target resolves to a project: the
    working directory is there, the listing resolves nothing, and the run
    ends with a warning and a nil error. *)
Lemma Patrol_nothing_resolved_counterexample :
  MkdirAll nothingResolved tempScanDir = None
  ∧ fst (GetProjectList nothingResolved
           (gitlabLocs (config.Locations everythingOn))) = []
  ∧ (∃ warn,
       Patrol nothingResolved quietPublishers true [] everythingOn
       = (Some warn, None, []))
  ∧ ¬ fatal (Patrol nothingResolved quietPublishers true [] everythingOn).
Proof.
  split; [reflexivity|]. split; [reflexivity|].
  split; [eexists; reflexivity|].
  unfold fatal. vm_compute. intros H. by apply H.
Qed.

Lemma Patrol_fatal_only_without_working_directory_witness :
  MkdirAll nothingResolved tempScanDir = None
  ∧ fst (GetProjectList nothingResolved
           (gitlabLocs (config.Locations everythingOn))) = []
  ∧ ∃ warn,
      Patrol nothingResolved quietPublishers true [] everythingOn
      = (warn, None, [])
      ∧ (warn ≠ None
         ↔ snd (GetProjectList nothingResolved
                  (gitlabLocs (config.Locations everythingOn))) ≠ None).
Proof.
  split; [reflexivity|]. split; [reflexivity|].
  apply (proj2 (proj2 (Patrol_fatal_only_without_working_directory
                         nothingResolved quietPublishers true []
                         everythingOn))).
  - reflexivity.
  - reflexivity.
Defined.

Lemma markVulnsAsAcknowledgedInReport_reference_witness :
  markVulnsAsAcknowledgedInReport
    (specGenerateReport (project "widget" "https://gitlab.com/acme/widget.git")
       [finding "CVE-1" Critical; finding "CVE-2" Low])
    (config.mkProjectConfig ""
       [config.mkAck "CVE-1" "first"; config.mkAck "CVE-1" "not reachable"])
  = acknowledgedReport
      (specGenerateReport
         (project "widget" "https://gitlab.com/acme/widget.git")
         [finding "CVE-1" Critical; finding "CVE-2" Low])
      (config.mkProjectConfig ""
         [config.mkAck "CVE-1" "first"; config.mkAck "CVE-1" "not reachable"])
  ∧ ∃ v',
      Vulnerabilities
        (markVulnsAsAcknowledgedInReport
           (specGenerateReport
              (project "widget" "https://gitlab.com/acme/widget.git")
              [finding "CVE-1" Critical; finding "CVE-2" Low])
           (config.mkProjectConfig ""
              [config.mkAck "CVE-1" "first";
               config.mkAck "CVE-1" "not reachable"])) !! 0%nat
      = Some v'
      ∧ SeverityScoreKind_ v' = Acknowledged
      ∧ AckReason v' = "not reachable"
      ∧ Id v' = "CVE-1".
Proof.
  destruct (markVulnsAsAcknowledgedInReport_reference
              (specGenerateReport
                 (project "widget" "https://gitlab.com/acme/widget.git")
                 [finding "CVE-1" Critical; finding "CVE-2" Low])
              (config.mkProjectConfig ""
                 [config.mkAck "CVE-1" "first";
                  config.mkAck "CVE-1" "not reachable"]))
    as (Href & _ & Hvulns & _).
  split; [exact Href|].
  destruct (Hvulns 0%nat (finding "CVE-1" Critical) eq_refl)
    as (v' & Hv' & Hacked & _).
  exists v'. split; [exact Hv'|].
  destruct Hacked as (Hkind & ack & _ & _ & _ & Hlast & Hreason & Hid & _).
  { apply list_elem_of_fmap. exists (config.mkAck "CVE-1" "first").
    split; [reflexivity|]. by left. }
  split; [exact Hkind|].
  vm_compute in Hlast. injection Hlast as <-.
  split; [exact Hreason|exact Hid].
Defined.

(** The merge on that report: the critical finding is acknowledged with the
    reason of the last entry for its code, the other finding is as it was. *)
Example markVulnsAsAcknowledgedInReport_run :
  map (λ v, (Id v, SeverityScoreKind_ v, AckReason v))
    (Vulnerabilities
       (markVulnsAsAcknowledgedInReport
          (specGenerateReport
             (project "widget" "https://gitlab.com/acme/widget.git")
             [finding "CVE-1" Critical; finding "CVE-2" Low])
          (config.mkProjectConfig ""
             [config.mkAck "CVE-1" "first";
              config.mkAck "CVE-1" "not reachable"])))
  = [("CVE-1", Acknowledged, "not reachable"); ("CVE-2", Low, "")].
Proof. reflexivity. Qed.

End patrol_facts.

Module retry_facts.
Import slack slack_service.

Section retry.
Context {T St : Type}.
Variable zero : T.
Variable operation : St → (T * option error) * St.

#[local] Abbreviation fails i s := (snd (answer operation i s) ≠ None).

(** What a run of the loop comes to: some [j] failed attempts, each
    followed by a sleep, and one last invocation, which either succeeds or
    is the last attempt allowed. *)
Lemma retryLoop_run maxAttempts backoff :
  ∀ remaining attempt r0 e0 s tr,
  Z.of_nat remaining = maxAttempts - attempt + 1 →
  (1 ≤ remaining)%nat →
  ∃ (j : nat) err',
    (j < remaining)%nat
    ∧ (∀ i, (i < j)%nat → fails i s)
    ∧ retryLoop operation maxAttempts backoff remaining attempt r0 e0 s tr
      = mkRetryRun (fst (answer operation j s)) err'
          (stateBefore operation (S j) s)
          (tr ++ failedAttempts operation backoff attempt j s ++ [Invoked])
    ∧ ((snd (answer operation j s) = None ∧ err' = None)
       ∨ (∃ cause,
            snd (answer operation j s) = Some cause
            ∧ S j = remaining
            ∧ err' = Some (exhausted maxAttempts (Some cause)))).
Proof.
  induction remaining as [|remaining IH]; intros attempt r0 e0 s tr Hrem Hpos;
    [lia|].
  cbn [retryLoop]. destruct (operation s) as [[r e] s'] eqn:Hop.
  destruct e as [cause|].
  - destruct (attempt =? maxAttempts) eqn:E.
    + apply Z.eqb_eq in E. exists O, (Some (exhausted maxAttempts (Some cause))).
      split; [lia|]. split; [intros i Hi; lia|].
      unfold answer. simpl. rewrite Hop. simpl.
      split; [done|]. right. exists cause. split; [done|]. split; [lia|done].
    + apply Z.eqb_neq in E.
      destruct (IH (attempt + 1) r (Some cause) s'
                  ((tr ++ [Invoked])
                     ++ [Slept (sleepDuration backoff attempt cause)]))
        as (j & err' & Hj & Hf & Hrun & Hend); [lia|lia|].
      exists (S j), err'. split; [lia|]. split.
      { intros i Hi. destruct i as [|i].
        - unfold answer. simpl. by rewrite Hop.
        - rewrite slack_facts.answer_S, Hop. apply Hf. lia. }
      rewrite slack_facts.answer_S. cbn [failedAttempts stateBefore].
      rewrite Hop. simpl. split.
      { rewrite Hrun. f_equal. by rewrite <- !app_assoc. }
      destruct Hend as [Hok|(c & Hc & Hlast & He)]; [by left|].
      right. exists c. split; [done|]. split; [lia|done].
  - exists O, None. split; [lia|]. split; [intros i Hi; lia|].
    unfold answer. simpl. rewrite Hop. simpl. split; [done|]. by left.
Qed.

Lemma sleeps_failedAttempts backoff j : ∀ attempt s,
  (∀ i, (i < j)%nat → fails i s) →
  length (filter (λ ev, isSleep ev)
            (failedAttempts operation backoff attempt j s)) = j.
Proof.
  induction j as [|j IH]; intros attempt s Hf; [done|]. simpl.
  pose proof (Hf O ltac:(lia)) as H0. unfold answer in H0. simpl in H0.
  destruct (snd (fst (operation s))) as [e|]; [|done].
  rewrite filter_cons_False by (simpl; auto).
  rewrite filter_cons_True by done.
  simpl. f_equal. apply IH. intros i Hi.
  rewrite <- slack_facts.answer_S. apply Hf. lia.
Qed.

(** The run of [runWithRetries], in the terms of the lemma above. *)
Lemma runWithRetries_run maxAttempts backoff s :
  ∃ (j : nat) err',
    Z.of_nat j < Z.max 1 maxAttempts
    ∧ (∀ i, (i < j)%nat → fails i s)
    ∧ runWithRetries zero operation maxAttempts backoff s
      = mkRetryRun (fst (answer operation j s)) err'
          (stateBefore operation (S j) s)
          (failedAttempts operation backoff 1 j s ++ [Invoked])
    ∧ ((snd (answer operation j s) = None ∧ err' = None)
       ∨ (∃ cause,
            snd (answer operation j s) = Some cause
            ∧ Z.of_nat (S j) = Z.max 1 maxAttempts
            ∧ err' = Some (exhausted (Z.max 1 maxAttempts) (Some cause)))).
Proof.
  unfold runWithRetries.
  assert ((if maxAttempts <=? 0 then 1 else maxAttempts) = Z.max 1 maxAttempts)
    as -> by (destruct (maxAttempts <=? 0) eqn:E; lia).
  set (m := Z.max 1 maxAttempts). assert (1 <= m) as Hm by lia.
  destruct (retryLoop_run m backoff (Z.to_nat m) 1 zero None s [])
    as (j & err' & Hj & Hf & Hrun & Hend); [lia|lia|].
  exists j, err'. split; [lia|]. split; [done|]. split; [done|].
  destruct Hend as [Hok|(c & Hc & Hlast & He)]; [by left|].
  right. exists c. split; [done|]. split; [lia|done].
Qed.

(** X1: whatever the operation does, [runWithRetries] invokes it at least
    once and at most [max(1, maxAttempts)] times, sleeps exactly once
    between two invocations, and the last thing it does is an invocation:
    it never sleeps after the last attempt. *)
Theorem runWithRetries_attempt_bounds (maxAttempts backoff : Z) (s : St) :
  (1 ≤ invocations (runWithRetries zero operation maxAttempts backoff s))%nat
  ∧ Z.of_nat (invocations (runWithRetries zero operation maxAttempts backoff s))
    <= Z.max 1 maxAttempts
  ∧ sleeps (runWithRetries zero operation maxAttempts backoff s)
    = (invocations (runWithRetries zero operation maxAttempts backoff s) - 1)%nat
  ∧ last (trace (runWithRetries zero operation maxAttempts backoff s))
    = Some Invoked.
Proof.
  destruct (runWithRetries_run maxAttempts backoff s)
    as (j & err' & Hj & Hf & -> & _).
  unfold invocations, sleeps. simpl.
  rewrite !filter_app, !length_app.
  rewrite slack_facts.count_failedAttempts, sleeps_failedAttempts by done.
  simpl. repeat split; [lia|lia|lia|apply last_snoc].
Qed.

(** X2: the outcome of [runWithRetries] is that of its last invocation, and
    an error is returned only when every attempt allowed has been used:
    every invocation before the last failed; the result and the final state
    are those of the last invocation; the error is nil exactly when the
    last invocation succeeded; and a returned error means that
    [max(1, maxAttempts)] invocations were made and wraps the error of the
    last one under the message that states this number. *)
Theorem runWithRetries_error_iff_exhausted
    (maxAttempts backoff : Z) (s : St) :
  let run := runWithRetries zero operation maxAttempts backoff s in
  let n := invocations run in
  final run = stateBefore operation n s
  ∧ result run = fst (answer operation (n - 1) s)
  ∧ (∀ i, (i < n - 1)%nat → fails i s)
  ∧ (err run = None ↔ snd (answer operation (n - 1) s) = None)
  ∧ (∀ e, err run = Some e →
       Z.of_nat n = Z.max 1 maxAttempts
       ∧ ∃ cause,
           snd (answer operation (n - 1) s) = Some cause
           ∧ e = wrapError
                   ("operation failed after "
                      +:+ pretty (Z.max 1 maxAttempts) +:+ " attempts: ")
                   cause).
Proof.
  cbv zeta.
  destruct (runWithRetries_run maxAttempts backoff s)
    as (j & err' & Hj & Hf & -> & Hend).
  assert (invocations
            (mkRetryRun (fst (answer operation j s)) err'
               (stateBefore operation (S j) s)
               (failedAttempts operation backoff 1 j s ++ [Invoked]))
          = S j) as ->.
  { unfold invocations. simpl. rewrite filter_app, length_app.
    rewrite slack_facts.count_failedAttempts by done. simpl. lia. }
  simpl. replace (j - 0)%nat with j by lia.
  split; [done|]. split; [done|]. split; [done|].
  destruct Hend as [[Hok ->]|(c & Hc & Hlast & ->)].
  - split; [done|]. intros e He. discriminate He.
  - split; [split; intros H; [discriminate H|congruence]|].
    intros e [= <-]. split; [done|]. by exists c.
Qed.

Lemma exponentialBackoff_fits backoff attempt :
  1 <= attempt → 0 <= backoff → backoff * 2 ^ (attempt - 1) < 2 ^ 63 →
  exponentialBackoff backoff attempt = backoff * 2 ^ (attempt - 1).
Proof.
  intros Ha Hb Hfit. unfold exponentialBackoff, shl64. rewrite Z.mul_1_l.
  assert (0 < 2 ^ (attempt - 1)) as Hpow by (apply Z.pow_pos_nonneg; lia).
  destruct (decide (backoff = 0)) as [->|Hne].
  - rewrite !Z.mul_0_l. reflexivity.
  - assert (2 ^ (attempt - 1) < 2 ^ 63) as Hlt by nia.
    rewrite (slack_facts.wrap64_small (2 ^ _)) by lia.
    apply slack_facts.wrap64_small. nia.
Qed.

Lemma slept_app tr1 tr2 : slept (tr1 ++ tr2) = slept tr1 + slept tr2.
Proof.
  induction tr1 as [|[|d] tr1 IH]; simpl; [done|done|]. rewrite IH. lia.
Qed.

Lemma slept_failedAttempts backoff j : ∀ attempt s,
  1 <= attempt → 0 <= backoff →
  backoff * 2 ^ (attempt + Z.of_nat j - 1) < 2 ^ 63 →
  (∀ i, (i < j)%nat → fails i s) →
  (∀ i cause, (i < j)%nat → snd (answer operation i s) = Some cause →
     errors.AsRateLimited cause = None) →
  slept (failedAttempts operation backoff attempt j s)
  = backoff * 2 ^ (attempt - 1) * (2 ^ Z.of_nat j - 1).
Proof.
  induction j as [|j IH]; intros attempt s Ha Hb Hfit Hf Hplain.
  - simpl. lia.
  - cbn [failedAttempts].
    pose proof (Hf O ltac:(lia)) as H0.
    pose proof (Hplain O) as Hp0. unfold answer in H0, Hp0. simpl in H0, Hp0.
    destruct (snd (fst (operation s))) as [e|]; [|done].
    specialize (Hp0 e ltac:(lia) eq_refl).
    simpl. rewrite IH.
    + unfold sleepDuration. rewrite Hp0.
      assert (2 ^ (attempt + Z.of_nat (S j) - 1)
              = 2 ^ (attempt - 1) * 2 ^ Z.of_nat (S j)) as Hsplit
        by (rewrite <- Z.pow_add_r by lia; f_equal; lia).
      assert (0 < 2 ^ (attempt - 1)) as Hp1 by (apply Z.pow_pos_nonneg; lia).
      assert (1 <= 2 ^ Z.of_nat (S j)) as Hp2
        by (pose proof (Z.pow_pos_nonneg 2 (Z.of_nat (S j))); lia).
      rewrite exponentialBackoff_fits; [|lia|lia|nia].
      replace (attempt + 1 - 1) with (Z.succ (attempt - 1)) by lia.
      rewrite Z.pow_succ_r by lia.
      replace (Z.of_nat (S j)) with (Z.succ (Z.of_nat j)) by lia.
      rewrite Z.pow_succ_r by lia. ring.
    + lia.
    + lia.
    + replace (attempt + 1 + Z.of_nat j - 1)
        with (attempt + Z.of_nat (S j) - 1) by lia. done.
    + intros i Hi. rewrite <- slack_facts.answer_S. apply Hf. lia.
    + intros i cause Hi Hc. apply (Hplain (S i)); [lia|].
      by rewrite slack_facts.answer_S.
Qed.

(** X3: when none of the failures carries a rate-limit signal and the
    backoff does not overflow, a run of [n] invocations has slept
    [backoff * (2^(n-1) - 1)] in all: each sleep doubles the one before. *)
Theorem runWithRetries_total_backoff (maxAttempts backoff : Z) (s : St) :
  let run := runWithRetries zero operation maxAttempts backoff s in
  let n := invocations run in
  0 <= backoff →
  backoff * 2 ^ (Z.of_nat n - 1) < 2 ^ 63 →
  (∀ i cause, (i < n - 1)%nat → snd (answer operation i s) = Some cause →
     errors.AsRateLimited cause = None) →
  slept (trace run) = backoff * (2 ^ (Z.of_nat n - 1) - 1).
Proof.
  cbv zeta.
  destruct (runWithRetries_run maxAttempts backoff s)
    as (j & err' & Hj & Hf & -> & _).
  assert (invocations
            (mkRetryRun (fst (answer operation j s)) err'
               (stateBefore operation (S j) s)
               (failedAttempts operation backoff 1 j s ++ [Invoked]))
          = S j) as ->.
  { unfold invocations. simpl. rewrite filter_app, length_app.
    rewrite slack_facts.count_failedAttempts by done. simpl. lia. }
  simpl trace. replace (S j - 1)%nat with j by lia.
  replace (Z.of_nat (S j) - 1) with (Z.of_nat j) by lia.
  intros Hb Hfit Hplain. rewrite slept_app. simpl.
  rewrite (slept_failedAttempts backoff j 1 s); [|lia|done| |done|done].
  - simpl. lia.
  - replace (1 + Z.of_nat j - 1) with (Z.of_nat j) by lia. done.
Qed.

(** The state changes only through the operation: a preorder that every
    invocation respects holds between the first state and the last. *)
Lemma stateBefore_related (R : St → St → Prop)
    `{!Reflexive R} `{!Transitive R} :
  (∀ s, R s (snd (operation s))) →
  ∀ n s, R s (stateBefore operation n s).
Proof.
  intros Hstep. induction n as [|n IH]; intros s; simpl; [done|].
  etrans; [apply Hstep|apply IH].
Qed.

Lemma stateBefore_S n s :
  stateBefore operation (S n) s
  = snd (operation (stateBefore operation n s)).
Proof. revert s. induction n as [|n IH]; intros s; [done|]. simpl. apply IH. Qed.

End retry.

Lemma runWithRetries_total_backoff_witness :
  slept (trace (runWithRetries 0 (failing (errorString "down")) 3
                  2000000000 O))
  = 2000000000
    * (2 ^ (Z.of_nat
              (invocations
                 (runWithRetries 0 (failing (errorString "down")) 3
                    2000000000 O)) - 1) - 1).
Proof.
  apply (runWithRetries_total_backoff 0 (failing (errorString "down")) 3
           2000000000 O).
  - lia.
  - reflexivity.
  - intros i cause _ Hc. unfold answer, failing in Hc. simpl in Hc.
    injection Hc as <-. reflexivity.
Defined.

End retry_facts.

Module resolution_facts.
Import slack slack_service.

Section resolution.
Context {C MsgOption : Type}.
Variable svc : service C MsgOption.

Lemma FindFirstUsing_found {A : Type} (l : list A) (f : A → bool) x :
  -1 < FindFirstUsing l f →
  l !! Z.to_nat (FindFirstUsing l f) = Some x →
  f x = true.
Proof.
  induction l as [|y l IH]; simpl; [lia|].
  destruct (f y) eqn:Hy.
  - intros _ [= <-]. done.
  - destruct (FindFirstUsing l f =? -1) eqn:E; [lia|].
    apply Z.eqb_neq in E. intros Hidx Hx.
    assert (-1 <= FindFirstUsing l f) as Hge.
    { clear. induction l as [|z l IH]; simpl; [lia|].
      destruct (f z); [lia|]. destruct (FindFirstUsing l f =? -1); lia. }
    replace (Z.to_nat (FindFirstUsing l f + 1))
      with (S (Z.to_nat (FindFirstUsing l f))) in Hx by lia.
    apply IH; [lia|done].
Qed.

Lemma listPage_calls cursor (w : world C) :
  calls (snd (listPage svc cursor w)) = calls w ++ [listingFrom cursor].
Proof.
  unfold listPage, callGetConversations.
  destruct (GetConversations (client svc) _ (remote w)) as [[[chs cur] e] c'].
  by destruct e.
Qed.

Lemma listPage_repeated cursor n : ∀ w : world C,
  calls (stateBefore (listPage svc cursor) n w)
  = calls w ++ replicate n (listingFrom cursor).
Proof.
  induction n as [|n IH]; intros w; simpl; [by rewrite app_nil_r|].
  by rewrite IH, listPage_calls, <- app_assoc.
Qed.

Lemma findLoop_spec channelName fuel :
  ∀ cursor (w w' : world C) ch e,
  findLoop svc channelName fuel cursor w = Ret ((ch, e), w') →
  (∃ extra,
     calls w' = calls w ++ listingFrom cursor :: extra ∧ listedOnly extra)
  ∧ (∀ c, ch = Some c → Name c = channelName ∧ e = None)
  ∧ (ch = None → e ≠ None).
Proof.
  induction fuel as [|fuel IH]; intros cursor w w' ch e; [done|].
  cbn [findLoop]. cbv zeta.
  destruct (retry_facts.runWithRetries_run (mkConversations [] "")
              (listPage svc cursor) (maxAttempts svc) (initialBackoff svc) w)
    as (j & err' & _ & _ & -> & _).
  cbn [err result final].
  assert (∃ extra,
            calls (stateBefore (listPage svc cursor) (S j) w)
            = calls w ++ listingFrom cursor :: extra ∧ listedOnly extra)
    as (extra0 & Hcalls & Hextra0).
  { exists (replicate j (listingFrom cursor)).
    split; [apply (listPage_repeated cursor (S j))|].
    apply Forall_replicate. by eexists. }
  destruct err' as [opErr|].
  - intros [= <- <- <-]. split; [by exists extra0|]. split; [done|done].
  - set (page := fst (answer (listPage svc cursor) j w)).
    destruct (-1 <? FindFirstUsing (Channels page) _) eqn:Hidx.
    + apply Z.ltb_lt in Hidx.
      destruct (Channels page !! _) as [c|] eqn:Hc; [|done].
      intros [= <- <- <-]. split; [by exists extra0|]. split; [|done].
      intros c' [= <-]. split; [|done].
      apply FindFirstUsing_found in Hc; [|done].
      by apply bool_decide_eq_true in Hc.
    + destruct (decide (NextCursor page = "")).
      * intros [= <- <- <-]. split; [by exists extra0|]. split; [done|done].
      * intros Hloop. apply IH in Hloop as ((extra & He & Hl) & Hch & Hnone).
        split; [|by split].
        exists (extra0 ++ listingFrom (NextCursor page) :: extra). split.
        -- rewrite He, Hcalls, <- app_assoc. done.
        -- apply Forall_app. split; [done|].
           apply Forall_cons. split; [by eexists|done].
Qed.

Lemma FindFirstUsing_first {A : Type} (l : list A) (f : A → bool) x :
  -1 < FindFirstUsing l f →
  l !! Z.to_nat (FindFirstUsing l f) = Some x →
  ∃ before after,
    l = before ++ x :: after
    ∧ Forall (λ y, f y = false) before
    ∧ f x = true.
Proof.
  induction l as [|y l IH]; simpl; [lia|].
  destruct (f y) eqn:Hy.
  - intros _ [= <-]. by exists [], l.
  - destruct (FindFirstUsing l f =? -1) eqn:E; [lia|].
    apply Z.eqb_neq in E. intros Hidx Hx.
    assert (-1 <= FindFirstUsing l f) as Hge.
    { clear. induction l as [|z l IH]; simpl; [lia|].
      destruct (f z); [lia|]. destruct (FindFirstUsing l f =? -1); lia. }
    replace (Z.to_nat (FindFirstUsing l f + 1))
      with (S (Z.to_nat (FindFirstUsing l f))) in Hx by lia.
    destruct IH as (before & after & -> & Hb & Hfx); [lia|done|].
    exists (y :: before), after. split; [done|]. split; [|done].
    by constructor.
Qed.

Lemma last_app_cons {A : Type} (l1 l2 : list A) x :
  last (l1 ++ x :: l2) = last (x :: l2).
Proof.
  induction l1 as [|y l1 IH]; [done|].
  simpl. rewrite <- IH. by destruct (l1 ++ x :: l2) eqn:E; [destruct l1|].
Qed.

(** The channel a resolution returns is the first one with the requested
    name on the page answered to its last listing call. *)
Lemma findLoop_served channelName fuel :
  ∀ cursor (w w' : world C) c e,
  findLoop svc channelName fuel cursor w = Ret ((Some c, e), w') →
  ∃ call,
    last (calls w') = Some call ∧ firstNamedOn svc channelName call c.
Proof.
  induction fuel as [|fuel IH]; intros cursor w w' c e; [done|].
  cbn [findLoop]. cbv zeta.
  destruct (retry_facts.runWithRetries_run (mkConversations [] "")
              (listPage svc cursor) (maxAttempts svc) (initialBackoff svc) w)
    as (j & err' & _ & _ & -> & Hend).
  cbn [err result final].
  destruct err' as [opErr|]; [done|].
  destruct Hend as [[Hok _]|(cause & _ & _ & Hc)]; [|done].
  pose proof (listPage_repeated cursor (S j) w) as Hcalls.
  unfold answer in *.
  set (wj := stateBefore (listPage svc cursor) j w) in *.
  set (page := fst (fst (listPage svc cursor wj))).
  destruct (-1 <? FindFirstUsing (Channels page) _) eqn:Hidx.
  - apply Z.ltb_lt in Hidx.
    destruct (Channels page !! _) as [c0|] eqn:Hc; [|done].
    intros [= <- <- <-]. exists (listingFrom cursor). split.
    + change (last (calls (stateBefore (listPage svc cursor) (S j) w))
              = Some (listingFrom cursor)).
      rewrite Hcalls. replace (S j) with (j + 1)%nat by lia.
      rewrite replicate_add. simpl. rewrite app_assoc. apply last_snoc.
    + apply FindFirstUsing_first in Hc as (before & after & Hpage & Hb & Hn);
        [|done].
      subst page. unfold listPage, callGetConversations in *.
      destruct (GetConversations (client svc) _ (remote wj))
        as [[[chans next] convErr] st'] eqn:Hget.
      destruct convErr as [convErr|]; [done|]. simpl in Hpage.
      exists cursor, (remote wj), chans, next, st', before, after.
      split; [done|]. split; [done|]. split; [done|]. split.
      * eapply Forall_impl; [exact Hb|]. intros x Hx.
        by apply bool_decide_eq_false in Hx.
      * by apply bool_decide_eq_true in Hn.
  - destruct (decide (NextCursor page = "")); [done|]. apply IH.
Qed.

(** X4: a resolution that returns gives either a channel and a nil error
    or no channel and an error, and a channel it gives carries the name
    that was asked for. *)
Theorem findSlackChannel_result channelName fuel (w w' : world C) ch e :
  findSlackChannel svc channelName fuel w = Ret ((ch, e), w') →
  (∀ c, ch = Some c → Name c = channelName ∧ e = None)
  ∧ (ch = None → e ≠ None).
Proof. intros Hrun. by apply findLoop_spec in Hrun as (_ & ? & ?). Qed.

(** X5: a resolution only lists. Every call it makes on the client is a
    listing of the non-archived private and public channels, 1000 to a
    page; the first one starts from the empty cursor; it never posts. *)
Theorem findSlackChannel_only_lists channelName fuel (w w' : world C) r :
  findSlackChannel svc channelName fuel w = Ret (r, w') →
  ∃ extra,
    calls w' = calls w ++ listingFrom "" :: extra
    ∧ Forall (λ c, ∃ cursor, c = listingFrom cursor) extra
    ∧ ∀ channelID, PostMessageCalled channelID ∉ listingFrom "" :: extra.
Proof.
  destruct r as [ch e]. intros Hrun.
  apply findLoop_spec in Hrun as ((extra & Hcalls & Hextra) & _).
  exists extra. split; [done|]. split; [done|].
  intros channelID Hin. apply elem_of_cons in Hin as [Heq|Hin]; [done|].
  unfold listedOnly in Hextra. rewrite Forall_forall in Hextra.
  by destruct (Hextra _ Hin) as [cursor Hc].
Qed.

(** *** PostMessage *)

Lemma postOnce_calls channelID (options : list MsgOption) (w : world C) :
  calls (snd (postOnce svc channelID options w))
  = calls w ++ [PostMessageCalled channelID].
Proof.
  unfold postOnce, callPostMessage.
  by destruct (slack.PostMessage (client svc) _ _ (remote w))
    as [[[x msgTs] e] c'].
Qed.

Lemma postOnce_repeated channelID (options : list MsgOption) n :
  ∀ w : world C,
  calls (stateBefore (postOnce svc channelID options) n w)
  = calls w ++ replicate n (PostMessageCalled channelID).
Proof.
  induction n as [|n IH]; intros w; simpl; [by rewrite app_nil_r|].
  by rewrite IH, postOnce_calls, <- app_assoc.
Qed.

#[local] Instance grewByListing_refl : Reflexive (grewByListing (C:=C)).
Proof. intros st. exists []. split; [by rewrite app_nil_r|constructor]. Qed.

#[local] Instance grewByListing_trans : Transitive (grewByListing (C:=C)).
Proof.
  intros st1 st2 st3 (e1 & H1 & L1) (e2 & H2 & L2).
  exists (e1 ++ e2). split; [by rewrite H2, H1, app_assoc|].
  by apply Forall_app.
Qed.

Lemma resolveOnce_grewByListing channelName fuel
    (st : world C * option abort) :
  grewByListing st (snd (resolveOnce svc channelName fuel st)).
Proof.
  assert (∀ (w : world C) a a', grewByListing (w, a) (w, a')) as Hsame.
  { intros w a a'. exists []. split; [by rewrite app_nil_r|constructor]. }
  destruct st as [w [a|]]; simpl; [apply Hsame|].
  destruct (findSlackChannel svc channelName fuel w) as [[[ch e] w']| |] eqn:Hf;
    simpl; [|apply Hsame|apply Hsame].
  apply findLoop_spec in Hf as ((extra & Hcalls & Hextra) & _).
  exists (listingFrom "" :: extra). split; [done|].
  apply Forall_cons. split; [by eexists|done].
Qed.

(** An answer of the closure that left no abort behind is the answer of a
    resolution. *)
Lemma resolveOnce_answer channelName fuel st ch e :
  fst (resolveOnce svc channelName fuel st) = (ch, e) →
  snd (snd (resolveOnce svc channelName fuel st)) = None →
  (∀ c, ch = Some c → Name c = channelName ∧ e = None)
  ∧ (ch = None → e ≠ None).
Proof.
  destruct st as [w [a|]]; simpl; [done|].
  destruct (findSlackChannel svc channelName fuel w) as [[[ch' e'] w']| |] eqn:Hf;
    simpl; [|done|done].
  intros [= -> ->] _. by apply findLoop_spec in Hf as (_ & ? & ?).
Qed.

(** An answer of the closure with a channel is that of a resolution made
    in the closure's state. *)
Lemma resolveOnce_found channelName fuel (st : world C * option abort) c e :
  fst (resolveOnce svc channelName fuel st) = (Some c, e) →
  findSlackChannel svc channelName fuel (fst st)
  = Ret ((Some c, e), fst (snd (resolveOnce svc channelName fuel st))).
Proof.
  destruct st as [w [a|]]; simpl; [done|].
  destruct (findSlackChannel svc channelName fuel w) as [[[ch' e'] w']| |];
    simpl; [|done|done].
  by intros [= -> ->].
Qed.

(** What a call of [PostMessage] that returns has done. *)
Lemma PostMessage_spec channelName (options : list MsgOption) fuel
    (w w' : world C) ts e :
  PostMessage svc channelName options fuel w = Ret ((ts, e), w') →
  ∃ listed posted,
    calls w' = calls w ++ listed ++ posted
    ∧ listedOnly listed
    ∧ ((posted = [] ∧ ts = "" ∧ e ≠ None)
       ∨ (∃ c (n : nat),
            Name c = channelName
            ∧ posted = replicate (S n) (PostMessageCalled (ID c))
            ∧ Z.of_nat (S n) <= Z.max 1 (maxAttempts svc)
            ∧ (e = None ∨ Z.of_nat (S n) = Z.max 1 (maxAttempts svc))
            ∧ ∃ call,
                last listed = Some call
                ∧ firstNamedOn svc channelName call c)).
Proof.
  unfold PostMessage. cbv zeta.
  destruct (retry_facts.runWithRetries_run None
              (resolveOnce svc channelName fuel) (maxAttempts svc)
              (initialBackoff svc) (w, None))
    as (j & err1 & _ & _ & -> & Hend1).
  cbn [err result final].
  pose proof (retry_facts.stateBefore_related
                (resolveOnce svc channelName fuel) grewByListing
                (resolveOnce_grewByListing channelName fuel) (S j) (w, None))
    as (listed & Hlisted & Hl).
  rewrite retry_facts.stateBefore_S in *.
  change (calls (fst (w, @None abort))) with (calls w) in Hlisted.
  set (st := stateBefore (resolveOnce svc channelName fuel) j (w, None)) in *.
  destruct (snd (snd (resolveOnce svc channelName fuel st))) as [[|]|] eqn:Ha;
    [done|done|].
  destruct err1 as [e1|].
  - intros [= <- <- <-]. exists listed, []. rewrite app_nil_r.
    split; [done|]. split; [done|]. left. by split_and!.
  - destruct Hend1 as [[Hok _]|(c & _ & _ & Hc)]; [|done].
    unfold answer in *. fold st in Hok |- *.
    destruct (fst (resolveOnce svc channelName fuel st)) as [ch e0] eqn:Hans.
    simpl in Hok. subst e0.
    destruct (resolveOnce_answer channelName fuel st ch None Hans Ha)
      as [Hsome Hnone].
    destruct ch as [c|]; [|by destruct Hnone]. simpl.
    destruct (Hsome c eq_refl) as [Hname _].
    assert (∃ call, last listed = Some call
                    ∧ firstNamedOn svc channelName call c) as Hserved.
    { pose proof (resolveOnce_found channelName fuel st c None Hans) as Hfind.
      pose proof (retry_facts.stateBefore_related
                    (resolveOnce svc channelName fuel) grewByListing
                    (resolveOnce_grewByListing channelName fuel) j (w, None))
        as (listed0 & Hlisted0 & _).
      fold st in Hlisted0.
      change (calls (fst (w, @None abort))) with (calls w) in Hlisted0.
      destruct (findLoop_served _ _ _ _ _ _ _ Hfind)
        as (call & Hlast & Hfirst).
      apply findLoop_spec in Hfind as ((extra & Hcalls & _) & _).
      exists call. split; [|done].
      rewrite Hcalls, Hlisted0, <- app_assoc in Hlisted.
      apply app_inv_head in Hlisted. rewrite <- Hlisted.
      rewrite Hcalls in Hlast. by rewrite last_app_cons in Hlast |- *. }
    destruct (retry_facts.runWithRetries_run ""
                (postOnce svc (ID c) options) (maxAttempts svc)
                (initialBackoff svc)
                (fst (snd (resolveOnce svc channelName fuel st))))
      as (n & err2 & Hn & _ & -> & Hend2).
    cbn [err result final].
    assert (calls (stateBefore (postOnce svc (ID c) options) (S n)
                     (fst (snd (resolveOnce svc channelName fuel st))))
            = calls w ++ listed ++ replicate (S n) (PostMessageCalled (ID c)))
      as Hposted.
    { rewrite postOnce_repeated, Hlisted, <- app_assoc. done. }
    destruct err2 as [e2|].
    + intros [= <- <- <-].
      exists listed, (replicate (S n) (PostMessageCalled (ID c))).
      split; [done|]. split; [done|]. right. exists c, n.
      split; [done|]. split; [done|]. split; [lia|]. split; [|done].
      right. destruct Hend2 as [[_ ?]|(c2 & _ & Hlast & _)]; [done|lia].
    + intros [= <- <- <-].
      exists listed, (replicate (S n) (PostMessageCalled (ID c))).
      split; [done|]. split; [done|]. right. exists c, n.
      split; [done|]. split; [done|]. split; [lia|]. split; [by left|done].
Qed.

(** X6: a call of [PostMessage] that returns has first listed channels and
    then posted, and every post went to one and the same channel, whose
    name is the one asked for; it posted at most [max(1, maxAttempts)]
    times. The channel is one that the client served: the first channel
    with that name on a page that the client answered, without an error,
    to the last listing call made before the posts. *)
Theorem PostMessage_posts_to_named_channel channelName
    (options : list MsgOption) fuel (w w' : world C) ts e :
  PostMessage svc channelName options fuel w = Ret ((ts, e), w') →
  ∃ listed posted,
    calls w' = calls w ++ listed ++ posted
    ∧ Forall (λ c, ∃ cursor, c = listingFrom cursor) listed
    ∧ Z.of_nat (length posted) <= Z.max 1 (maxAttempts svc)
    ∧ ∃ c, (posted ≠ [] →
            Name c = channelName
            ∧ ∃ call,
                last listed = Some call
                ∧ firstNamedOn svc channelName call c)
           ∧ Forall (λ call, call = PostMessageCalled (ID c)) posted.
Proof.
  intros Hrun.
  apply PostMessage_spec in Hrun as (listed & posted & Hcalls & Hl & Hcase).
  exists listed, posted. split; [done|]. split; [done|].
  destruct Hcase as [(-> & _ & _)|(c & n & Hname & -> & Hn & _ & Hserved)].
  - split; [simpl; lia|]. exists (mkChannel "" ""). split; [done|constructor].
  - split; [by rewrite length_replicate|]. exists c. split; [done|].
    apply Forall_replicate. done.
Qed.

(** X7: [PostMessage] returns a nil error only after a post, which is then
    the last call it made, and which went to the resolved channel: the
    first channel with the requested name on a page that the client
    answered, without an error, to the last listing call, after which the
    call only posted to that channel; and when it made no post, because
    the channel could not be resolved, it returns an empty timestamp and
    an error. *)
Theorem PostMessage_success_means_posted channelName
    (options : list MsgOption) fuel (w w' : world C) ts e :
  PostMessage svc channelName options fuel w = Ret ((ts, e), w') →
  (e = None →
   ∃ c, Name c = channelName
        ∧ last (calls w') = Some (PostMessageCalled (ID c))
        ∧ ∃ listed call (n : nat),
            calls w'
            = calls w ++ listed ++ replicate (S n) (PostMessageCalled (ID c))
            ∧ last listed = Some call
            ∧ firstNamedOn svc channelName call c)
  ∧ ((∀ channelID,
        PostMessageCalled channelID ∉ drop (length (calls w)) (calls w')) →
     ts = "" ∧ e ≠ None).
Proof.
  intros Hrun.
  apply PostMessage_spec in Hrun as (listed & posted & Hcalls & Hl & Hcase).
  destruct Hcase
    as [(-> & -> & He)
       |(c & n & Hname & -> & Hn & _ & call & Hlast & Hfirst)].
  - split; [done|]. done.
  - split.
    + intros _. exists c. split; [done|]. split; [|by exists listed, call, n].
      rewrite Hcalls, !app_assoc. replace (S n) with (n + 1)%nat by lia.
      rewrite replicate_add. simpl. rewrite app_assoc. apply last_snoc.
    + intros Hnone. exfalso. apply (Hnone (ID c)).
      rewrite Hcalls, drop_app_length. apply elem_of_app. right. by left.
Qed.

End resolution.

Lemma findSlackChannel_result_witness :
  (∀ c, Some (mkChannel "1234" "random channel") = Some c →
        Name c = "random channel" ∧ @None error = None)
  ∧ (Some (mkChannel "1234" "random channel") = None → @None error ≠ None).
Proof.
  apply (findSlackChannel_result cacheTestService "random channel" 1
           (mkWorld tt []) (mkWorld tt [listingFrom ""])).
  reflexivity.
Defined.

Lemma findSlackChannel_only_lists_witness :
  ∃ extra,
    calls (mkWorld tt [listingFrom ""])
    = calls (mkWorld tt []) ++ listingFrom "" :: extra
    ∧ Forall (λ c, ∃ cursor, c = listingFrom cursor) extra
    ∧ ∀ channelID, PostMessageCalled channelID ∉ listingFrom "" :: extra.
Proof.
  apply (findSlackChannel_only_lists cacheTestService "random channel" 1
           (mkWorld tt []) (mkWorld tt [listingFrom ""])
           (Some (mkChannel "1234" "random channel"), None)).
  reflexivity.
Defined.

Lemma PostMessage_posts_to_named_channel_witness :
  ∃ listed posted,
    calls (mkWorld tt [listingFrom ""; PostMessageCalled "1234"])
    = calls (mkWorld tt []) ++ listed ++ posted
    ∧ Forall (λ c, ∃ cursor, c = listingFrom cursor) listed
    ∧ Z.of_nat (length posted) <= Z.max 1 (maxAttempts cacheTestService)
    ∧ ∃ c, (posted ≠ [] →
            Name c = "random channel"
            ∧ ∃ call,
                last listed = Some call
                ∧ firstNamedOn cacheTestService "random channel" call c)
           ∧ Forall (λ call, call = PostMessageCalled (ID c)) posted.
Proof.
  apply (PostMessage_posts_to_named_channel cacheTestService "random channel"
           [] 1 (mkWorld tt [])
           (mkWorld tt [listingFrom ""; PostMessageCalled "1234"]) "" None).
  reflexivity.
Defined.

Lemma PostMessage_success_means_posted_witness :
  (@None error = None →
   ∃ c, Name c = "random channel"
        ∧ last (calls (mkWorld tt [listingFrom ""; PostMessageCalled "1234"]))
          = Some (PostMessageCalled (ID c))
        ∧ ∃ listed call (n : nat),
            calls (mkWorld tt [listingFrom ""; PostMessageCalled "1234"])
            = calls (mkWorld tt [])
              ++ listed ++ replicate (S n) (PostMessageCalled (ID c))
            ∧ last listed = Some call
            ∧ firstNamedOn cacheTestService "random channel" call c)
  ∧ ((∀ channelID,
        PostMessageCalled channelID
        ∉ drop (length (calls (mkWorld tt [])))
            (calls (mkWorld tt [listingFrom ""; PostMessageCalled "1234"]))) →
     "" = "" ∧ @None error ≠ None).
Proof.
  apply (PostMessage_success_means_posted cacheTestService "random channel"
           [] 1 (mkWorld tt [])
           (mkWorld tt [listingFrom ""; PostMessageCalled "1234"]) "" None).
  reflexivity.
Defined.

End resolution_facts.

Module chunking_facts.
Import publish.

Lemma splitLoop_count maxLen fuel :
  0 < maxLen →
  ∀ chunks s, (length s ≤ fuel)%nat →
  ∃ cs, splitLoop fuel chunks s maxLen = Ret (chunks ++ cs)
        ∧ (len s <= maxLen → cs = [s])
        ∧ (s ≠ [] → Forall (λ c, c ≠ []) cs)
        ∧ len s <= len cs * maxLen
        ∧ len cs <= Z.max 1 (len s).
Proof.
  intros Hpos. unfold len.
  induction fuel as [|fuel IH]; intros chunks s Hfuel; simpl.
  - destruct (maxLen <? len s) eqn:E.
    { apply Z.ltb_lt in E. unfold len in E. lia. }
    apply Z.ltb_ge in E. unfold len in E. exists [s]. simpl.
    split; [done|]. split; [done|].
    split; [intros ?; by repeat constructor|]. lia.
  - destruct (maxLen <? len s) eqn:E.
    + apply Z.ltb_lt in E. unfold len in E.
      pose proof (publish_facts.cutIndex_range s maxLen Hpos) as R.
      set (idx := cutIndex s maxLen) in *.
      assert (length (take (Z.to_nat idx) s) = Z.to_nat idx) as Hc
        by (rewrite length_take; lia).
      assert (length (drop (Z.to_nat idx) s) = (length s - Z.to_nat idx)%nat)
        as Hd by apply length_drop.
      destruct (IH (chunks ++ [take (Z.to_nat idx) s]) (drop (Z.to_nat idx) s))
        as (cs & Hrun & _ & Hne & Hlow & Hup); [lia|].
      exists (take (Z.to_nat idx) s :: cs).
      split; [by rewrite Hrun, <- app_assoc|]. split; [lia|].
      split.
      { intros _. constructor.
        - intros Hnil. rewrite Hnil in Hc. simpl in Hc. lia.
        - apply Hne. intros Hnil. rewrite Hnil in Hd. simpl in Hd. lia. }
      simpl length. split; nia.
    + apply Z.ltb_ge in E. unfold len in E. exists [s]. simpl.
      split; [done|]. split; [done|].
      split; [intros ?; by repeat constructor|]. lia.
Qed.

(** X8: for a limit [maxLen > 0], a text that fits is returned as the one
    chunk (the empty text as one empty chunk); for a text that is not
    empty no chunk is empty; and the number [n] of chunks is at least
    [len(s) / maxLen] rounded up and at most [max(1, len(s))]. *)
Theorem splitMessage_chunk_count (s : list byte) (maxLen : Z) :
  0 < maxLen →
  ∃ chunks,
    splitMessage s maxLen = Ret chunks
    ∧ (len s <= maxLen → chunks = [s])
    ∧ (s ≠ [] → Forall (λ c, c ≠ []) chunks)
    ∧ len s <= len chunks * maxLen
    ∧ len chunks <= Z.max 1 (len s).
Proof.
  intros Hpos. unfold splitMessage.
  destruct (maxLen <=? 0) eqn:E; [apply Z.leb_le in E; lia|].
  destruct (splitLoop_count maxLen (length s) Hpos [] s) as (cs & Hrun & H);
    [done|].
  exists cs. by split.
Qed.

Lemma splitMessage_chunk_count_witness :
  ∃ chunks,
    splitMessage ["a"; newline; "b"; "c"; "d"]%byte 2 = Ret chunks
    ∧ (len ["a"; newline; "b"; "c"; "d"]%byte <= 2 →
       chunks = [["a"; newline; "b"; "c"; "d"]%byte])
    ∧ (["a"; newline; "b"; "c"; "d"]%byte ≠ [] → Forall (λ c, c ≠ []) chunks)
    ∧ len ["a"; newline; "b"; "c"; "d"]%byte <= len chunks * 2
    ∧ len chunks <= Z.max 1 (len ["a"; newline; "b"; "c"; "d"]%byte).
Proof. apply (splitMessage_chunk_count _ 2). lia. Defined.

End chunking_facts.

Module gostrings_facts.
Import gostrings.

Lemma Split_nonempty s sep : Split s sep ≠ [].
Proof.
  destruct s as [|c t]; simpl; [done|].
  destruct (decide (c = sep)); [done|]. by destruct (Split t sep).
Qed.

Lemma Split_length s sep : length (Split s sep) = S (Count s sep).
Proof.
  induction s as [|c t IH]; simpl; [done|].
  destruct (decide (c = sep)); simpl; [by rewrite IH|].
  pose proof (Split_nonempty t sep). by destruct (Split t sep).
Qed.

(** Splitting a text at a separator and joining the pieces with the same
    separator gives the text back. *)
Lemma Join_Split s sep : Join (Split s sep) (String sep "") = s.
Proof.
  induction s as [|c t IH]; simpl; [done|].
  pose proof (Split_nonempty t sep) as Hne.
  destruct (decide (c = sep)) as [->|Hc].
  - destruct (Split t sep) as [|piece pieces] eqn:E; [done|].
    change (Join ("" :: piece :: pieces) (String sep ""))
      with (String sep (Join (piece :: pieces) (String sep ""))).
    by rewrite IH.
  - destruct (Split t sep) as [|piece pieces] eqn:E; [done|].
    destruct pieces as [|p2 pieces].
    + simpl in *. by rewrite IH.
    + change (Join (String c piece :: p2 :: pieces) (String sep ""))
        with (String c (Join (piece :: p2 :: pieces) (String sep ""))).
      by rewrite IH.
Qed.

Lemma Split_pieces s sep : Forall (λ piece, Count piece sep = O) (Split s sep).
Proof.
  induction s as [|c t IH]; simpl; [by repeat constructor|].
  destruct (decide (c = sep)) as [->|Hc]; [by constructor|].
  pose proof (Split_nonempty t sep) as Hne.
  destruct (Split t sep) as [|piece pieces]; [done|].
  apply Forall_cons in IH as [Hp Hps]. constructor; [|done].
  simpl. by rewrite decide_False.
Qed.

End gostrings_facts.

Module listing_facts.
Import github_listing.

Section pagination.
Context {T St : Type}.
Variable f : ListOptions → St → (error + list T * Z) * St.

Lemma paginate_S fuel opts acc st :
  paginate f (S fuel) opts acc st
  = match fst (f opts st) with
    | inl e => Ret (([], Some e), snd (f opts st))
    | inr (pageResults, nextPage) =>
        if nextPage =? 0 then Ret ((acc ++ pageResults, None), snd (f opts st))
        else paginate f fuel (mkListOptions nextPage (PerPage opts))
               (acc ++ pageResults) (snd (f opts st))
    end.
Proof. simpl. destruct (f opts st) as [[e|[p n]] st1]; reflexivity. Qed.

Lemma served_S i k st :
  served f i (S k) st = served f (S i) k (snd (f (pageOptions i) st)).
Proof. reflexivity. Qed.

Lemma paginate_pages (ps : list (list T)) (k : nat) :
  ∀ (i : nat) acc st,
  (i + S k = length ps)%nat →
  (∀ (j : nat) p st, ps !! j = Some p →
     fst (f (pageOptions j) st) = inr (p, nextOf (length ps) j)) →
  paginate f (S k) (pageOptions i) acc st
  = Ret ((acc ++ concat (drop i ps), None), served f i (S k) st).
Proof.
  induction k as [|k IH]; intros i acc st Hlen Hserve.
  - destruct (lookup_lt_is_Some_2 ps i) as [p Hp]; [lia|].
    rewrite paginate_S, served_S, (Hserve i p st Hp).
    unfold nextOf. rewrite decide_False by lia. simpl.
    rewrite (drop_S _ _ _ Hp), drop_ge by lia. simpl.
    by rewrite app_nil_r.
  - destruct (lookup_lt_is_Some_2 ps i) as [p Hp]; [lia|].
    rewrite paginate_S, served_S, (Hserve i p st Hp).
    unfold nextOf. rewrite decide_True by lia.
    destruct (Z.of_nat i + 2 =? 0) eqn:E; [apply Z.eqb_eq in E; lia|].
    replace (mkListOptions (Z.of_nat i + 2) (PerPage (pageOptions i)))
      with (pageOptions (S i))
      by (unfold pageOptions; simpl; f_equal; lia).
    rewrite (IH (S i)); [|lia|done].
    rewrite (drop_S _ _ _ Hp). simpl. by rewrite <- app_assoc.
Qed.

(** X9: when the source serves [n >= 1] pages numbered from 1, each page
    but the last naming the next one and the last naming page 0,
    [getGithubPaginatedResults] asks for pages 1 to [n] with 100 results
    a page and returns the results of all the pages, in order, with a nil
    error. *)
Theorem getGithubPaginatedResults_all_pages (ps : list (list T)) (st : St) :
  ps ≠ [] →
  (∀ (j : nat) p st, ps !! j = Some p →
     fst (f (pageOptions j) st) = inr (p, nextOf (length ps) j)) →
  getGithubPaginatedResults f (length ps) st
  = Ret ((concat ps, None), served f 0 (length ps) st).
Proof.
  intros Hne Hserve. unfold getGithubPaginatedResults.
  destruct (length ps) as [|k] eqn:Hlen; [by destruct ps|].
  rewrite <- Hlen in Hserve.
  change (mkListOptions 1 100) with (pageOptions 0).
  rewrite (paginate_pages ps k 0 [] st); [done|lia|done].
Qed.

Lemma paginate_error (ps : list (list T)) (e : error) (k : nat) :
  ∀ (i : nat) acc st,
  (i + k = length ps)%nat →
  (∀ (j : nat) p st, ps !! j = Some p →
     fst (f (pageOptions j) st) = inr (p, Z.of_nat j + 2)) →
  (∀ st, fst (f (pageOptions (length ps)) st) = inl e) →
  paginate f (S k) (pageOptions i) acc st
  = Ret (([], Some e), served f i (S k) st).
Proof.
  induction k as [|k IH]; intros i acc st Hlen Hserve Hfail.
  - rewrite paginate_S, served_S. replace i with (length ps) by lia.
    by rewrite Hfail.
  - destruct (lookup_lt_is_Some_2 ps i) as [p Hp]; [lia|].
    rewrite paginate_S, served_S, (Hserve i p st Hp).
    destruct (Z.of_nat i + 2 =? 0) eqn:E; [apply Z.eqb_eq in E; lia|].
    replace (mkListOptions (Z.of_nat i + 2) (PerPage (pageOptions i)))
      with (pageOptions (S i))
      by (unfold pageOptions; simpl; f_equal; lia).
    by rewrite (IH (S i)); [|lia|done|done].
Qed.

(** X10: when the source fails on a page, after any number of pages served
    without error, [getGithubPaginatedResults] returns that error and no
    result at all: what the earlier pages gave is discarded. *)
Theorem getGithubPaginatedResults_error_discards
    (ps : list (list T)) (e : error) (st : St) :
  (∀ (j : nat) p st, ps !! j = Some p →
     fst (f (pageOptions j) st) = inr (p, Z.of_nat j + 2)) →
  (∀ st, fst (f (pageOptions (length ps)) st) = inl e) →
  getGithubPaginatedResults f (S (length ps)) st
  = Ret (([], Some e), served f 0 (S (length ps)) st).
Proof.
  intros Hserve Hfail. unfold getGithubPaginatedResults.
  change (mkListOptions 1 100) with (pageOptions 0).
  by apply (paginate_error ps e (length ps) 0 [] st).
Qed.

(** More fuel than a run needs does not change what it returns. *)
Lemma paginate_fuel fuel : ∀ opts acc st r (more : nat),
  paginate f fuel opts acc st = Ret r →
  paginate f (fuel + more) opts acc st = Ret r.
Proof.
  induction fuel as [|fuel IH]; intros opts acc st r more; [done|].
  replace (S fuel + more)%nat with (S (fuel + more)) by lia.
  rewrite !paginate_S.
  destruct (fst (f opts st)) as [e|[p n]]; [done|].
  destruct (n =? 0); [done|]. apply IH.
Qed.

End pagination.

Lemma getGithubPaginatedResults_all_pages_witness :
  getGithubPaginatedResults twoPages (length [[1; 2]; [3]]) tt
  = Ret ((concat [[1; 2]; [3]], None),
         served twoPages 0 (length [[1; 2]; [3]]) tt).
Proof.
  apply (getGithubPaginatedResults_all_pages twoPages [[1; 2]; [3]] tt).
  - done.
  - intros j p st Hp. destruct j as [|[|j]]; simpl in Hp; [| |done];
      injection Hp as <-; reflexivity.
Defined.

Lemma getGithubPaginatedResults_error_discards_witness :
  getGithubPaginatedResults breaksOnSecond (S (length [[1; 2]])) tt
  = Ret (([], Some (errorString "502 Bad Gateway")),
         served breaksOnSecond 0 (S (length [[1; 2]])) tt).
Proof.
  apply (getGithubPaginatedResults_error_discards breaksOnSecond [[1; 2]]
           (errorString "502 Bad Gateway") tt).
  - intros j p st Hp. destruct j as [|j]; simpl in Hp; [|done].
    injection Hp as <-. reflexivity.
  - intros st. reflexivity.
Defined.

Section service.
Context {C : Type}.
Variable client : iGithubClient C.

Lemma derefStep_fold ptrs : ∀ acc,
  fst (foldl derefStep acc ptrs) = fst acc ++ omap id ptrs.
Proof.
  induction ptrs as [|[r|] ptrs IH]; intros acc; simpl.
  - by rewrite app_nil_r.
  - rewrite IH. simpl. by rewrite <- app_assoc.
  - by rewrite IH.
Qed.

(** [derefRepoPtrs] keeps the repositories that are not nil, in order. *)
Lemma derefRepoPtrs_omap owner ptrs : derefRepoPtrs owner ptrs = omap id ptrs.
Proof. unfold derefRepoPtrs. by rewrite derefStep_fold. Qed.

Lemma callOrganizationRepositories_calls org opts (w : world C) :
  calls (snd (callOrganizationRepositories client org opts w))
  = calls w ++ [GetOrganizationRepositoriesCalled org opts].
Proof.
  unfold callOrganizationRepositories.
  by destruct (GetOrganizationRepositories client org opts (remote w)).
Qed.

Lemma callUserRepositories_calls user opts (w : world C) :
  calls (snd (callUserRepositories client user opts w))
  = calls w ++ [GetUserRepositoriesCalled user "owner" opts].
Proof.
  unfold callUserRepositories.
  by destruct (GetUserRepositories client user "owner" opts (remote w)).
Qed.

Lemma served_organization_calls org k : ∀ (i : nat) (w : world C),
  calls (served (callOrganizationRepositories client org) i k w)
  = calls w
    ++ map (λ j, GetOrganizationRepositoriesCalled org (pageOptions j))
         (seq i k).
Proof.
  induction k as [|k IH]; intros i w; [simpl; by rewrite app_nil_r|].
  rewrite served_S, IH, callOrganizationRepositories_calls.
  simpl. by rewrite <- app_assoc.
Qed.

Lemma served_user_calls user k : ∀ (i : nat) (w : world C),
  calls (served (callUserRepositories client user) i k w)
  = calls w
    ++ map (λ j, GetUserRepositoriesCalled user "owner" (pageOptions j))
         (seq i k).
Proof.
  induction k as [|k IH]; intros i w; [simpl; by rewrite app_nil_r|].
  rewrite served_S, IH, callUserRepositories_calls.
  simpl. by rewrite <- app_assoc.
Qed.

Lemma organization_pages owner (ps : list (list (option Repository)))
    (more : nat) (w : world C) :
  ps ≠ [] →
  (∀ (j : nat) p c, ps !! j = Some p →
     fst (GetOrganizationRepositories client owner (pageOptions j) c)
     = inr (p, nextOf (length ps) j)) →
  getOrganizationRepos client (length ps + more) owner w
  = Ret ((concat ps, None),
         served (callOrganizationRepositories client owner) 0 (length ps) w).
Proof.
  intros Hne Hserve. unfold getOrganizationRepos, getGithubPaginatedResults.
  apply paginate_fuel. apply getGithubPaginatedResults_all_pages; [done|].
  intros j p st Hp. unfold callOrganizationRepositories.
  pose proof (Hserve j p (remote st) Hp) as Hf.
  by destruct (GetOrganizationRepositories client owner _ (remote st)).
Qed.

Lemma user_pages user (ps : list (list (option Repository)))
    (more : nat) (w : world C) :
  ps ≠ [] →
  (∀ (j : nat) p c, ps !! j = Some p →
     fst (GetUserRepositories client user "owner" (pageOptions j) c)
     = inr (p, nextOf (length ps) j)) →
  getUserRepos client (length ps + more) user w
  = Ret ((concat ps, None),
         served (callUserRepositories client user) 0 (length ps) w).
Proof.
  intros Hne Hserve. unfold getUserRepos, getGithubPaginatedResults.
  apply paginate_fuel. apply getGithubPaginatedResults_all_pages; [done|].
  intros j p st Hp. unfold callUserRepositories.
  pose proof (Hserve j p (remote st) Hp) as Hf.
  by destruct (GetUserRepositories client user _ _ (remote st)).
Qed.

Lemma organization_fails owner e (fuel : nat) (w : world C) :
  (∀ c, fst (GetOrganizationRepositories client owner (pageOptions 0) c)
        = inl e) →
  getOrganizationRepos client (S fuel) owner w
  = Ret (([], Some e),
         served (callOrganizationRepositories client owner) 0 1 w).
Proof.
  intros Hfail. unfold getOrganizationRepos, getGithubPaginatedResults.
  replace (S fuel) with (1 + fuel)%nat by lia. apply paginate_fuel.
  apply (getGithubPaginatedResults_error_discards
           (callOrganizationRepositories client owner) [] e w); [done|].
  intros st. unfold callOrganizationRepositories.
  pose proof (Hfail (remote st)) as Hf.
  by destruct (GetOrganizationRepositories client owner _ (remote st)).
Qed.

(** X11: for an owner that is an organization whose repositories come in
    [n >= 1] pages, [getOwnerRepos] returns the repositories of all the
    pages that are not nil, in order, with a nil error, after asking for
    the organization's pages 1 to [n] and for nothing else: the user
    listing is not called. *)
Theorem getOwnerRepos_organization owner
    (ps : list (list (option Repository))) (fuel : nat) (w : world C) :
  ps ≠ [] →
  (length ps ≤ fuel)%nat →
  (∀ (j : nat) p c, ps !! j = Some p →
     fst (GetOrganizationRepositories client owner (pageOptions j) c)
     = inr (p, nextOf (length ps) j)) →
  ∃ w',
    getOwnerRepos client fuel owner w = Ret ((omap id (concat ps), None), w')
    ∧ calls w'
      = calls w
        ++ map (λ j, GetOrganizationRepositoriesCalled owner (pageOptions j))
             (seq 0 (length ps)).
Proof.
  intros Hne Hfuel Hserve. unfold getOwnerRepos.
  replace fuel with (length ps + (fuel - length ps))%nat by lia.
  rewrite organization_pages by done.
  eexists. split; [by rewrite derefRepoPtrs_omap|].
  apply served_organization_calls.
Qed.

(** X12: for an owner that is not an organization (the organization
    listing fails) but a user whose repositories come in [n >= 1] pages,
    [getOwnerRepos] falls back on the user listing and returns the user's
    repositories that are not nil, in order, with a nil error: the failure
    of the first listing is not reported. It asked once for the
    organization and then for the user's pages 1 to [n], of type
    [owner]. *)
Theorem getOwnerRepos_user_fallback owner e
    (ps : list (list (option Repository))) (fuel : nat) (w : world C) :
  ps ≠ [] →
  (length ps ≤ fuel)%nat →
  (∀ c, fst (GetOrganizationRepositories client owner (pageOptions 0) c)
        = inl e) →
  (∀ (j : nat) p c, ps !! j = Some p →
     fst (GetUserRepositories client owner "owner" (pageOptions j) c)
     = inr (p, nextOf (length ps) j)) →
  ∃ w',
    getOwnerRepos client fuel owner w = Ret ((omap id (concat ps), None), w')
    ∧ calls w'
      = calls w
        ++ GetOrganizationRepositoriesCalled owner (pageOptions 0)
           :: map (λ j, GetUserRepositoriesCalled owner "owner" (pageOptions j))
                (seq 0 (length ps)).
Proof.
  intros Hne Hfuel Hfail Hserve. unfold getOwnerRepos.
  destruct fuel as [|fuel]; [destruct ps; [done|simpl in Hfuel; lia]|].
  rewrite (organization_fails owner e fuel w Hfail).
  replace (S fuel) with (length ps + (S fuel - length ps))%nat by lia.
  rewrite user_pages by done.
  eexists. split; [by rewrite derefRepoPtrs_omap|].
  rewrite served_user_calls, served_organization_calls. simpl.
  by rewrite <- app_assoc.
Qed.

(** X13: [getPathRepos] goes by the number of slashes of the path. A path
    with two slashes or more is refused with an error that states the
    number of its parts, without any call on the client. A path with one
    slash is [owner/name] for two parts without a slash, and leads to one
    [GetRepository(owner, name)] call and nothing else, with at most one
    repository returned and none beside an error. A path without a slash
    is an owner, whose repositories are listed. *)
Theorem getPathRepos_by_slashes (fuel : nat) (path : string) (w : world C) :
  ((2 ≤ gostrings.Count path "/")%nat →
   getPathRepos client fuel path w
   = Ret (([],
           Some (errorString
                   ("project " +:+ path +:+ " path of unexpected length "
                      +:+ pretty (Z.of_nat (gostrings.Count path "/") + 1)))),
          w))
  ∧ (gostrings.Count path "/" = 1%nat →
     ∃ owner name repos e c',
       path = owner +:+ "/" +:+ name
       ∧ gostrings.Count owner "/" = O
       ∧ gostrings.Count name "/" = O
       ∧ getPathRepos client fuel path w
         = Ret ((repos, e),
                mkWorld c' (calls w ++ [GetRepositoryCalled owner name]))
       ∧ (length repos ≤ 1)%nat
       ∧ (e ≠ None → repos = []))
  ∧ (gostrings.Count path "/" = O →
     getPathRepos client fuel path w = getOwnerRepos client fuel path w).
Proof.
  pose proof (gostrings_facts.Split_length path "/") as Hlen.
  pose proof (gostrings_facts.Join_Split path "/") as Hjoin.
  pose proof (gostrings_facts.Split_pieces path "/") as Hpieces.
  unfold getPathRepos. cbv zeta.
  destruct (gostrings.Split path "/") as [|a [|b [|c rest]]] eqn:Hsplit;
    simpl in Hlen.
  - lia.
  - split; [intros ?; lia|]. split; [intros ?; lia|]. intros _.
    simpl in Hjoin. by subst a.
  - split; [intros ?; lia|]. split; [|intros ?; lia]. intros _.
    apply Forall_cons in Hpieces as [Ha Hb].
    apply Forall_cons in Hb as [Hb _].
    unfold getOwnerRepository, callRepository.
    destruct (GetRepository client a b (remote w)) as [[r e] c'].
    exists a, b.
    destruct e as [e|]; [|destruct r as [r|]]; eexists _, _, c';
      (split; [by rewrite <- Hjoin|]); (split; [done|]); (split; [done|]);
      (split; [reflexivity|]); simpl; split; (done || lia).
  - split; [|split; intros ?; lia]. intros _.
    replace (len (a :: b :: c :: rest))
      with (Z.of_nat (gostrings.Count path "/") + 1)
      by (unfold len; simpl length; lia).
    reflexivity.
Qed.

End service.

Lemma getOwnerRepos_organization_witness :
  ∃ w',
    getOwnerRepos acmeClient 3 "acme" (mkWorld tt [])
    = Ret ((omap id
              (concat [[Some (repo "acme" "api"); Some (repo "acme" "web")]]),
            None), w')
    ∧ calls w'
      = calls (mkWorld tt [])
        ++ map (λ j, GetOrganizationRepositoriesCalled "acme" (pageOptions j))
             (seq 0
                (length [[Some (repo "acme" "api");
                          Some (repo "acme" "web")]])).
Proof.
  apply (getOwnerRepos_organization acmeClient "acme"
           [[Some (repo "acme" "api"); Some (repo "acme" "web")]] 3
           (mkWorld tt [])).
  - done.
  - simpl. lia.
  - intros j p c Hp. destruct j as [|j]; simpl in Hp; [|done].
    injection Hp as <-. reflexivity.
Defined.

Lemma getOwnerRepos_user_fallback_witness :
  ∃ w',
    getOwnerRepos octocatClient 2 "octocat" (mkWorld tt [])
    = Ret ((omap id
              (concat [[Some (repo "octocat" "hello")];
                       [None; Some (repo "octocat" "spoon")]]),
            None), w')
    ∧ calls w'
      = calls (mkWorld tt [])
        ++ GetOrganizationRepositoriesCalled "octocat" (pageOptions 0)
           :: map (λ j, GetUserRepositoriesCalled "octocat" "owner"
                          (pageOptions j))
                (seq 0
                   (length [[Some (repo "octocat" "hello")];
                            [None; Some (repo "octocat" "spoon")]])).
Proof.
  apply (getOwnerRepos_user_fallback octocatClient "octocat"
           (errorString "404 Not Found")
           [[Some (repo "octocat" "hello")];
            [None; Some (repo "octocat" "spoon")]] 2 (mkWorld tt [])).
  - done.
  - simpl. lia.
  - intros c. reflexivity.
  - intros j p c Hp. destruct j as [|[|j]]; simpl in Hp; [| |done];
      injection Hp as <-; reflexivity.
Defined.

Lemma getPathRepos_by_slashes_witness :
  getPathRepos acmeClient 1 "a/b/c" (mkWorld tt [])
  = Ret (([],
          Some (errorString
                  ("project " +:+ "a/b/c" +:+ " path of unexpected length "
                     +:+ pretty (Z.of_nat (gostrings.Count "a/b/c" "/") + 1)))),
         mkWorld tt []).
Proof.
  apply (proj1 (getPathRepos_by_slashes acmeClient 1 "a/b/c" (mkWorld tt []))).
  simpl. lia.
Defined.

End listing_facts.

Module tracker_facts.
Import github github_inputs github_lookup.

Section tracker.
Context {C : Type}.
Variable title : string.
Variable client : iGithubClient C.

Lemma firstTracked_elem issues i :
  firstTracked title issues = Some i → Some i ∈ issues ∧ Title i = title.
Proof.
  induction issues as [|[j|] rest IH]; simpl; [done| |].
  - destruct (decide (Title j = title)) as [Ht|Ht].
    + intros [= <-]. split; [by left|done].
    + intros H. destruct (IH H). split; [by right|done].
  - intros H. destruct (IH H). split; [by right|done].
Qed.

Lemma getVulnerabilityIssueFrom_spec fuel owner repo :
  ∀ page (w w' : world C) found e,
  getVulnerabilityIssueFrom title client fuel owner repo page w
  = Ret ((found, e), w') →
  (∃ pages,
     calls w'
     = calls w ++ map (ListRepositoryIssuesCalled owner repo) (page :: pages)
     ∧ Forall (λ p, p ≠ 0) pages)
  ∧ (∀ i, found = Some i → Title i = title ∧ e = None).
Proof.
  induction fuel as [|fuel IH]; intros page w w' found e; simpl; [done|].
  unfold callList.
  destruct (ListRepositoryIssues client owner repo page (remote w))
    as [[err|[issues nextPage]] c'].
  - intros [= <- <- <-]. split; [by exists []|done].
  - destruct (firstTracked title issues) as [i|] eqn:Hfirst.
    + intros [= <- <- <-]. split; [by exists []|].
      intros j [= <-]. by apply firstTracked_elem in Hfirst as [_ ?].
    + destruct (nextPage =? 0) eqn:En.
      * intros [= <- <- <-]. split; [by exists []|done].
      * apply Z.eqb_neq in En. intros Hloop.
        apply IH in Hloop as ((pages & Hcalls & Hpages) & Hfound).
        split; [|done]. exists (nextPage :: pages). simpl in *.
        split; [by rewrite Hcalls, <- app_assoc|by constructor].
Qed.

(** The pages of a lookup are those the tracker named, one after the
    other, and the result is read off the answer to the last listing. *)
Lemma getVulnerabilityIssueFrom_pages fuel owner repo :
  ∀ page (w w' : world C) found e,
  getVulnerabilityIssueFrom title client fuel owner repo page w
  = Ret ((found, e), w') →
  ∃ pages lastPage cLast,
    calls w'
    = calls w ++ map (ListRepositoryIssuesCalled owner repo) (page :: pages)
    ∧ Forall (λ p, p ≠ 0) pages
    ∧ pagesFollowed title client owner repo page (remote w) pages
        lastPage cLast
    ∧ lookupResult title
        (fst (ListRepositoryIssues client owner repo lastPage cLast))
        found e
    ∧ remote w' = snd (ListRepositoryIssues client owner repo lastPage cLast).
Proof.
  induction fuel as [|fuel IH]; intros page w w' found e; simpl; [done|].
  unfold callList.
  destruct (ListRepositoryIssues client owner repo page (remote w))
    as [[err|[issues nextPage]] c'] eqn:Hlist.
  - intros [= <- <- <-]. exists [], page, (remote w).
    rewrite Hlist. by split_and!.
  - destruct (firstTracked title issues) as [i|] eqn:Hfirst.
    + intros [= <- <- <-]. exists [], page, (remote w).
      rewrite Hlist. simpl. by split_and!.
    + destruct (nextPage =? 0) eqn:En.
      * apply Z.eqb_eq in En. intros [= <- <- <-].
        exists [], page, (remote w). rewrite Hlist. simpl. by split_and!.
      * apply Z.eqb_neq in En. intros Hloop.
        apply IH in Hloop
          as (pages & lastPage & cLast & Hcalls & Hpages & Hfol & Hres & Hrem).
        exists (nextPage :: pages), lastPage, cLast. simpl in *.
        split; [by rewrite Hcalls, <- app_assoc|].
        split; [by constructor|]. split; [|done].
        exists issues, c'. by split_and!.
Qed.

(** X14: a lookup of the tracked issue that returns has only listed the
    issues of the repository it was asked about, starting from page 0 and
    going on with the pages the tracker named, none of them page 0; an
    issue it returns carries the well-known title and comes with a nil
    error; and it has created or updated nothing. Each page after the
    first is the next page that the tracker named in its answer to the
    listing before, an answer that did not hold the tracked issue; and
    the result is read off the answer to the last listing: its error, or
    the first tracked issue of its page, or nothing when that page was the
    last one. *)
Theorem getVulnerabilityIssue_readonly fuel owner repo (w w' : world C)
    found e :
  getVulnerabilityIssue title client fuel owner repo w = Ret ((found, e), w') →
  (∃ pages,
     calls w'
     = calls w ++ map (ListRepositoryIssuesCalled owner repo) (0 :: pages)
     ∧ Forall (λ p, p ≠ 0) pages
     ∧ ∃ lastPage cLast,
         pagesFollowed title client owner repo 0 (remote w) pages
           lastPage cLast
         ∧ lookupResult title
             (fst (ListRepositoryIssues client owner repo lastPage cLast))
             found e
         ∧ remote w'
           = snd (ListRepositoryIssues client owner repo lastPage cLast))
  ∧ (∀ i, found = Some i → Title i = title ∧ e = None)
  ∧ mutations (calls w') = mutations (calls w).
Proof.
  intros Hrun. split; [|split].
  - apply getVulnerabilityIssueFrom_pages in Hrun
      as (pages & lastPage & cLast & Hcalls & Hpages & Hfol & Hres & Hrem).
    exists pages. split; [done|]. split; [done|]. by exists lastPage, cLast.
  - by apply getVulnerabilityIssueFrom_spec in Hrun as [_ ?].
  - by apply github_facts.getVulnerabilityIssueFrom_lists in Hrun.
Qed.

(** X18: when the lookup of the tracked issue fails, neither
    [OpenVulnerabilityIssue] nor [CloseVulnerabilityIssue] creates or
    updates anything: each returns an error that wraps the error of the
    lookup, and [OpenVulnerabilityIssue] returns no issue. *)
Theorem lookup_failure_changes_nothing fuel project body (w w1 : world C)
    found e :
  getVulnerabilityIssue title client fuel (repository.GroupOrOwner project)
    (repository.Name project) w = Ret ((found, Some e), w1) →
  OpenVulnerabilityIssue title client fuel project body w
  = Ret ((None,
          Some (wrapError
                  (("[" +:+ repository.Path project +:+ "] ")
                     +:+ "Failed to fetch current list of issues: ") e)),
         w1)
  ∧ CloseVulnerabilityIssue title client fuel project w
    = Ret (Some (wrapError "failed to fetch current list of issues: " e), w1)
  ∧ mutations (calls w1) = mutations (calls w).
Proof.
  intros Hlook. unfold OpenVulnerabilityIssue, CloseVulnerabilityIssue.
  rewrite Hlook. split; [by destruct found|]. split; [by destruct found|].
  by apply github_facts.getVulnerabilityIssueFrom_lists in Hlook.
Qed.

End tracker.

Lemma getVulnerabilityIssue_readonly_witness :
  (∃ pages,
     calls (mkWorld tt
              [ListRepositoryIssuesCalled "acme" "widget" 0;
               ListRepositoryIssuesCalled "acme" "widget" 2])
     = calls (mkWorld tt [])
       ++ map (ListRepositoryIssuesCalled "acme" "widget") (0 :: pages)
     ∧ Forall (λ p, p ≠ 0) pages
     ∧ ∃ lastPage cLast,
         pagesFollowed "Vulnerability report"
           (stubbornTracker "Vulnerability report") "acme" "widget" 0
           (remote (mkWorld tt [])) pages lastPage cLast
         ∧ lookupResult "Vulnerability report"
             (fst (ListRepositoryIssues
                     (stubbornTracker "Vulnerability report")
                     "acme" "widget" lastPage cLast))
             (Some (mkIssue 7 "Vulnerability report" "closed" "")) None
         ∧ remote
             (mkWorld tt
                [ListRepositoryIssuesCalled "acme" "widget" 0;
                 ListRepositoryIssuesCalled "acme" "widget" 2])
           = snd (ListRepositoryIssues
                    (stubbornTracker "Vulnerability report")
                    "acme" "widget" lastPage cLast))
  ∧ (∀ i, Some (mkIssue 7 "Vulnerability report" "closed" "") = Some i →
          Title i = "Vulnerability report" ∧ @None error = None)
  ∧ mutations
      (calls (mkWorld tt
                [ListRepositoryIssuesCalled "acme" "widget" 0;
                 ListRepositoryIssuesCalled "acme" "widget" 2]))
    = mutations (calls (mkWorld tt [])).
Proof.
  apply (getVulnerabilityIssue_readonly "Vulnerability report"
           (stubbornTracker "Vulnerability report") 2 "acme" "widget"
           (mkWorld tt [])).
  reflexivity.
Defined.

Lemma lookup_failure_changes_nothing_witness :
  OpenVulnerabilityIssue "Vulnerability report" unreachableTracker 1 widget
    "body" (mkWorld tt [])
  = Ret ((None,
          Some (wrapError
                  (("[" +:+ repository.Path widget +:+ "] ")
                     +:+ "Failed to fetch current list of issues: ")
                  (errorString "connection refused"))),
         mkWorld tt [ListRepositoryIssuesCalled "acme" "widget" 0])
  ∧ CloseVulnerabilityIssue "Vulnerability report" unreachableTracker 1 widget
      (mkWorld tt [])
    = Ret (Some (wrapError "failed to fetch current list of issues: "
                   (errorString "connection refused")),
           mkWorld tt [ListRepositoryIssuesCalled "acme" "widget" 0])
  ∧ mutations (calls (mkWorld tt [ListRepositoryIssuesCalled "acme" "widget" 0]))
    = mutations (calls (mkWorld tt [])).
Proof.
  apply (lookup_failure_changes_nothing "Vulnerability report"
           unreachableTracker 1 widget "body" (mkWorld tt [])
           (mkWorld tt [ListRepositoryIssuesCalled "acme" "widget" 0]) None
           (errorString "connection refused")).
  reflexivity.
Defined.

Lemma OpenVulnerabilityIssue_creates_witness :
  ∃ r w2,
    OpenVulnerabilityIssue "Vulnerability report" emptyTracker 1 widget
      "body" (mkWorld tt []) = Ret (r, w2)
    ∧ mutations (calls w2)
      = mutations (calls (mkWorld tt []))
          ++ [CreateIssueCalled (repository.GroupOrOwner widget)
                (repository.Name widget)
                (mkRequest (Some "Vulnerability report") (Some "body") None)].
Proof.
  apply (github_facts.OpenVulnerabilityIssue_creates "Vulnerability report"
           emptyTracker 1 widget "body" (mkWorld tt [])
           (mkWorld tt [ListRepositoryIssuesCalled "acme" "widget" 0])).
  reflexivity.
Defined.

Lemma OpenVulnerabilityIssue_updates_witness :
  ∃ r e w2,
    OpenVulnerabilityIssue "Vulnerability report"
      (stubbornTracker "Vulnerability report") 2 widget "body" (mkWorld tt [])
    = Ret ((r, e), w2)
    ∧ mutations (calls w2)
      = mutations (calls (mkWorld tt []))
          ++ [UpdateIssueCalled (repository.GroupOrOwner widget)
                (repository.Name widget)
                (Number (mkIssue 7 "Vulnerability report" "closed" ""))
                (mkRequest None (Some "body") (Some "open"))]
    ∧ (GetState
         (fst (fst (UpdateIssue (stubbornTracker "Vulnerability report")
                      (repository.GroupOrOwner widget) (repository.Name widget)
                      (Number (mkIssue 7 "Vulnerability report" "closed" ""))
                      (mkRequest None (Some "body") (Some "open"))
                      (remote
                         (mkWorld tt
                            [ListRepositoryIssuesCalled "acme" "widget" 0;
                             ListRepositoryIssuesCalled "acme" "widget" 2])))))
       ≠ "open" → e ≠ None).
Proof.
  apply (github_facts.OpenVulnerabilityIssue_updates "Vulnerability report"
           (stubbornTracker "Vulnerability report") 2 widget "body"
           (mkWorld tt [])
           (mkWorld tt
              [ListRepositoryIssuesCalled "acme" "widget" 0;
               ListRepositoryIssuesCalled "acme" "widget" 2])
           (mkIssue 7 "Vulnerability report" "closed" "")).
  reflexivity.
Defined.

Lemma CloseVulnerabilityIssue_noop_witness :
  CloseVulnerabilityIssue "Vulnerability report"
    (stubbornTracker "Vulnerability report") 2 widget (mkWorld tt [])
  = Ret (None,
         mkWorld tt
           [ListRepositoryIssuesCalled "acme" "widget" 0;
            ListRepositoryIssuesCalled "acme" "widget" 2])
  ∧ mutations
      (calls (mkWorld tt
                [ListRepositoryIssuesCalled "acme" "widget" 0;
                 ListRepositoryIssuesCalled "acme" "widget" 2]))
    = mutations (calls (mkWorld tt [])).
Proof.
  apply (github_facts.CloseVulnerabilityIssue_noop "Vulnerability report"
           (stubbornTracker "Vulnerability report") 2 widget (mkWorld tt [])
           (mkWorld tt
              [ListRepositoryIssuesCalled "acme" "widget" 0;
               ListRepositoryIssuesCalled "acme" "widget" 2])
           (Some (mkIssue 7 "Vulnerability report" "closed" ""))).
  - reflexivity.
  - by intros i [= <-].
Defined.

End tracker_facts.

Module aggregation_facts.

#[local] Set Warnings "-clear-no-such-hyp".
Import scanner patrol.

(** *** Acknowledgement merging, again *)

Lemma acknowledge_idempotent acks v :
  acknowledge acks (acknowledge acks v) = acknowledge acks v.
Proof.
  unfold acknowledge at 2.
  destruct (last (filter (λ ack, config.Code ack = Id v) acks)) as [ack|]
    eqn:Hlast.
  - unfold acknowledge. simpl. rewrite Hlast. by destruct v.
  - unfold acknowledge. by rewrite Hlast.
Qed.

(** X20: merging the acknowledgements of a configuration into a report a
    second time changes nothing. *)
Theorem markVulnsAsAcknowledgedInReport_idempotent
    (report : Report) (cfg : config.ProjectConfig) :
  markVulnsAsAcknowledgedInReport
    (markVulnsAsAcknowledgedInReport report cfg) cfg
  = markVulnsAsAcknowledgedInReport report cfg.
Proof.
  rewrite !patrol_facts.markVulns_acknowledgedReport.
  unfold acknowledgedReport. simpl. f_equal.
  rewrite map_map. apply map_ext. intros v. apply acknowledge_idempotent.
Qed.

Section aggregation.
Context {OsvReport : Type}.
Variable s : sheriffService OsvReport.

#[local] Abbreviation scanned p := (∃ r, scanProject s p = inr r).




#[local] Instance moreVulnerable_total' : Total moreVulnerable.
Proof. intros a b. unfold moreVulnerable. lia. Qed.


(** *** Patrol and its sinks *)

(** X21: what [Patrol] publishes does not depend on what the sinks answer:
    a sink that fails keeps no other sink from being served. Nothing is
    published when the scan gave no report; otherwise every publication
    carries the reports of the scan and the console comes last. *)
Theorem Patrol_sinks_isolated (hasSlack : bool) (schedule : list nat)
    (args : config.PatrolConfig) :
  ∃ published,
    (∀ pub, snd (Patrol s pub hasSlack schedule args) = published)
    ∧ (fst (fst (scanAndGetReports s schedule (config.Locations args))) = [] →
       published = [])
    ∧ (MkdirAll s tempScanDir = None →
       fst (fst (scanAndGetReports s schedule (config.Locations args))) ≠ [] →
       last published
       = Some (ConsolePublished
                 (fst (fst (scanAndGetReports s schedule
                              (config.Locations args))))
                 (config.SilentReport args))).
Proof.
  unfold Patrol.
  pose proof (patrol_facts.scanAndGetReports_error s schedule
                (config.Locations args)) as Herr.
  destruct (scanAndGetReports s schedule (config.Locations args))
    as [[reports swarn] err]. simpl in *.
  destruct err as [e|].
  { exists []. split; [done|]. split; [done|]. intros Hdir _.
    exfalso. destruct Herr as [H1 _]. by apply H1. }
  destruct (len reports =? 0) eqn:Hlen.
  { exists []. split; [done|]. split; [done|]. intros _ Hne.
    apply Z.eqb_eq in Hlen. unfold len in Hlen. by destruct reports. }
  destruct (config.ReportToIssue args), hasSlack,
    (config.ReportToSlackChannels args) as [|channel channels],
    (config.EnableProjectReportTo args);
    (eexists; split; [intros pub; simpl; reflexivity|];
     split; [intros ->; done|intros _ _; simpl; try done]).
Qed.

Lemma addWarning_none msg w warn :
  addWarning msg w warn = None ↔ w = None ∧ warn = None.
Proof.
  destruct w, warn; simpl; unfold errors.Join; simpl;
    (split; [try done; intros [=]|try done; intros [? ?]; congruence]).
Qed.

(** X22: no warning is lost. Once the working directory exists, [Patrol]
    returns a nil warning exactly when the scan gave no warning and, if
    there was a report to publish, every sink that was served answered
    without a warning: the issue sink when reporting to issues is on, the
    general Slack message to the first configured channel and the
    per-project Slack messages when a Slack service is there. *)
Theorem Patrol_warning_iff (pub : publishers) (hasSlack : bool)
    (schedule : list nat) (args : config.PatrolConfig) :
  MkdirAll s tempScanDir = None →
  let reports :=
    fst (fst (scanAndGetReports s schedule (config.Locations args))) in
  let swarn :=
    snd (fst (scanAndGetReports s schedule (config.Locations args))) in
  fst (fst (Patrol s pub hasSlack schedule args)) = None
  ↔ swarn = None
    ∧ (reports ≠ [] →
       (config.ReportToIssue args = true →
        PublishAsGitlabIssues pub reports = None)
       ∧ (hasSlack = true →
          (∀ channel channels,
             config.ReportToSlackChannels args = channel :: channels →
             PublishAsGeneralSlackMessage pub channel reports
               (map config.Path (config.Locations args)) = None)
          ∧ (config.EnableProjectReportTo args = true →
             PublishAsSpecificChannelSlackMessage pub reports = None))).
Proof.
  intros Hdir. cbv zeta. unfold Patrol.
  pose proof (patrol_facts.scanAndGetReports_error s schedule
                (config.Locations args)) as Herr.
  destruct (scanAndGetReports s schedule (config.Locations args))
    as [[reports swarn] err]. simpl in *.
  destruct err as [e|]; [exfalso; destruct Herr as [H1 _]; by apply H1|].
  destruct (len reports =? 0) eqn:Hlen.
  { apply Z.eqb_eq in Hlen. unfold len in Hlen.
    destruct reports; [|simpl in Hlen; lia].
    destruct swarn; simpl; split; (done || intros [? ?]; done || by split). }
  assert (reports ≠ []) as Hne.
  { intros ->. by apply Z.eqb_neq in Hlen. }
  destruct swarn as [w0|];
    destruct (config.ReportToIssue args), hasSlack,
      (config.ReportToSlackChannels args) as [|channel channels],
      (config.EnableProjectReportTo args);
    simpl; rewrite ?addWarning_none; clear -Hne; naive_solver.
Qed.

End aggregation.


Lemma Patrol_warning_iff_witness :
  fst (fst (Patrol isolationService quietPublishers true [] everythingOn))
  = None
  ↔ snd (fst (scanAndGetReports isolationService []
                (config.Locations everythingOn))) = None
    ∧ (fst (fst (scanAndGetReports isolationService []
                   (config.Locations everythingOn))) ≠ [] →
       (config.ReportToIssue everythingOn = true →
        PublishAsGitlabIssues quietPublishers
          (fst (fst (scanAndGetReports isolationService []
                       (config.Locations everythingOn)))) = None)
       ∧ (true = true →
          (∀ channel channels,
             config.ReportToSlackChannels everythingOn = channel :: channels →
             PublishAsGeneralSlackMessage quietPublishers channel
               (fst (fst (scanAndGetReports isolationService []
                            (config.Locations everythingOn))))
               (map config.Path (config.Locations everythingOn)) = None)
          ∧ (config.EnableProjectReportTo everythingOn = true →
             PublishAsSpecificChannelSlackMessage quietPublishers
               (fst (fst (scanAndGetReports isolationService []
                            (config.Locations everythingOn)))) = None))).
Proof.
  apply (Patrol_warning_iff isolationService quietPublishers true []
           everythingOn).
  reflexivity.
Defined.

End aggregation_facts.

Module paths_facts.
Import patrol_paths.

(** X23: [parseGroupPaths] fails exactly on the empty path. For any other
    path it returns the pieces between the slashes: one more piece than
    there are slashes, none of them holding a slash, and joining them with
    slashes gives the path back. The error "gitlab path incomplete" is
    never returned. *)
Theorem parseGroupPaths_round_trip (path : string) :
  (path = "" →
   parseGroupPaths path
   = ([], Some (errorString ("gitlab path missing: " +:+ path))))
  ∧ (path ≠ "" →
     ∃ paths,
       parseGroupPaths path = (paths, None)
       ∧ gostrings.Join paths "/" = path
       ∧ length paths = S (gostrings.Count path "/")
       ∧ Forall (λ piece, gostrings.Count piece "/" = O) paths)
  ∧ snd (parseGroupPaths path)
    ≠ Some (errorString ("gitlab path incomplete: " +:+ path)).
Proof.
  unfold parseGroupPaths.
  pose proof (gostrings_facts.Split_length path "/") as Hlen.
  assert ((len (gostrings.Split path "/") =? 0) = false) as Hz
    by (apply Z.eqb_neq; unfold len; lia).
  destruct (decide (path = "")) as [->|Hne].
  - split; [done|]. split; [done|]. simpl. intros [= H].
  - rewrite Hz. split; [done|]. split; [|done]. intros _.
    exists (gostrings.Split path "/"). split; [done|].
    split; [apply gostrings_facts.Join_Split|].
    split; [done|apply gostrings_facts.Split_pieces].
Qed.

Lemma parseGroupPaths_round_trip_witness :
  ∃ paths,
    parseGroupPaths "acme/platform/api" = (paths, None)
    ∧ gostrings.Join paths "/" = "acme/platform/api"
    ∧ length paths = S (gostrings.Count "acme/platform/api" "/")
    ∧ Forall (λ piece, gostrings.Count piece "/" = O) paths.
Proof.
  apply (proj1 (proj2 (parseGroupPaths_round_trip "acme/platform/api"))).
  done.
Defined.

End paths_facts.

Module publishing_facts.
Import scanner goslack publish_slack.

Section publisher.
Variable severityScoreOrder : list SeverityScoreKind.
Variable today : string.
Variable groupVulnReportsByMaxSeverityKind :
  list Report → gmap SeverityScoreKind (list Report).
Context {W : Type}.
Variable PostMessage : string → list MsgOption → W → (string * option error) * W.

#[local] Abbreviation reportText := (reportText severityScoreOrder).
#[local] Abbreviation formatReportMessage :=
  (formatReportMessage severityScoreOrder).
#[local] Abbreviation formatSummary :=
  (formatSummary severityScoreOrder today).
#[local] Abbreviation formatSpecificChannelSlackMessage :=
  (formatSpecificChannelSlackMessage today).
#[local] Abbreviation callPostMessage := (callPostMessage PostMessage).
#[local] Abbreviation postReplies := (postReplies PostMessage).
#[local] Abbreviation postReport := (postReport today PostMessage).
#[local] Abbreviation postAll := (postAll today PostMessage).
#[local] Abbreviation PublishAsGeneralSlackMessage :=
  (PublishAsGeneralSlackMessage severityScoreOrder today
     groupVulnReportsByMaxSeverityKind PostMessage).
#[local] Abbreviation PublishAsSpecificChannelSlackMessage :=
  (PublishAsSpecificChannelSlackMessage today PostMessage).

Lemma formatReportMessage_spec reportsBySeverityKind :
  ∃ chunks,
    formatReportMessage reportsBySeverityKind = Ret (map chunkOption chunks)
    ∧ chunks ≠ []
    ∧ concat chunks
      = String.list_byte_of_string (reportText reportsBySeverityKind)
    ∧ Forall (λ c, len c <= 3000) chunks.
Proof.
  unfold publish_slack.formatReportMessage, publish.splitMessage.
  change (3000 <=? 0) with false. cbv iota.
  set (text := String.list_byte_of_string _).
  destruct (publish_facts.splitLoop_spec 3000 (length text) ltac:(lia) [] text)
    as (cs & Hrun & Hne & Hcat & Hfit & _); [done|].
  rewrite Hrun. simpl. by exists cs.
Qed.

(** X24: the threaded messages always exist and fit. For every grouping
    of the reports [formatReportMessage] returns, with at least one
    message; each message is one section block whose text has at most 3000
    bytes; and the texts, one after the other, are the whole report text. *)
Theorem formatReportMessage_chunks
    (reportsBySeverityKind : gmap SeverityScoreKind (list Report)) :
  ∃ chunks,
    formatReportMessage reportsBySeverityKind = Ret (map chunkOption chunks)
    ∧ chunks ≠ []
    ∧ concat chunks
      = String.list_byte_of_string (reportText reportsBySeverityKind)
    ∧ Forall (λ c, len c <= 3000) chunks.
Proof. apply formatReportMessage_spec. Qed.

Lemma kindSection_empty reportsBySeverityKind kind :
  (∀ group, reportsBySeverityKind !! kind = Some group → group = []) →
  kindSection reportsBySeverityKind kind = "".
Proof.
  intros Hempty. unfold kindSection.
  destruct (reportsBySeverityKind !! kind) as [group|] eqn:E; [|done].
  by rewrite (Hempty group eq_refl).
Qed.

Lemma reportText_empty reportsBySeverityKind :
  (∀ kind group, reportsBySeverityKind !! kind = Some group → group = []) →
  reportText reportsBySeverityKind = "".
Proof.
  intros Hempty. unfold publish_slack.reportText.
  induction severityScoreOrder as [|kind kinds IH]; [done|].
  simpl. rewrite kindSection_empty; [apply IH|apply Hempty].
Qed.

(** X25: with nothing to list, one empty message is still built. When no
    severity kind has a report (the kind is absent from the grouping, or
    bound to an empty group), [formatReportMessage] returns exactly one
    message, a section block with the empty text. *)
Theorem formatReportMessage_nothing_to_list
    (reportsBySeverityKind : gmap SeverityScoreKind (list Report)) :
  (∀ kind group, reportsBySeverityKind !! kind = Some group → group = []) →
  formatReportMessage reportsBySeverityKind = Ret [chunkOption []].
Proof.
  intros Hempty. unfold publish_slack.formatReportMessage.
  by rewrite reportText_empty.
Qed.

Lemma callPostMessage_posts channelName options w :
  posts (snd (callPostMessage channelName options w))
  = posts w ++ [(channelName, options)].
Proof.
  unfold publish_slack.callPostMessage.
  by destruct (PostMessage channelName options (remote w)) as [r c'].
Qed.

Lemma postReplies_spec channelName ts msgOptions :
  ∀ w, ∃ replies,
    replies `prefix_of` msgOptions
    ∧ posts (snd (postReplies channelName ts msgOptions w))
      = posts w
          ++ map (λ option, (channelName, [option; MsgOptionTS ts])) replies
    ∧ (fst (postReplies channelName ts msgOptions w) = None →
       replies = msgOptions).
Proof.
  induction msgOptions as [|option rest IH]; intros w.
  - exists []. simpl. by rewrite app_nil_r.
  - simpl.
    pose proof (callPostMessage_posts channelName
                  [option; MsgOptionTS ts] w) as Hposts.
    destruct (callPostMessage channelName [option; MsgOptionTS ts] w)
      as [[ts' e] w1]. simpl in Hposts.
    destruct e as [e|].
    + exists [option]. simpl. split; [by exists rest|]. by split.
    + destruct (IH w1) as (replies & Hpre & Hlog & Hall).
      exists (option :: replies). split; [by apply prefix_cons|].
      split.
      * rewrite Hlog, Hposts. simpl. by rewrite <- app_assoc.
      * intros Hnil. by rewrite (Hall Hnil).
Qed.

(** X26: the general report is a summary followed by replies in its
    thread. [PublishAsGeneralSlackMessage] returns; it first posts the
    summary to the channel; every later post goes to the same channel and
    carries, in order, one of the messages of [formatReportMessage]
    together with the timestamp that the summary post returned; a nil
    error means that all of these messages were posted; and when the
    summary post fails nothing else is posted and the error is not nil. *)
Theorem PublishAsGeneralSlackMessage_thread (channelName : string)
    (reports : list Report) (paths : list string) (w : world W) :
  let grouped := groupVulnReportsByMaxSeverityKind reports in
  let summary := formatSummary grouped (len reports) paths in
  let ts := fst (fst (PostMessage channelName summary (remote w))) in
  let failed := snd (fst (PostMessage channelName summary (remote w))) in
  ∃ err w' msgOptions replies,
    PublishAsGeneralSlackMessage channelName reports paths w = Ret (err, w')
    ∧ formatReportMessage grouped = Ret msgOptions
    ∧ replies `prefix_of` msgOptions
    ∧ posts w'
      = posts w ++ (channelName, summary)
          :: map (λ option, (channelName, [option; MsgOptionTS ts])) replies
    ∧ (err = None → replies = msgOptions ∧ failed = None)
    ∧ (failed ≠ None → replies = [] ∧ err ≠ None).
Proof.
  cbv zeta. unfold publish_slack.PublishAsGeneralSlackMessage.
  set (grouped := groupVulnReportsByMaxSeverityKind reports).
  set (summary := formatSummary grouped (len reports) paths).
  destruct (formatReportMessage_spec grouped)
    as (chunks & Hfmt & _).
  pose proof (callPostMessage_posts channelName summary w) as Hposts.
  unfold publish_slack.callPostMessage in *.
  destruct (PostMessage channelName summary (remote w)) as [[ts e] c1].
  simpl in Hposts. simpl.
  destruct e as [e|].
  - eexists _, _, (map chunkOption chunks), [].
    split; [done|]. split; [done|]. split; [apply prefix_nil|].
    split; [done|]. split; [done|]. done.
  - rewrite Hfmt.
    destruct (postReplies_spec channelName ts (map chunkOption chunks)
                (mkWorld c1 (posts w ++ [(channelName, summary)])))
      as (replies & Hpre & Hlog & Hall).
    destruct (postReplies channelName ts (map chunkOption chunks) _)
      as [err w'] eqn:Hrun. simpl in *.
    exists err, w', (map chunkOption chunks), replies.
    split; [done|]. split; [done|]. split; [done|].
    split; [by rewrite Hlog, <- app_assoc|].
    split; [intros Hnil; by rewrite (Hall Hnil)|done].
Qed.

Lemma postReport_posts report st :
  posts (snd (postReport report st))
  = posts (snd st)
      ++ [(config.ReportToSlackChannel (ProjectConfig report),
           formatSpecificChannelSlackMessage report)].
Proof.
  destruct st as [warn w]. unfold publish_slack.postReport.
  pose proof (callPostMessage_posts
                (config.ReportToSlackChannel (ProjectConfig report))
                (formatSpecificChannelSlackMessage report) w) as Hposts.
  destruct (callPostMessage _ _ w) as [[ts e] w1]. by destruct e.
Qed.

Lemma postAll_posts schedule :
  ∀ pending st, ∃ made,
    posts (snd (postAll schedule pending st)) = posts (snd st) ++ made
    ∧ made ≡ₚ map (λ r, (config.ReportToSlackChannel (ProjectConfig r),
                          formatSpecificChannelSlackMessage r)) pending.
Proof.
  induction schedule as [|i schedule IH]; intros pending st.
  - simpl. revert st. induction pending as [|r rest IHp]; intros st.
    + exists []. by rewrite app_nil_r.
    + simpl. destruct (IHp (postReport r st)) as (made & Hlog & Hperm).
      eexists (_ :: made). rewrite Hlog, postReport_posts, <- app_assoc.
      split; [done|]. simpl. by rewrite Hperm.
  - simpl. destruct (pending !! i) as [r|] eqn:E; [|apply IH].
    destruct (IH (delete i pending) (postReport r st))
      as (made & Hlog & Hperm).
    eexists (_ :: made). rewrite Hlog, postReport_posts, <- app_assoc.
    split; [done|]. rewrite Hperm.
    pose proof (Permutation_map
                  (λ r, (config.ReportToSlackChannel (ProjectConfig r),
                         formatSpecificChannelSlackMessage r))
                  (delete_Permutation pending i r E)) as Hdel.
    by rewrite Hdel.
Qed.

(** X27: one post per configured project, whatever the order. In every
    order in which the goroutines run,
    [PublishAsSpecificChannelSlackMessage] posts once for each report
    whose project names a Slack channel, to that channel and with that
    report's message, and posts nothing for the other reports. *)
Theorem PublishAsSpecificChannelSlackMessage_posts (schedule : list nat)
    (reports : list Report) (w : world W) :
  ∃ made,
    posts (snd (PublishAsSpecificChannelSlackMessage schedule reports w))
    = posts w ++ made
    ∧ made ≡ₚ map (λ r, (config.ReportToSlackChannel (ProjectConfig r),
                          formatSpecificChannelSlackMessage r))
                (filter (λ r, config.ReportToSlackChannel (ProjectConfig r)
                              ≠ "") reports)
    ∧ (∀ channel options, (channel, options) ∈ made → channel ≠ "").
Proof.
  unfold publish_slack.PublishAsSpecificChannelSlackMessage.
  destruct (postAll_posts schedule
              (filter (λ r, config.ReportToSlackChannel (ProjectConfig r) ≠ "")
                 reports) (None, w)) as (made & Hlog & Hperm).
  exists made. split; [done|]. split; [done|].
  intros channel options Hin. rewrite Hperm in Hin.
  apply list_elem_of_fmap in Hin as (r & [= -> ->] & Hr).
  by apply list_elem_of_filter in Hr as [Hr _].
Qed.

End publisher.

Lemma formatReportMessage_nothing_to_list_witness :
  (∀ kind group,
     ({[ High := [] ]} : gmap SeverityScoreKind (list Report)) !! kind
     = Some group → group = [])
  ∧ formatReportMessage displayOrder {[ High := [] ]}
    = Ret [chunkOption []].
Proof.
  assert (∀ kind group,
            ({[ High := [] ]} : gmap SeverityScoreKind (list Report)) !! kind
            = Some group → group = []) as Hempty.
  { intros kind group Hin. by apply lookup_singleton_Some in Hin as [_ <-]. }
  split; [exact Hempty|].
  apply (formatReportMessage_nothing_to_list displayOrder _ Hempty).
Defined.

End publishing_facts.

Module project_path_facts.
Import github_paths.

(** X28: [extractOwnerRepo] accepts exactly the paths with one slash. For
    such a path it returns the text before the slash as owner and the text
    after it as repository, so that [owner/repo] is the path again and
    neither part holds a slash; for every other path it returns two empty
    strings and an error that quotes the path. *)
Theorem extractOwnerRepo_exactly_one_slash (path : string) :
  (gostrings.Count path "/" = 1%nat →
   ∃ owner repo,
     extractOwnerRepo path = ((owner, repo), None)
     ∧ path = owner +:+ "/" +:+ repo
     ∧ gostrings.Count owner "/" = O
     ∧ gostrings.Count repo "/" = O)
  ∧ (gostrings.Count path "/" ≠ 1%nat →
     extractOwnerRepo path
     = (("", ""),
        Some (errorString
                ("invalid GitHub project path format, expected 'owner/repo', got: "
                   +:+ path)))).
Proof.
  pose proof (gostrings_facts.Split_length path "/") as Hlen.
  pose proof (gostrings_facts.Join_Split path "/") as Hjoin.
  pose proof (gostrings_facts.Split_pieces path "/") as Hpieces.
  unfold extractOwnerRepo. cbv zeta.
  destruct (gostrings.Split path "/") as [|a [|b [|c rest]]] eqn:Hsplit;
    simpl in Hlen.
  - lia.
  - split; [intros ?; lia|]. by intros _.
  - split; [|intros ?; lia]. intros _.
    apply Forall_cons in Hpieces as [Ha Hb].
    apply Forall_cons in Hb as [Hb _].
    exists a, b. split; [done|]. split; [by rewrite <- Hjoin|]. by split.
  - split; [intros ?; lia|]. intros _.
    replace (len (a :: b :: c :: rest) =? 2) with false; [done|].
    symmetry. apply Z.eqb_neq. unfold len. simpl length. lia.
Qed.

Lemma extractOwnerRepo_exactly_one_slash_witness :
  gostrings.Count "octocat/hello-world" "/" = 1%nat
  ∧ ∃ owner repo,
      extractOwnerRepo "octocat/hello-world" = ((owner, repo), None)
      ∧ "octocat/hello-world" = owner +:+ "/" +:+ repo
      ∧ gostrings.Count owner "/" = O
      ∧ gostrings.Count repo "/" = O.
Proof.
  split; [reflexivity|].
  apply (proj1 (extractOwnerRepo_exactly_one_slash "octocat/hello-world")).
  reflexivity.
Defined.

End project_path_facts.
